(** * statsgod: the metric store, the flush cycle and the statistics engine

    A shallow embedding of [statsgod.go].  Go's [int] is a 64-bit
    two's-complement integer, [float32] and [float64] are the IEEE 754
    binary32 and binary64 formats (Stdlib's [SpecFloat], rounding to
    nearest even), strings are byte strings, and the store's
    [map[string]Metric] is a [gmap string Metric]. *)

From Stdlib Require Import ZArith String Ascii List Lia Sorted.
From Stdlib Require Import Floats.SpecFloat.
From Stdlib Require DecimalString.
From stdpp Require Import base option list gmap strings fin_maps.

Local Open Scope string_scope.
Local Open Scope list_scope.
Local Open Scope Z_scope.

(** ** Go's [int] *)

Module GoInt.

Definition MaxInt : Z := 2 ^ 63 - 1.
Definition MinInt : Z := - 2 ^ 63.

(** Two's-complement wrap-around of a mathematical integer. *)
Definition wrap (z : Z) : Z := (z + 2 ^ 63) mod 2 ^ 64 - 2 ^ 63.

Definition add (a b : Z) : Z := wrap (a + b).
Definition sub (a b : Z) : Z := wrap (a - b).

Definition in_range (z : Z) : Prop := MinInt <= z <= MaxInt.

(** [strconv.Itoa] and the [%d] verb. *)
Definition Itoa (z : Z) : string :=
  DecimalString.NilZero.string_of_int (Z.to_int z).

End GoInt.

(** ** Go's [float32] and [float64] *)

Abbreviation float32 := spec_float (only parsing).
Abbreviation float64 := spec_float (only parsing).

Module F32.
Definition prec : Z := 24.
Definition emax : Z := 128.
Definition add : float32 -> float32 -> float32 := SFadd prec emax.
Definition div : float32 -> float32 -> float32 := SFdiv prec emax.
(** [a < b] on floats; false as soon as one side is NaN. *)
Definition ltb : float32 -> float32 -> bool := SFltb.
(** The conversion [float32(n)] of an [int]. *)
Definition of_int (n : Z) : float32 := binary_normalize prec emax n 0 false.
(** The conversion [float32(x)] of a [float64]. *)
Definition of_float64 (x : float64) : float32 :=
  match x with
  | S754_finite s m e => binary_round prec emax s m e
  | _ => x
  end.
Definition zero : float32 := S754_zero false.
End F32.

Module F64.
Definition prec : Z := 53.
Definition emax : Z := 1024.
Definition add : float64 -> float64 -> float64 := SFadd prec emax.
Definition sub : float64 -> float64 -> float64 := SFsub prec emax.
Definition mul : float64 -> float64 -> float64 := SFmul prec emax.
Definition div : float64 -> float64 -> float64 := SFdiv prec emax.
(** The conversion [float64(n)] of an [int]. *)
Definition of_int (n : Z) : float64 := binary_normalize prec emax n 0 false.
(** The constant [0.5]. *)
Definition half : float64 := binary_normalize prec emax 1 (-1) false.

(** The integer part [floor (m * 2^e)] of a finite float. *)
Definition floorZ (s : bool) (m : positive) (e : Z) : Z :=
  let z := cond_Zopp s (Zpos m) in
  if 0 <=? e then z * 2 ^ e else z / 2 ^ (- e).

(** [math.Floor]: zeros, infinities and NaN are returned unchanged. *)
Definition Floor (x : float64) : float64 :=
  match x with
  | S754_finite s m e => binary_normalize prec emax (floorZ s m e) 0 s
  | _ => x
  end.

(** The conversion [int(x)]: truncation toward zero.  Go leaves the result
    implementation-defined when the value does not fit (or is NaN); the
    value used here is the one amd64 produces. *)
Definition to_int (x : float64) : Z :=
  match x with
  | S754_zero _ => 0
  | S754_finite s m e =>
      let t := if 0 <=? e then cond_Zopp s (Zpos m * 2 ^ e)
               else cond_Zopp s (Zpos m / 2 ^ (- e)) in
      if (GoInt.MinInt <=? t) && (t <=? GoInt.MaxInt) then t else GoInt.MinInt
  | _ => GoInt.MinInt
  end.
End F64.

(** ** The data model *)

(** [type Metric struct]. *)
Record Metric := mkMetric {
  key : string;
  metricType : string;
  totalHits : Z;
  lastValue : float32;
  allValues : list float32;
  flushTime : Z;
  lastFlushed : Z
}.

(** The zero value of [Metric], which a map read of an absent key returns. *)
Definition zeroMetric : Metric :=
  mkMetric "" "" 0 F32.zero [] 0 0.

(** [type MetricStore struct]: the map; the mutex appears in the
    interleaving model further down as the atomicity of [Set]. *)
Abbreviation MetricStore := (gmap string Metric) (only parsing).

Definition NewMetricStore : MetricStore := ∅.

(** [func (s *MetricStore) Get(key string) Metric]. *)
Definition MetricStore_Get (s : MetricStore) (k : string) : Metric :=
  default zeroMetric (s !! k).

(** The [lastValue] update of the second [switch] in [Set]. *)
Definition updateLastValue (mt : string) (old val : float32) : float32 :=
  if String.eqb mt "gauge" then val
  else if String.eqb mt "counter" then F32.add old val
  else if String.eqb mt "timer" then val
  else old.

(** The metric that [Set] writes back under [k]. *)
Definition setMetric (found : option Metric) (k mt : string) (val : float32)
  : Metric :=
  match found with
  | None =>
      mkMetric k mt 1 val (allValues zeroMetric ++ [val])
               (flushTime zeroMetric) (lastFlushed zeroMetric)
  | Some m =>
      mkMetric (key m) (metricType m) (GoInt.add (totalHits m) 1)
               (updateLastValue mt (lastValue m) val)
               (allValues m ++ [val]) (flushTime m) (lastFlushed m)
  end.

(** [func (s *MetricStore) Set(key string, metricType string, val float32) bool]:
    the new map and the returned boolean. *)
Definition MetricStore_Set (s : MetricStore) (k mt : string) (val : float32)
  : MetricStore * bool :=
  (<[k := setMetric (s !! k) k mt val]> s, false).

(** Small float literals used in examples. *)
Definition f32 (n : Z) : float32 := F32.of_int n.

(** ** [ByFloat32] and [sort.Interface] *)

(** [a[i]] for an [int] index; [None] stands for the index-out-of-range
    panic. *)
Definition at32 (a : list float32) (i : Z) : option float32 :=
  if (0 <=? i) && (i <? Z.of_nat (length a)) then a !! Z.to_nat i else None.

(** [sort.Interface]. *)
Class Interface (T : Type) := {
  Len : T -> Z;
  Less : T -> Z -> Z -> option bool;
  Swap : T -> Z -> Z -> option T
}.

(** [type ByFloat32 []float32] with its three methods. *)
Definition ByFloat32 : Type := list float32.

#[export] Instance ByFloat32_Interface : Interface ByFloat32 := {|
  Len a := Z.of_nat (length a);
  Less a i j :=
    match at32 a i, at32 a j with
    | Some x, Some y => Some (F32.ltb x y)
    | _, _ => None
    end;
  Swap a i j :=
    match at32 a i, at32 a j with
    | Some x, Some y => Some (<[Z.to_nat j := x]> (<[Z.to_nat i := y]> a))
    | _, _ => None
    end
|}.

(** The loop of [sort.IsSorted], from index [i] down to 1. *)
Fixpoint isSortedFrom {T} `{Interface T} (data : T) (i : nat) : bool :=
  match i with
  | O => true
  | S i' =>
      match Less data (Z.of_nat i) (Z.of_nat i - 1) with
      | Some false => isSortedFrom data i'
      | _ => false
      end
  end.

(** [sort.IsSorted], the state [sort.Sort] leaves [data] in when [Less]
    orders it. *)
Definition IsSorted {T} `{Interface T} (data : T) : bool :=
  isSortedFrom data (Z.to_nat (Len data - 1)).

(** ** The statistics engine: [sendToGraphite] *)

(** One call of [sendSingleMetricToGraphite (key, v, t)]: the data point
    handed to the sink.  (When the connection to Graphite cannot be opened
    the call logs an error and the point is dropped; the calls on the
    loggers inside the engine are left out.) *)
Record Point := mkPoint {
  pointKey : string;
  pointValue : float32;
  pointTime : string
}.

(** Code that hands points to the sink and may stop in a run-time panic
    (an index out of range): the points sent so far, and the result when
    the code ran to its end. *)
Definition Emit (A : Type) : Type := (list Point * option A)%type.

Definition emit_ret {A} (a : A) : Emit A := ([], Some a).

Definition emit_bind {A B} (c : Emit A) (k : A -> Emit B) : Emit B :=
  match c with
  | (out, None) => (out, None)
  | (out, Some a) => let '(out', r) := k a in (out ++ out', r)
  end.

Definition panic {A} : Emit A := ([], None).

Notation "x <- c ;; k" := (emit_bind c (fun x => k))
  (at level 100, c at next level, k at level 200, only parsing).
Notation "c ;;; k" := (emit_bind c (fun _ => k))
  (at level 100, k at level 200, only parsing).

(** [sendSingleMetricToGraphite]. *)
Definition sendSingleMetricToGraphite (k : string) (v : float32) (t : string)
  : Emit unit := ([mkPoint k v t], Some tt).

(** [l[i]] on a slice, with Go's bounds check. *)
Definition index (l : list float32) (i : Z) : Emit float32 :=
  match at32 l i with
  | Some x => emit_ret x
  | None => panic
  end.

(** The [for idx, value := range m.allValues] loop, from index [idx] on:
    the running [sum] and the slice [cumulativeValues]. *)
Fixpoint cumulate (idx : nat) (vals : list float32)
    (sum : float32) (cumulativeValues : list float32)
  : Emit (float32 * list float32) :=
  match vals with
  | [] => emit_ret (sum, cumulativeValues)
  | value :: rest =>
      let sum := F32.add sum value in
      match idx with
      | O => cumulate 1 rest sum cumulativeValues
      | S _ =>
          prev <- index cumulativeValues (Z.of_nat idx - 1) ;;
          cumulate (S idx) rest sum
                   (cumulativeValues ++ [F32.add prev value])
      end
  end.

(** [time.Duration.Seconds] of a duration in nanoseconds. *)
Definition Seconds (d : Z) : float64 :=
  F64.add (F64.of_int (Z.quot d 1000000000))
          (F64.div (F64.of_int (Z.rem d 1000000000)) (F64.of_int 1000000000)).

(** The expression assigned to [thresholdIndex]. *)
Definition thresholdIndex (percentile hits : Z) : Z :=
  F64.to_int
    (F64.Floor
       (F64.add
          (F64.mul
             (F64.div (F64.sub (F64.of_int 100) (F64.of_int percentile))
                      (F64.of_int 100))
             (F64.of_int hits))
          F64.half)).

Section StatisticsEngine.

(** [sort.Sort (ByFloat32 l)]: the slice after sorting. *)
Variable sortFloat32s : list float32 -> list float32.
(** The flags [*percentile] and [*flushTime] (nanoseconds). *)
Variable percentile : Z.
Variable flushTimeFlag : Z.

(** The timer part of [sendToGraphite], after the early return. *)
Definition sendTimer (m : Metric) (stringTime : string) : Emit unit :=
  let sorted := sortFloat32s (allValues m) in
  minValue <- index sorted 0 ;;
  maxValue <- index sorted (GoInt.sub (Z.of_nat (length sorted)) 1) ;;
  sc <- cumulate 0 sorted F32.zero [minValue] ;;
  let sum := fst sc in
  let cumulativeValues := snd sc in
  let avgValue := F32.div sum (F32.of_int (totalHits m)) in
  sendSingleMetricToGraphite
    ("stats.timers." +:+ key m +:+ ".avg_value") avgValue stringTime ;;;
  sendSingleMetricToGraphite
    ("stats.timers." +:+ key m +:+ ".max_value") maxValue stringTime ;;;
  sendSingleMetricToGraphite
    ("stats.timers." +:+ key m +:+ ".min_value") minValue stringTime ;;;
  let thresholdIndex := thresholdIndex percentile (totalHits m) in
  let numInThreshold := GoInt.sub (totalHits m) thresholdIndex in
  maxAtThreshold <- index sorted (GoInt.sub numInThreshold 1) ;;
  cumAt <- index cumulativeValues (GoInt.sub numInThreshold 1) ;;
  let meanAtPercentile := F32.div cumAt (F32.of_int numInThreshold) in
  sendSingleMetricToGraphite
    ("stats.timers." +:+ key m +:+ ".mean_" +:+ GoInt.Itoa percentile)
    meanAtPercentile stringTime ;;;
  sendSingleMetricToGraphite
    ("stats.timers." +:+ key m +:+ ".upper_" +:+ GoInt.Itoa percentile)
    maxAtThreshold stringTime ;;;
  cumAt' <- index cumulativeValues (GoInt.sub numInThreshold 1) ;;
  sendSingleMetricToGraphite
    ("stats.timers." +:+ key m +:+ ".sum_" +:+ GoInt.Itoa percentile)
    cumAt' stringTime.

(** [func sendToGraphite(m Metric)]. *)
Definition sendToGraphite (m : Metric) : Emit unit :=
  let stringTime := GoInt.Itoa (flushTime m) in
  (if String.eqb (metricType m) "gauge" then
     sendSingleMetricToGraphite
       ("stats.gauges." +:+ key m +:+ ".avg_value") (lastValue m) stringTime
   else if String.eqb (metricType m) "counter" then
     let flushSeconds := Seconds flushTimeFlag in
     let valuePerSec :=
       F32.div (lastValue m) (F32.of_float64 flushSeconds) in
     sendSingleMetricToGraphite ("stats." +:+ key m) valuePerSec stringTime ;;;
     sendSingleMetricToGraphite
       ("stats_counts." +:+ key m) (lastValue m) stringTime
   else emit_ret tt) ;;;
  sendSingleMetricToGraphite (key m) (lastValue m) stringTime ;;;
  if negb (String.eqb (metricType m) "timer") then emit_ret tt
  else sendTimer m stringTime.

End StatisticsEngine.

(** A sort by insertion with [Less] of [ByFloat32]; on slices without NaN
    it meets the contract of [sort.Sort] used below. *)
Fixpoint insertFloat32 (x : float32) (l : list float32) : list float32 :=
  match l with
  | [] => [x]
  | y :: l' => if F32.ltb y x then y :: insertFloat32 x l' else x :: l
  end.

Definition insertionSort (l : list float32) : list float32 :=
  foldr insertFloat32 [] l.

(** ** Ingestion: [shortTypeToLong], the line pattern and [handleRequest] *)

(** [func shortTypeToLong(short string) (string, error)]; the error is
    [Some] of its message. *)
Definition shortTypeToLong (short : string) : string * option string :=
  if String.eqb "c" short then ("counter", None)
  else if String.eqb "g" short then ("gauge", None)
  else if String.eqb "ms" short then ("timer", None)
  else ("unknown", Some "unknown metric type").

Definition isNewline (c : ascii) : bool := Ascii.eqb c "010"%char.

(** The pattern compiled in [handleRequest]: three greedy groups of any
    bytes but the newline, the first two closed by a colon and by a pipe.
    It is read as the backtracking matcher that Go's [regexp] agrees with
    (leftmost match, each star taking as much as it can).  [dotStar] is
    the last group. *)
Fixpoint dotStar (s : string) : string :=
  match s with
  | EmptyString => EmptyString
  | String c s' => if isNewline c then EmptyString else String c (dotStar s')
  end.

(** The second group, the pipe and the last group, anchored at the start
    of [s]. *)
Fixpoint matchPipe (s : string) : option (string * string) :=
  match s with
  | EmptyString => None
  | String c s' =>
      if isNewline c then None
      else match matchPipe s' with
           | Some (g2, g3) => Some (String c g2, g3)
           | None =>
               if Ascii.eqb c "|"%char then Some (EmptyString, dotStar s')
               else None
           end
  end.

(** The whole pattern anchored at the start of [s]. *)
Fixpoint matchColon (s : string) : option (string * string * string) :=
  match s with
  | EmptyString => None
  | String c s' =>
      if isNewline c then None
      else match matchColon s' with
           | Some (g1, g2, g3) => Some (String c g1, g2, g3)
           | None =>
               if Ascii.eqb c ":"%char then
                 match matchPipe s' with
                 | Some (g2, g3) => Some (EmptyString, g2, g3)
                 | None => None
                 end
               else None
           end
  end.

(** [msg.FindAllStringSubmatch(s, 1)]: the groups of the leftmost match,
    [None] when [len(bits) == 0]. *)
Fixpoint FindSubmatch (s : string) : option (string * string * string) :=
  match matchColon s with
  | Some r => Some r
  | None =>
      match s with
      | EmptyString => None
      | String _ s' => FindSubmatch s'
      end
  end.

(** Unicode white space as [strings.TrimSpace] sees it in a byte string:
    the six ASCII spaces, and the UTF-8 encodings of U+0085, U+00A0
    (two bytes) and of U+1680, U+2000..U+200A, U+2028, U+2029, U+202F,
    U+205F, U+3000 (three bytes). *)
Definition space1 (c : ascii) : bool :=
  let n := nat_of_ascii c in
  ((9 <=? n) && (n <=? 13))%nat || (n =? 32)%nat.

Definition space2 (c1 c2 : ascii) : bool :=
  let a := nat_of_ascii c1 in
  let b := nat_of_ascii c2 in
  (a =? 194)%nat && ((b =? 133)%nat || (b =? 160)%nat).

Definition space3 (c1 c2 c3 : ascii) : bool :=
  let a := nat_of_ascii c1 in
  let b := nat_of_ascii c2 in
  let c := nat_of_ascii c3 in
  ((a =? 225) && (b =? 154) && (c =? 128))%nat
  || ((a =? 226) && (b =? 128)
      && (((128 <=? c) && (c <=? 138)) || (c =? 168) || (c =? 169)
          || (c =? 175)))%nat
  || ((a =? 226) && (b =? 129) && (c =? 159))%nat
  || ((a =? 227) && (b =? 128) && (c =? 128))%nat.

(** Dropping the leading runes recognised by [p1], [p2], [p3]. *)
Fixpoint trimLeftBy (p1 : ascii -> bool) (p2 : ascii -> ascii -> bool)
    (p3 : ascii -> ascii -> ascii -> bool) (s : string) : string :=
  match s with
  | String c1 s1 =>
      if p1 c1 then trimLeftBy p1 p2 p3 s1
      else match s1 with
           | String c2 s2 =>
               if p2 c1 c2 then trimLeftBy p1 p2 p3 s2
               else match s2 with
                    | String c3 s3 =>
                        if p3 c1 c2 c3 then trimLeftBy p1 p2 p3 s3 else s
                    | EmptyString => s
                    end
           | EmptyString => s
           end
  | EmptyString => s
  end.

Definition revString (s : string) : string :=
  string_of_list_ascii (rev (list_ascii_of_string s)).

(** [strings.TrimSpace]. *)
Definition TrimSpace (s : string) : string :=
  let l := trimLeftBy space1 space2 space3 s in
  revString
    (trimLeftBy space1 (fun a b => space2 b a) (fun a b c => space3 c b a)
                (revString l)).

(** [strings.Trim(s, cutset)] for a cutset of one byte [c]. *)
Definition Trim (s : string) (c : ascii) : string :=
  let none2 := fun _ _ : ascii => false in
  let none3 := fun _ _ _ : ascii => false in
  let l := trimLeftBy (Ascii.eqb c) none2 none3 s in
  revString (trimLeftBy (Ascii.eqb c) none2 none3 (revString l)).

Definition NUL : ascii := "000"%char.

(** [buf := make([]byte, 512)] after [conn.Read(buf)] stored [data]:
    the bytes read, then the zero bytes left from [make]. *)
Definition bufferOf (data : string) : string :=
  let d := String.substring 0 512 data in
  d +:+ string_of_list_ascii (repeat NUL (512 - String.length d)).

(** What [conn.Read] returns in one iteration. *)
Inductive ReadResult :=
| ReadData (data : string)
| ReadError.

(** The calls on the loggers in [handleRequest], with their arguments. *)
Inductive LogEvent :=
| TraceGot (msg : string)
| TraceMetricType (metricType tmpMetricType : string)
| WarningMetricType (tmpMetricType : string)
| WarningClientMessage (buf : string)
| TraceValue (metricType metric : string) (value : float64).

(** How a run of [handleRequest] stands: returned after a failed read,
    returned after a buffer without a match, or blocked in [conn.Read]
    with the connection open. *)
Inductive SessionEnd :=
| ReturnedReadError
| ReturnedNoMatch
| AwaitingRead.

Record Session := mkSession {
  sessionStore : MetricStore;
  sessionLog : list LogEvent;
  sessionEnd : SessionEnd
}.

Section Ingestion.

(** [strconv.ParseFloat(val, 32)]: the value, and whether [err != nil]. *)
Variable ParseFloat : string -> float64 * bool.

(** [func handleRequest(conn net.Conn, store *MetricStore)], run on the
    results [reads] of the successive [conn.Read] calls. *)
Fixpoint handleRequest (reads : list ReadResult) (store : MetricStore)
    (log : list LogEvent) : Session :=
  match reads with
  | [] => mkSession store log AwaitingRead
  | ReadError :: _ => mkSession store log ReturnedReadError
  | ReadData data :: rest =>
      let buf := bufferOf data in
      let log := log ++ [TraceGot (Trim buf "010"%char)] in
      match FindSubmatch buf with
      | Some (metric, val, tmpMetricType) =>
          let tmpMetricType := TrimSpace tmpMetricType in
          let tmpMetricType := Trim tmpMetricType NUL in
          let '(metricType, err) := shortTypeToLong tmpMetricType in
          let log := log ++ [TraceMetricType metricType tmpMetricType] in
          match err with
          | Some _ =>
              handleRequest rest store
                            (log ++ [WarningMetricType tmpMetricType])
          | None =>
              let '(value, _) := ParseFloat val in
              let log := log ++ [TraceValue metricType metric value] in
              handleRequest rest
                (fst (MetricStore_Set store metric metricType
                                      (F32.of_float64 value)))
                log
          end
      | None =>
          mkSession store (log ++ [WarningClientMessage buf]) ReturnedNoMatch
      end
  end.

End Ingestion.

(** ** The flush cycle: [flushMetrics] and [handleGraphiteQueue] *)

(** [MAXREQS], the capacity of the channel [graphitePipeline]. *)
Definition AvailableMemory : Z := Z.shiftl 10 20.
Definition AverageMemoryPerRequest : Z := Z.shiftl 10 10.
Definition MAXREQS : Z := AvailableMemory / AverageMemoryPerRequest.

(** One iteration of the second [range] loop of [flushMetrics]: the copy of
    the metric, stamped with the time read, that is sent on the channel. *)
Definition flushCopy (now : Z) (metric : Metric) : Metric :=
  mkMetric (key metric) (metricType metric) (totalHits metric)
           (lastValue metric) (allValues metric) now (lastFlushed metric).

(** One iteration of [handleGraphiteQueue] on the store. *)
Definition handleGraphiteQueue_store (store : MetricStore) (metric : Metric)
  : MetricStore :=
  if negb (String.eqb (metricType metric) "gauge")
  then delete (key metric) store
  else store.

(** One tick run to its end with no [Set] in between: the [range] loop
    visits the entries in [order] and reads the clock [now i] at its
    [i]-th iteration, then [handleGraphiteQueue] receives every copy. *)
Definition flushQueue (now : nat -> Z) (order : list (string * Metric))
  : list Metric :=
  imap (fun i km => flushCopy (now i) (snd km)) order.

Definition flushCycle (now : nat -> Z) (order : list (string * Metric))
    (store : MetricStore) : MetricStore :=
  foldl handleGraphiteQueue_store store (flushQueue now order).

(** The [range] loop visits every entry of the map once, in an order Go
    leaves open. *)
Definition iterationOrder (store : MetricStore)
    (order : list (string * Metric)) : Prop :=
  order ≡ₚ map_to_list store.

(** *** The goroutines interleaved

    The state shared by the goroutines: the map, the buffered channel and
    the results of the [sendToGraphite] goroutines started so far.
    Slices are values here.  In Go the copy in the channel shares its
    backing array with the metric in the map, but the only write into
    existing elements is the sort inside [sendToGraphite], on a timer,
    whose key [handleGraphiteQueue] deletes on receiving it; [append]
    writes past the length of every copy. *)
Record System := mkSystem {
  sysStore : MetricStore;
  graphitePipeline : list Metric;
  sysSent : list (Emit unit)
}.

Definition initialSystem : System := mkSystem NewMetricStore [] [].

Section Interleaving.

Variable sortFloat32s : list float32 -> list float32.
Variable percentile : Z.
Variable flushTimeFlag : Z.

(** One atomic action of one goroutine. [Set] runs under [s.mu];
    [flushMetrics] and [handleGraphiteQueue] take no lock, so their
    iterations interleave freely with it. *)
Inductive step : System -> System -> Prop :=
| step_Set sys k mt val :
    step sys
         (mkSystem (fst (MetricStore_Set (sysStore sys) k mt val))
                   (graphitePipeline sys) (sysSent sys))
| step_flush sys k metric now :
    sysStore sys !! k = Some metric ->
    Z.of_nat (length (graphitePipeline sys)) < MAXREQS ->
    step sys
         (mkSystem (sysStore sys)
                   (graphitePipeline sys ++ [flushCopy now metric])
                   (sysSent sys))
| step_queue sys metric rest :
    graphitePipeline sys = metric :: rest ->
    step sys
         (mkSystem (handleGraphiteQueue_store (sysStore sys) metric)
                   rest
                   (sysSent sys
                    ++ [sendToGraphite sortFloat32s percentile
                                       flushTimeFlag metric])).

Inductive reachable : System -> Prop :=
| reachable_init : reachable initialSystem
| reachable_step sys sys' :
    reachable sys -> step sys sys' -> reachable sys'.

End Interleaving.

(** ** Vocabulary of the specification *)

(** The specification's [MetricKind], and the string [handleRequest]
    passes to [Set] for it. *)
Inductive MetricKind := Gauge | Counter | Timer.

Definition kindName (kind : MetricKind) : string :=
  match kind with
  | Gauge => "gauge"
  | Counter => "counter"
  | Timer => "timer"
  end.

(** [hitCount == length(samples)], for a count kept in an [int]. *)
Definition hitsMatch (m : Metric) : Prop :=
  totalHits m = GoInt.wrap (Z.of_nat (length (allValues m))).

Definition storeInv (s : MetricStore) : Prop :=
  forall k m, s !! k = Some m -> hitsMatch m.

(** Every metric of the store is filed under its own [key]. *)
Definition storeKeyed (s : MetricStore) : Prop :=
  forall k m, s !! k = Some m -> key m = k.

Definition notNaN (x : float32) : Prop := x <> S754_nan.

(** [a <= b] as [Less] of [ByFloat32] sees it: [b] is not less than [a]. *)
Definition notAbove (a b : float32) : Prop := F32.ltb b a = false.

(** The cumulative sums of the specification: [cum[0] = samples[0]] and
    [cum[i] = cum[i-1] + samples[i]]. *)
Fixpoint cumFrom (acc : float32) (l : list float32) : list float32 :=
  match l with
  | [] => []
  | x :: l' => F32.add acc x :: cumFrom (F32.add acc x) l'
  end.

Definition cumSums (samples : list float32) : list float32 :=
  match samples with
  | [] => []
  | x :: l => x :: cumFrom x l
  end.

(** The sum of the samples, added from the left starting at zero. *)
Definition sumOf (samples : list float32) : float32 :=
  fold_left F32.add samples F32.zero.

(** The threshold index of the specification read over the rationals:
    [floor(((100-P)/100) * hitCount + 0.5)]. *)
Definition exactThreshold (P hits : Z) : Z :=
  ((100 - P) * hits * 2 + 100) / 200.

(** The integers [a, a+1, ..., a+k-1]. *)
Definition upFrom (a : Z) (k : nat) : list Z :=
  map (fun i => a + Z.of_nat i) (seq 0 k).

(** The position of a non-NaN float in the order of [<]: its class, then
    exponent and mantissa (negated below zero). *)
Definition rank (x : float32) : Z * Z * Z :=
  match x with
  | S754_infinity true => (-2, 0, 0)
  | S754_finite true m e => (-1, - e, Zneg m)
  | S754_zero _ => (0, 0, 0)
  | S754_nan => (0, 0, 0)
  | S754_finite false m e => (1, e, Zpos m)
  | S754_infinity false => (2, 0, 0)
  end.

Definition lexLt (a b : Z * Z * Z) : Prop :=
  let '(c1, e1, m1) := a in
  let '(c2, e2, m2) := b in
  c1 < c2 \/ (c1 = c2 /\ (e1 < e2 \/ (e1 = e2 /\ m1 < m2))).

(** Structural equality of floats, as a boolean. *)
Definition sameFloat (a b : float32) : bool :=
  match a, b with
  | S754_zero s1, S754_zero s2 => Bool.eqb s1 s2
  | S754_infinity s1, S754_infinity s2 => Bool.eqb s1 s2
  | S754_nan, S754_nan => true
  | S754_finite s1 m1 e1, S754_finite s2 m2 e2 =>
      Bool.eqb s1 s2 && Pos.eqb m1 m2 && Z.eqb e1 e2
  | _, _ => false
  end.

(** On the list [l], two floats neither of which is less than the other
    are the same float (no NaN, no two zeros of different sign, ...). *)
Definition distinguishes (l : list float32) : bool :=
  forallb (fun a => forallb (fun b =>
    F32.ltb a b || F32.ltb b a || sameFloat a b) l) l.

(** ** Examples used below *)

Definition exampleTimer : Metric :=
  mkMetric "t" "timer" 5 (f32 5) (map f32 [1; 2; 3; 4; 5]) 1700000000 0.

Definition singleTimer : Metric :=
  mkMetric "t" "timer" 1 (f32 5) [f32 5] 1700000000 0.

Definition exampleGauge : Metric :=
  mkMetric "g" "gauge" 1 (f32 10) [f32 10] 1700000000 0.

Definition gaugeStore : MetricStore :=
  fst (MetricStore_Set NewMetricStore "g" "gauge" (f32 10)).

Definition mixedStore : MetricStore :=
  fst (MetricStore_Set
         (fst (MetricStore_Set gaugeStore "c" "counter" (f32 3)))
         "t" "timer" (f32 7)).

Definition counterOnce : MetricStore :=
  fst (MetricStore_Set NewMetricStore "x" "counter" (f32 3)).

Definition counterTwice : MetricStore :=
  fst (MetricStore_Set counterOnce "x" "counter" (f32 4)).

Definition shuffledTimer : Metric :=
  mkMetric "t" "timer" 3 (f32 2) (map f32 [3; 1; 2]) 1700000000 0.

(** The counter metric after [Set] of 3, after a further [Set] of 4, and
    the copy of the first that [flushMetrics] sends at time [now]. *)
Definition counter3 : Metric :=
  mkMetric "x" "counter" 1 (f32 3) [f32 3] 0 0.

Definition counter7 : Metric :=
  mkMetric "x" "counter" 2 (f32 7) [f32 3; f32 4] 0 0.

(** The fields [handleRequest] cuts out of the bytes read: the metric, the
    text of the value and the trimmed type token. *)
Definition lineFields (data : string) : option (string * string * string) :=
  match FindSubmatch (bufferOf data) with
  | Some (metric, val, tok) => Some (metric, val, Trim (TrimSpace tok) NUL)
  | None => None
  end.

(** A system reached by one [Set] from the start. *)
Definition oneSetSystem : System :=
  mkSystem (fst (MetricStore_Set NewMetricStore "x" "counter" (f32 3))) [] [].

(** Whether one of the metrics received from the channel makes
    [handleGraphiteQueue] delete the key [k]. *)
Definition deletes (queue : list Metric) (k : string) : bool :=
  existsb (fun m => negb (String.eqb (metricType m) "gauge")
                    && String.eqb (key m) k) queue.

(** ** Further vocabulary *)

(** The store after the successive calls [Set(k, mt, v)] for [v] in
    [vals], as one client sending one metric does. *)
Definition SetMany (s : MetricStore) (k mt : string) (vals : list float32)
  : MetricStore :=
  foldl (fun s v => fst (MetricStore_Set s k mt v)) s vals.

(** The float [-0]. *)
Definition negZero : float32 := S754_zero true.

(** The ten-second default of the flag [flushTime], in nanoseconds. *)
Definition tenSeconds : Z := 10000000000.

Definition exampleCounter : Metric :=
  mkMetric "hits" "counter" 2 (f32 7) [f32 3; f32 4] 1700000000 0.

(** A point carrying the time stamp [t]. *)
Definition stamped (t : string) (p : Point) : Prop := pointTime p = t.

Definition emptyTimer : Metric :=
  mkMetric "t" "timer" 0 F32.zero [] 1700000000 0.

(** Whether the byte [c] occurs in [s]. *)
Fixpoint hasChar (c : ascii) (s : string) : bool :=
  match s with
  | EmptyString => false
  | String d s' => Ascii.eqb d c || hasChar c s'
  end.

Definition newline : ascii := "010"%char.
Definition colon : ascii := ":"%char.
Definition pipe : ascii := "|"%char.

(** What may follow a match: the end of the string or a newline. *)
Definition lineEnd (post : string) : Prop :=
  post = EmptyString \/ exists r, post = String newline r.

(** What may precede the leftmost match: nothing, or text ending in a
    newline. *)
Definition lineStart (pre : string) : Prop :=
  pre = EmptyString \/ exists p, pre = p +:+ String newline EmptyString.

(** The metric types [handleRequest] lets through to [Set]. *)
Definition knownType (mt : string) : Prop :=
  mt = "counter" \/ mt = "gauge" \/ mt = "timer".

Definition storeTyped (s : MetricStore) : Prop :=
  forall k m, s !! k = Some m -> knownType (metricType m).

(** The type token of a kind on the wire. *)
Definition shortName (kind : MetricKind) : string :=
  match kind with
  | Gauge => "g"
  | Counter => "c"
  | Timer => "ms"
  end.

(** [n] zero bytes, as [make] leaves them behind the bytes read. *)
Definition nuls (n : nat) : string := string_of_list_ascii (repeat NUL n).

(** A parser standing for [strconv.ParseFloat] in examples: it knows the
    text [5] and reports a syntax error with value zero for the rest. *)
Definition parseFive (s : string) : float64 * bool :=
  if String.eqb s "5" then (F64.of_int 5, false) else (S754_zero false, true).

(** The metrics a flush cycle keeps. *)
Definition isGauge (km : string * Metric) : Prop := metricType (snd km) = "gauge".

(** A slice with a NaN between 1 and 2. *)
Definition withNaN : list float32 := [f32 1; S754_nan; f32 2].

(** ** Configuration: [checkError] and [loadConfig] *)

(** A run-time panic: the one [checkError] raises, with its message, a
    failed type assertion on the value of a key of the YAML map, or an index
    past the end of a slice. *)
Inductive Panic :=
| PanicMessage (msg : string)
| PanicTypeAssertion (k : string)
| PanicIndexOutOfRange (i : nat).

(** Code that may panic. *)
Definition Run (A : Type) : Type := (Panic + A)%type.

Definition run_bind {A B} (c : Run A) (k : A -> Run B) : Run B :=
  match c with
  | inl p => inl p
  | inr a => k a
  end.

Notation "x <~ c ;; k" := (run_bind c (fun x => k))
  (at level 100, c at next level, k at level 200, only parsing).

(** [func checkError(err error, info string, panicOnError bool)]; the
    error is [Some] of [err.Error()]. *)
Definition checkError (err : option string) (info : string)
    (panicOnError : bool) : Run unit :=
  match err with
  | Some e =>
      let errString := "ERROR: " +:+ info +:+ " " +:+ e in
      if panicOnError then inl (PanicMessage errString) else inr tt
  | None => inr tt
  end.

(** A value of the map [yaml.Unmarshal] fills: [nil], a [bool], a
    [string], an [int], or a value of another type. *)
Inductive Dyn :=
| DNil
| DBool (b : bool)
| DString (s : string)
| DInt (z : Z)
| DOther.

(** The flags of the program, as [flag.Parse] left them. *)
Record Flags := mkFlags {
  flagConfig : string;
  flagDebug : bool;
  flagHost : string;
  flagPort : Z;
  flagGraphiteHost : string;
  flagGraphitePort : Z;
  flagFlushTime : Z;
  flagPercentile : Z
}.

(** The defaults given to [flag.String], [flag.Bool], [flag.Int] and
    [flag.Duration]. *)
Definition defaultFlags : Flags :=
  mkFlags "config.yml" false "localhost" 8125 "localhost" 5001 tenSeconds 90.

Definition setDebug (f : Flags) (b : bool) : Flags :=
  mkFlags (flagConfig f) b (flagHost f) (flagPort f) (flagGraphiteHost f)
          (flagGraphitePort f) (flagFlushTime f) (flagPercentile f).
Definition setHost (f : Flags) (s : string) : Flags :=
  mkFlags (flagConfig f) (flagDebug f) s (flagPort f) (flagGraphiteHost f)
          (flagGraphitePort f) (flagFlushTime f) (flagPercentile f).
Definition setPort (f : Flags) (z : Z) : Flags :=
  mkFlags (flagConfig f) (flagDebug f) (flagHost f) z (flagGraphiteHost f)
          (flagGraphitePort f) (flagFlushTime f) (flagPercentile f).
Definition setGraphiteHost (f : Flags) (s : string) : Flags :=
  mkFlags (flagConfig f) (flagDebug f) (flagHost f) (flagPort f) s
          (flagGraphitePort f) (flagFlushTime f) (flagPercentile f).
Definition setGraphitePort (f : Flags) (z : Z) : Flags :=
  mkFlags (flagConfig f) (flagDebug f) (flagHost f) (flagPort f)
          (flagGraphiteHost f) z (flagFlushTime f) (flagPercentile f).
Definition setFlushTime (f : Flags) (z : Z) : Flags :=
  mkFlags (flagConfig f) (flagDebug f) (flagHost f) (flagPort f)
          (flagGraphiteHost f) (flagGraphitePort f) z (flagPercentile f).
Definition setPercentile (f : Flags) (z : Z) : Flags :=
  mkFlags (flagConfig f) (flagDebug f) (flagHost f) (flagPort f)
          (flagGraphiteHost f) (flagGraphitePort f) (flagFlushTime f) z.

(** [m[k]] on the YAML map: [nil] for an absent key. *)
Definition lookupKey (m : gmap string Dyn) (k : string) : Dyn :=
  default DNil (m !! k).

Definition notNil (d : Dyn) : bool :=
  match d with
  | DNil => false
  | _ => true
  end.

(** The type assertions [m[k].(bool)], [m[k].(string)] and [m[k].(int)]. *)
Definition asBool (k : string) (d : Dyn) : Run bool :=
  match d with
  | DBool b => inr b
  | _ => inl (PanicTypeAssertion k)
  end.
Definition asString (k : string) (d : Dyn) : Run string :=
  match d with
  | DString s => inr s
  | _ => inl (PanicTypeAssertion k)
  end.
Definition asInt (k : string) (d : Dyn) : Run Z :=
  match d with
  | DInt z => inr z
  | _ => inl (PanicTypeAssertion k)
  end.

(** [touchedFlags[k] != 1], for the names [flag.Visit] went through: the
    flags set on the command line. *)
Definition untouched (touched : gset string) (k : string) : bool :=
  negb (bool_decide (k ∈ touched)).

Section Config.

(** [ioutil.ReadFile], [yaml.Unmarshal] into the empty map, and
    [time.ParseDuration]: each returns its result and an error. *)
Variable ReadFile : string -> string * option string.
Variable Unmarshal : string -> gmap string Dyn * option string.
Variable ParseDuration : string -> Z * option string.

(** [if m[k] != nil && touchedFlags[k] != 1 { *flag = m[k].(string) }]. *)
Definition applyString (k : string) (set : Flags -> string -> Flags)
    (touched : gset string) (m : gmap string Dyn) (f : Flags) : Run Flags :=
  if notNil (lookupKey m k) && untouched touched k then
    s <~ asString k (lookupKey m k) ;; inr (set f s)
  else inr f.

(** The same with [m[k].(int)]. *)
Definition applyInt (k : string) (set : Flags -> Z -> Flags)
    (touched : gset string) (m : gmap string Dyn) (f : Flags) : Run Flags :=
  if notNil (lookupKey m k) && untouched touched k then
    z <~ asInt k (lookupKey m k) ;; inr (set f z)
  else inr f.

(** The block for [flushTime]. *)
Definition applyFlushTime (touched : gset string) (m : gmap string Dyn)
    (f : Flags) : Run Flags :=
  if notNil (lookupKey m "flushTime") && untouched touched "flushTime" then
    s <~ asString "flushTime" (lookupKey m "flushTime") ;;
    let '(ft, err) := ParseDuration s in
    _ <~ checkError err "Could not parse flushTime" true ;;
    inr (setFlushTime f ft)
  else inr f.

(** The block for [debug], which does not look at [touchedFlags]. *)
Definition applyDebug (m : gmap string Dyn) (f : Flags) : Run Flags :=
  if notNil (lookupKey m "debug") then
    b <~ asBool "debug" (lookupKey m "debug") ;; inr (setDebug f b)
  else inr f.

(** [func loadConfig(c string) map[interface{}]interface{}], on the flags
    [f] and the set [touched] of flags given on the command line: the
    flags it leaves and the map it returns. *)
Definition loadConfig (f : Flags) (touched : gset string) (c : string)
  : Run (Flags * gmap string Dyn) :=
  let '(contents, err) := ReadFile c in
  _ <~ checkError err "Config file could not be read" true ;;
  let '(m, err) := Unmarshal contents in
  _ <~ checkError err "YAML error processing config file" true ;;
  f <~ applyDebug m f ;;
  f <~ applyFlushTime touched m f ;;
  f <~ applyString "host" setHost touched m f ;;
  f <~ applyInt "port" setPort touched m f ;;
  f <~ applyString "graphiteHost" setGraphiteHost touched m f ;;
  f <~ applyInt "graphitePort" setGraphitePort touched m f ;;
  f <~ applyInt "percentile" setPercentile touched m f ;;
  inr (f, m).

End Config.

(** What [loadConfig] leaves in a flag, from the value [old] it had: the
    old value when the flag was given on the command line or the file
    has nothing for it, and else the value of the file. *)
Definition stringSetting (touched : gset string) (m : gmap string Dyn)
    (k : string) (old new : string) : Prop :=
  if decide (k ∈ touched) then new = old
  else match lookupKey m k with
       | DNil => new = old
       | d => d = DString new
       end.

Definition intSetting (touched : gset string) (m : gmap string Dyn)
    (k : string) (old new : Z) : Prop :=
  if decide (k ∈ touched) then new = old
  else match lookupKey m k with
       | DNil => new = old
       | d => d = DInt new
       end.

Definition durationSetting (ParseDuration : string -> Z * option string)
    (touched : gset string) (m : gmap string Dyn) (old new : Z) : Prop :=
  if decide ("flushTime" ∈ touched) then new = old
  else match lookupKey m "flushTime" with
       | DNil => new = old
       | d => exists s, d = DString s /\ ParseDuration s = (new, None)
       end.

Definition debugSetting (m : gmap string Dyn) (old new : bool) : Prop :=
  match lookupKey m "debug" with
  | DNil => new = old
  | d => d = DBool new
  end.

(** The values the blocks of [loadConfig] get through without a panic. *)
Definition okString (touched : gset string) (m : gmap string Dyn)
    (k : string) : Prop :=
  k ∈ touched \/
  match lookupKey m k with DNil | DString _ => True | _ => False end.

Definition okInt (touched : gset string) (m : gmap string Dyn)
    (k : string) : Prop :=
  k ∈ touched \/
  match lookupKey m k with DNil | DInt _ => True | _ => False end.

Definition okDuration (ParseDuration : string -> Z * option string)
    (touched : gset string) (m : gmap string Dyn) : Prop :=
  "flushTime" ∈ touched \/
  match lookupKey m "flushTime" with
  | DNil => True
  | DString s => snd (ParseDuration s) = None
  | _ => False
  end.

Definition okDebug (m : gmap string Dyn) : Prop :=
  match lookupKey m "debug" with DNil | DBool _ => True | _ => False end.

(** Stand-ins for the file system, the YAML decoder and
    [time.ParseDuration] in examples: one file, holding a debug switch, a
    host, a port and a flush time. *)
Definition exampleReadFile (c : string) : string * option string :=
  if String.eqb c "config.yml" then ("yaml", None)
  else ("", Some "no such file").

Definition exampleUnmarshal (contents : string)
  : gmap string Dyn * option string :=
  (<["debug" := DBool false]>
     (<["host" := DString "stats.example"]>
        (<["port" := DInt 9125]>
           (<["flushTime" := DString "5s"]> ∅))), None).

Definition exampleParseDuration (s : string) : Z * option string :=
  if String.eqb s "5s" then (5000000000, None)
  else (0, Some "invalid duration").

(** The flags after a command line giving [-debug] and [-port 7000]. *)
Definition exampleFlags : Flags :=
  setPort (setDebug defaultFlags true) 7000.

Definition exampleTouched : gset string := {["debug"; "port"]}.

(** ** The start of [main] *)

(** What [main] has fixed when it starts its goroutines: whether the trace
    log writes to the standard output or is discarded, the address it
    listens on, and the settings. *)
Record Startup := mkStartup {
  traceOn : bool;
  listenAddr : string;
  settings : Flags;
  configMap : gmap string Dyn
}.

Section Main.

Variable ReadFile : string -> string * option string.
Variable Unmarshal : string -> gmap string Dyn * option string.
Variable ParseDuration : string -> Z * option string.
(** The error of [net.Listen] on the tcp address, if any. *)
Variable Listen : string -> option string.

(** [main] from [flag.Parse], which leaves the flags [f] and the names
    [touched] of those given on the command line, to the listener. *)
Definition mainStartup (f : Flags) (touched : gset string) : Run Startup :=
  let trace := flagDebug f in
  r <~ loadConfig ReadFile Unmarshal ParseDuration f touched (flagConfig f) ;;
  let '(f', c) := r in
  let addr := flagHost f' +:+ ":" +:+ GoInt.Itoa (flagPort f') in
  _ <~ checkError (Listen addr) "Starting Server" true ;;
  inr (mkStartup trace addr f' c).

End Main.

Definition exampleListen (addr : string) : option string :=
  if String.eqb addr "stats.example:7000" then None
  else Some "address already in use".

(** ** Splitting a string *)

(** The rest of [s] after the prefix [sep], when [s] starts with it. *)
Fixpoint stripPrefix (sep s : string) : option string :=
  match sep with
  | EmptyString => Some s
  | String a sep' =>
      match s with
      | EmptyString => None
      | String b s' => if Ascii.eqb a b then stripPrefix sep' s' else None
      end
  end.

(** The bytes before and after the first occurrence of [sep] in [s]. *)
Fixpoint cutAt (sep s : string) : option (string * string) :=
  match stripPrefix sep s with
  | Some t => Some (EmptyString, t)
  | None =>
      match s with
      | EmptyString => None
      | String c s' =>
          match cutAt sep s' with
          | Some (l, t) => Some (String c l, t)
          | None => None
          end
      end
  end.

(** The loop of [strings.Split] for a separator that is not empty: it cuts
    at the first occurrence and goes on behind it.  Each round takes at
    least one byte, so [String.length s] rounds are enough. *)
Fixpoint splitFrom (fuel : nat) (sep s : string) : list string :=
  match fuel with
  | O => [s]
  | S fuel' =>
      match cutAt sep s with
      | None => [s]
      | Some (l, t) => l :: splitFrom fuel' sep t
      end
  end.

(** [strings.Join]. *)
Fixpoint Join (l : list string) (sep : string) : string :=
  match l with
  | [] => EmptyString
  | [s] => s
  | s :: l' => s +:+ sep +:+ Join l' sep
  end.

(** [sep] occurs in [s]. *)
Definition occursIn (sep s : string) : Prop :=
  exists a b, s = a +:+ sep +:+ b.

(** [l] is what comes before the first occurrence of [sep] in [s], and [t]
    what comes behind it. *)
Definition firstCut (sep s l t : string) : Prop :=
  s = l +:+ sep +:+ t /\
  forall a b, s = a +:+ sep +:+ b -> (String.length l <= String.length a)%nat.

Section SplitString.

(** [strings.Split] with the empty separator, which cuts the string into
    its UTF-8 sequences. *)
Variable explode : string -> list string.

Definition Split (s sep : string) : list string :=
  if String.eqb sep EmptyString then explode s
  else splitFrom (String.length s) sep s.

Definition splitString (raw separator : string) : Run (string * string) :=
  let split := Split raw separator in
  match split !! 0%nat with
  | None => inl (PanicIndexOutOfRange 0)
  | Some l =>
      match split !! 1%nat with
      | None => inl (PanicIndexOutOfRange 1)
      | Some r => inr (l, r)
      end
  end.

End SplitString.

(** The empty separator on a string of ASCII bytes: one piece a byte. *)
Definition explodeBytes (s : string) : list string :=
  map (fun c => String c EmptyString) (list_ascii_of_string s).

(** * Theorems *)

(** ** Go's [int] *)

Lemma wrap_in_range z : GoInt.in_range (GoInt.wrap z).
Proof.
  unfold GoInt.in_range, GoInt.wrap, GoInt.MinInt, GoInt.MaxInt.
  pose proof (Z.mod_pos_bound (z + 2 ^ 63) (2 ^ 64)). lia.
Qed.

Lemma wrap_id z : GoInt.in_range z -> GoInt.wrap z = z.
Proof.
  unfold GoInt.in_range, GoInt.wrap, GoInt.MinInt, GoInt.MaxInt. intros Hz.
  rewrite Z.mod_small; lia.
Qed.

Lemma wrap_add_wrap a b : GoInt.wrap (GoInt.wrap a + b) = GoInt.wrap (a + b).
Proof.
  unfold GoInt.wrap.
  replace ((a + 2 ^ 63) mod 2 ^ 64 - 2 ^ 63 + b + 2 ^ 63)
    with ((a + 2 ^ 63) mod 2 ^ 64 + b) by lia.
  rewrite Zplus_mod_idemp_l. f_equal. f_equal. lia.
Qed.

Lemma wrap_length_id (n : nat) :
  Z.of_nat n <= GoInt.MaxInt -> GoInt.wrap (Z.of_nat n) = Z.of_nat n.
Proof.
  intros Hn. apply wrap_id. unfold GoInt.in_range, GoInt.MinInt in *. lia.
Qed.

(** ** The order of [float32] *)

Local Ltac close_iff :=
  split; intros ?; solve [discriminate | reflexivity | lia].

Lemma ltb_rank a b :
  notNaN a -> notNaN b -> (F32.ltb a b = true <-> lexLt (rank a) (rank b)).
Proof.
  unfold notNaN, F32.ltb, SFltb.
  destruct a as [sa|sa| |sa ma ea], b as [sb|sb| |sb mb eb];
    intros Ha Hb; try congruence; clear Ha Hb;
    try (destruct sa); try (destruct sb); cbn; try close_iff.
  all: destruct (Z.compare_spec ea eb) as [He|He|He]; try close_iff.
  all: subst; rewrite Pos.compare_cont_spec; cbn;
    destruct (Pos.compare_spec ma mb) as [Hm|Hm|Hm]; cbn; try close_iff.
  all: subst; close_iff.
Qed.

Lemma ltb_true_notNaN a b : F32.ltb a b = true -> notNaN a /\ notNaN b.
Proof.
  intros H. split; intros ->; [destruct b|destruct a]; discriminate H.
Qed.

Lemma ltb_irrefl a : F32.ltb a a = false.
Proof.
  destruct (F32.ltb a a) eqn:E; [|reflexivity].
  destruct (ltb_true_notNaN _ _ E) as [Na _].
  apply ltb_rank in E; [|assumption..].
  destruct (rank a) as [[c e] m]. cbn in E. lia.
Qed.

Lemma ltb_asym a b : F32.ltb a b = true -> F32.ltb b a = false.
Proof.
  intros Hab. destruct (ltb_true_notNaN _ _ Hab) as [Na Nb].
  destruct (F32.ltb b a) eqn:E; [|reflexivity].
  apply ltb_rank in E; [|assumption..].
  apply ltb_rank in Hab; [|assumption..].
  destruct (rank a) as [[c e] m], (rank b) as [[c' e'] m'].
  cbn in *. lia.
Qed.

(** [notAbove] is transitive through a float that is not NaN. *)
Lemma notAbove_trans a b c :
  notNaN b -> notAbove a b -> notAbove b c -> notAbove a c.
Proof.
  unfold notAbove. intros Nb Hab Hbc.
  destruct (F32.ltb c a) eqn:E; [|reflexivity].
  destruct (ltb_true_notNaN _ _ E) as [Nc Na].
  apply ltb_rank in E; [|assumption..].
  assert (Hab' : ~ lexLt (rank b) (rank a))
    by (intros H; apply ltb_rank in H; [congruence|assumption..]).
  assert (Hbc' : ~ lexLt (rank c) (rank b))
    by (intros H; apply ltb_rank in H; [congruence|assumption..]).
  destruct (rank a) as [[ca ea] ma], (rank b) as [[cb eb] mb],
    (rank c) as [[cc ec] mc].
  cbn in *. lia.
Qed.

Lemma notAbove_refl a : notAbove a a.
Proof. apply ltb_irrefl. Qed.

(** ** [Set] *)

Lemma setMetric_new k mt val :
  setMetric None k mt val = mkMetric k mt 1 val [val] 0 0.
Proof. reflexivity. Qed.

Lemma updateLastValue_kind kind old val :
  updateLastValue (kindName kind) old val =
  match kind with
  | Gauge | Timer => val
  | Counter => F32.add old val
  end.
Proof. destruct kind; reflexivity. Qed.

Lemma Set_lookup s k mt val :
  fst (MetricStore_Set s k mt val) !! k = Some (setMetric (s !! k) k mt val).
Proof. cbn. apply lookup_insert_eq. Qed.

Lemma Set_lookup_other s k mt val k' :
  k' <> k -> fst (MetricStore_Set s k mt val) !! k' = s !! k'.
Proof. intros Hne. cbn. apply lookup_insert_ne. congruence. Qed.

Lemma setMetric_hitsMatch found k mt val :
  (forall m, found = Some m -> hitsMatch m) ->
  hitsMatch (setMetric found k mt val).
Proof.
  unfold hitsMatch. intros Hfound. destruct found as [m|]; cbn.
  - rewrite (Hfound m eq_refl), length_app. cbn. unfold GoInt.add.
    rewrite wrap_add_wrap. f_equal. lia.
  - reflexivity.
Qed.

Lemma setMetric_key found k mt val :
  (forall m, found = Some m -> key m = k) ->
  key (setMetric found k mt val) = k.
Proof. intros H. destruct found as [m|]; cbn; [apply H|]; reflexivity. Qed.

Lemma Set_storeInv s k mt val :
  storeInv s -> storeInv (fst (MetricStore_Set s k mt val)).
Proof.
  intros Hs k' m'. destruct (decide (k' = k)) as [->|Hne].
  - rewrite Set_lookup. intros [= <-]. apply setMetric_hitsMatch.
    intros m Hm. exact (Hs _ _ Hm).
  - rewrite Set_lookup_other by assumption. apply Hs.
Qed.

Lemma Set_storeKeyed s k mt val :
  storeKeyed s -> storeKeyed (fst (MetricStore_Set s k mt val)).
Proof.
  intros Hs k' m'. destruct (decide (k' = k)) as [->|Hne].
  - rewrite Set_lookup. intros [= <-]. apply setMetric_key.
    intros m Hm. exact (Hs _ _ Hm).
  - rewrite Set_lookup_other by assumption. apply Hs.
Qed.

(** C1. [Set] on an unseen key files a metric with one hit, the value as
    [lastValue], the value as only sample and the kind given; on a key
    already present it adds one to the hits, appends the value to the
    samples and sets [lastValue] by the kind given: the value for a gauge
    or a timer, the old value plus the value for a counter.  Other keys
    keep their metric.  Counter 3 then counter 4 on one key leaves
    [lastValue] 7 and two hits. *)
Theorem Set_postcondition (s : MetricStore) (k : string) (kind : MetricKind)
    (val : float32) :
  let s' := fst (MetricStore_Set s k (kindName kind) val) in
  (forall k', k' <> k -> s' !! k' = s !! k') /\
  (s !! k = None ->
   s' !! k = Some (mkMetric k (kindName kind) 1 val [val] 0 0)) /\
  (forall m, s !! k = Some m ->
   exists m', s' !! k = Some m' /\
     totalHits m' = GoInt.add (totalHits m) 1 /\
     (GoInt.in_range (totalHits m + 1) -> totalHits m' = totalHits m + 1) /\
     allValues m' = allValues m ++ [val] /\
     lastValue m' = match kind with
                    | Gauge | Timer => val
                    | Counter => F32.add (lastValue m) val
                    end /\
     metricType m' = metricType m /\ key m' = key m) /\
  (exists x, counterTwice !! "x" = Some x /\
     lastValue x = f32 7 /\ totalHits x = 2).
Proof.
  intros s'. subst s'. repeat split.
  - intros k' Hne. apply Set_lookup_other, Hne.
  - intros Hnone. rewrite Set_lookup, Hnone. reflexivity.
  - intros m Hm. rewrite Set_lookup, Hm. eexists. split; [reflexivity|].
    cbn. repeat split.
    + intros Hr. apply wrap_id, Hr.
    + apply updateLastValue_kind.
  - eexists. split; [vm_compute; reflexivity|]. split; reflexivity.
Qed.

Lemma Set_postcondition_witness :
  exists m', counterTwice !! "x" = Some m' /\
    totalHits m' = 2 /\ allValues m' = [f32 3; f32 4] /\
    lastValue m' = F32.add (f32 3) (f32 4).
Proof.
  destruct (Set_postcondition counterOnce "x" Counter (f32 4))
    as (_ & _ & Hold & _).
  destruct (Hold (mkMetric "x" "counter" 1 (f32 3) [f32 3] 0 0) eq_refl)
    as (m' & Hm' & _ & Hhits & Hall & Hlast & _).
  exists m'. split; [exact Hm'|]. split; [|split].
  - apply Hhits. vm_compute. split; discriminate.
  - exact Hall.
  - exact Hlast.
Defined.

Lemma handleRequest_log_store PF reads :
  forall s1 s2 log,
    sessionLog (handleRequest PF reads s1 log)
    = sessionLog (handleRequest PF reads s2 log) /\
    sessionEnd (handleRequest PF reads s1 log)
    = sessionEnd (handleRequest PF reads s2 log).
Proof.
  induction reads as [|r rest IH]; intros s1 s2 log; [split; reflexivity|].
  destruct r as [data|]; [|split; reflexivity]. cbn [handleRequest].
  destruct (FindSubmatch (bufferOf data)) as [[[metric val] tmp]|];
    [|split; reflexivity].
  destruct (shortTypeToLong (Trim (TrimSpace tmp) NUL)) as [mt [e|]].
  - apply IH.
  - destruct (PF val) as [value err]. apply IH.
Qed.

(** C10. [Set] on a key already present, with a kind other than the one
    stored, goes through like any other [Set]: it returns the same [false],
    adds one to the hits, appends the value and sets [lastValue] by the
    kind given (replace for gauge and timer, add for counter), and the
    stored kind stays.  What [handleRequest] logs, and how it ends, does
    not depend on the store, so the mismatch is not logged either. *)
Theorem Set_kind_mismatch (s : MetricStore) (k : string) (m : Metric)
    (kind : MetricKind) (val : float32) :
  s !! k = Some m ->
  metricType m <> kindName kind ->
  (exists m',
     MetricStore_Set s k (kindName kind) val = (<[k := m']> s, false) /\
     totalHits m' = GoInt.add (totalHits m) 1 /\
     allValues m' = allValues m ++ [val] /\
     lastValue m' = match kind with
                    | Gauge | Timer => val
                    | Counter => F32.add (lastValue m) val
                    end /\
     metricType m' = metricType m /\
     metricType m' <> kindName kind) /\
  (forall PF reads s1 s2 log,
     sessionLog (handleRequest PF reads s1 log)
     = sessionLog (handleRequest PF reads s2 log) /\
     sessionEnd (handleRequest PF reads s1 log)
     = sessionEnd (handleRequest PF reads s2 log)).
Proof.
  intros Hm Hkind. split.
  - eexists. unfold MetricStore_Set. rewrite Hm. split; [reflexivity|].
    cbn. repeat split; [apply updateLastValue_kind|exact Hkind].
  - intros PF reads s1 s2 log. apply handleRequest_log_store.
Qed.

Lemma Set_kind_mismatch_witness :
  exists m',
    MetricStore_Set gaugeStore "g" "counter" (f32 2)
    = (<["g" := m']> gaugeStore, false) /\
    totalHits m' = 2 /\ lastValue m' = f32 12 /\ metricType m' = "gauge".
Proof.
  destruct (Set_kind_mismatch gaugeStore "g"
              (mkMetric "g" "gauge" 1 (f32 10) [f32 10] 0 0) Counter (f32 2)
              eq_refl ltac:(discriminate))
    as [(m' & Hset & Hhits & _ & Hlast & Hty & _) _].
  exists m'. split; [exact Hset|]. split; [|split].
  - rewrite Hhits. reflexivity.
  - rewrite Hlast. reflexivity.
  - rewrite Hty. reflexivity.
Defined.

(** ** The flush cycle *)

Lemma queue_store_lookup queue : forall s k,
  foldl handleGraphiteQueue_store s queue !! k
  = if deletes queue k then None else s !! k.
Proof.
  induction queue as [|m queue IH]; intros s k; [reflexivity|].
  cbn [foldl deletes existsb]. rewrite IH. fold (deletes queue k).
  unfold handleGraphiteQueue_store.
  destruct (deletes queue k); [now rewrite orb_true_r|].
  rewrite orb_false_r.
  destruct (String.eqb (metricType m) "gauge"); cbn; [reflexivity|].
  destruct (String.eqb_spec (key m) k) as [->|Hne].
  - apply lookup_delete_eq.
  - apply lookup_delete_ne, Hne.
Qed.

Lemma deletes_flushQueue now order k :
  deletes (flushQueue now order) k = true <->
  exists k' m, (k', m) ∈ order /\ metricType m <> "gauge" /\ key m = k.
Proof.
  unfold deletes, flushQueue. rewrite existsb_exists. split.
  - intros (c & Hin & Hc). apply list_elem_of_In in Hin.
    apply elem_of_lookup_imap in Hin as (i & [k' m] & -> & Hi).
    cbn in Hc. apply andb_true_iff in Hc as [Hty Hkey].
    exists k', m. split; [eapply list_elem_of_lookup_2, Hi|].
    split.
    + intros Heq. rewrite Heq in Hty. discriminate Hty.
    + apply String.eqb_eq, Hkey.
  - intros (k' & m & Hin & Hty & Hkey).
    apply list_elem_of_lookup_1 in Hin as [i Hi].
    exists (flushCopy (now i) m). split.
    + apply list_elem_of_In, elem_of_lookup_imap.
      exists i, (k', m). split; [reflexivity|exact Hi].
    + cbn. apply andb_true_iff. split.
      * destruct (String.eqb_spec (metricType m) "gauge"); [contradiction|].
        reflexivity.
      * apply String.eqb_eq, Hkey.
Qed.

Lemma queue_storeInv queue : forall s,
  storeInv s -> storeInv (foldl handleGraphiteQueue_store s queue).
Proof.
  intros s Hs k m. rewrite queue_store_lookup.
  destruct (deletes queue k); [discriminate|]. apply Hs.
Qed.

Lemma queue_storeKeyed queue : forall s,
  storeKeyed s -> storeKeyed (foldl handleGraphiteQueue_store s queue).
Proof.
  intros s Hs k m. rewrite queue_store_lookup.
  destruct (deletes queue k); [discriminate|]. apply Hs.
Qed.

Lemma iterationOrder_elem s order k m :
  iterationOrder s order -> ((k, m) ∈ order <-> s !! k = Some m).
Proof.
  unfold iterationOrder. intros Hperm. rewrite Hperm.
  apply elem_of_map_to_list.
Qed.

(** C3 (amended). After one flush cycle on a store whose metrics are filed
    under their own key, a key whose metric is not a gauge (a counter or a
    timer) is absent, and a key whose metric is a gauge still holds the very
    same metric: [lastValue], the hits and the samples are as they were. *)
Theorem flushCycle_retention (now : nat -> Z) (order : list (string * Metric))
    (s : MetricStore) (k : string) (m : Metric) :
  storeKeyed s ->
  iterationOrder s order ->
  s !! k = Some m ->
  (metricType m = "gauge" -> flushCycle now order s !! k = Some m) /\
  (metricType m <> "gauge" -> flushCycle now order s !! k = None) /\
  (metricType m = kindName Counter \/ metricType m = kindName Timer ->
   flushCycle now order s !! k = None).
Proof.
  intros Hkeyed Horder Hm. unfold flushCycle. rewrite queue_store_lookup.
  assert (Hgone : metricType m <> "gauge" ->
                  deletes (flushQueue now order) k = true).
  { intros Hty. apply deletes_flushQueue. exists k, m.
    split; [apply (iterationOrder_elem s), Hm; exact Horder|].
    split; [exact Hty|]. apply (Hkeyed _ _ Hm). }
  assert (Hkept : metricType m = "gauge" ->
                  deletes (flushQueue now order) k = false).
  { intros Hty. destruct (deletes (flushQueue now order) k) eqn:E; [|reflexivity].
    apply deletes_flushQueue in E as (k' & m' & Hin & Hty' & Hkey).
    apply (iterationOrder_elem s) in Hin; [|exact Horder].
    pose proof (Hkeyed _ _ Hin) as Hk'. rewrite Hkey in Hk'. subst k'.
    congruence. }
  split; [|split].
  - intros Hty. rewrite (Hkept Hty). exact Hm.
  - intros Hty. rewrite (Hgone Hty). reflexivity.
  - intros Hty. rewrite Hgone; [reflexivity|].
    destruct Hty as [-> | ->]; discriminate.
Qed.

Lemma storeKeyed_empty : storeKeyed NewMetricStore.
Proof. intros k m. unfold NewMetricStore. rewrite lookup_empty. discriminate. Qed.

Lemma storeInv_empty : storeInv NewMetricStore.
Proof. intros k m. unfold NewMetricStore. rewrite lookup_empty. discriminate. Qed.

Lemma flushCycle_retention_witness :
  let after := flushCycle (fun _ => 1700000000) (map_to_list mixedStore)
                          mixedStore in
  after !! "g" = Some (mkMetric "g" "gauge" 1 (f32 10) [f32 10] 0 0) /\
  after !! "c" = None /\ after !! "t" = None.
Proof.
  assert (Hkeyed : storeKeyed mixedStore)
    by (repeat apply Set_storeKeyed; apply storeKeyed_empty).
  assert (Horder : iterationOrder mixedStore (map_to_list mixedStore))
    by (unfold iterationOrder; reflexivity).
  split; [|split].
  - apply (flushCycle_retention _ _ mixedStore "g" _ Hkeyed Horder);
      reflexivity.
  - apply (flushCycle_retention _ _ mixedStore "c"
             (mkMetric "c" "counter" 1 (f32 3) [f32 3] 0 0) Hkeyed Horder);
      [reflexivity|left; reflexivity].
  - apply (flushCycle_retention _ _ mixedStore "t"
             (mkMetric "t" "timer" 1 (f32 7) [f32 7] 0 0) Hkeyed Horder);
      [reflexivity|right; reflexivity].
Defined.

(** C3 as stated fails: after a flush cycle the gauge written once still
    has one hit and its sample; the hits are not reset and the samples are
    not cleared. *)
Lemma flush_gauge_not_reset :
  ~ (exists m',
       flushCycle (fun _ => 1700000000) (map_to_list gaugeStore) gaugeStore
         !! "g" = Some m' /\
       lastValue m' = f32 10 /\ totalHits m' = 0 /\ allValues m' = []).
Proof.
  intros (m' & Hm' & _ & Hhits & _).
  vm_compute in Hm'. injection Hm' as <-. discriminate Hhits.
Qed.

(** ** The invariant on hits and samples *)

Lemma hitsMatch_flushCopy now m : hitsMatch m -> hitsMatch (flushCopy now m).
Proof. exact id. Qed.

Lemma handleGraphiteQueue_storeInv s m :
  storeInv s -> storeInv (handleGraphiteQueue_store s m).
Proof. intros Hs. apply (queue_storeInv [m]), Hs. Qed.

Lemma reachable_inv sort P ft sys :
  reachable sort P ft sys ->
  storeInv (sysStore sys) /\ Forall hitsMatch (graphitePipeline sys).
Proof.
  induction 1 as [|sys sys' Hreach [IHs IHq] Hstep].
  - split; [apply storeInv_empty|constructor].
  - destruct Hstep as [sys k mt val|sys k metric now Hk Hcap|sys metric rest Hq];
      cbn.
    + split; [apply Set_storeInv, IHs|exact IHq].
    + split; [exact IHs|]. apply Forall_app. split; [exact IHq|].
      constructor; [|constructor]. apply hitsMatch_flushCopy, (IHs _ _ Hk).
    + rewrite Hq in IHq. inversion IHq; subst.
      split; [apply handleGraphiteQueue_storeInv, IHs|assumption].
Qed.

Lemma reachable_storeKeyed sort P ft sys :
  reachable sort P ft sys -> storeKeyed (sysStore sys).
Proof.
  induction 1 as [|sys sys' Hreach IH Hstep]; [apply storeKeyed_empty|].
  destruct Hstep as [sys k mt val|sys k metric now Hk Hcap|sys metric rest Hq];
    cbn.
  - apply Set_storeKeyed, IH.
  - exact IH.
  - apply (queue_storeKeyed [metric]), IH.
Qed.

(** C7. In every state the goroutines can reach, every metric of the store
    (and every copy waiting in the channel) has as many hits as samples:
    the hits are the length of the samples as an [int], hence equal to it
    for every length a slice can have.  The first [Set] of a key
    establishes this, every [Set] keeps it, and so does the flush cycle. *)
Theorem hitCount_invariant :
  (forall sort P ft sys, reachable sort P ft sys ->
     (forall k m, sysStore sys !! k = Some m ->
        hitsMatch m /\
        (Z.of_nat (length (allValues m)) <= GoInt.MaxInt ->
         totalHits m = Z.of_nat (length (allValues m)))) /\
     Forall hitsMatch (graphitePipeline sys)) /\
  (forall k mt val, hitsMatch (setMetric None k mt val)) /\
  (forall s k mt val,
     storeInv s -> storeInv (fst (MetricStore_Set s k mt val))) /\
  (forall now order s, storeInv s -> storeInv (flushCycle now order s)).
Proof.
  split; [|split; [|split]].
  - intros sort P ft sys Hreach.
    destruct (reachable_inv _ _ _ _ Hreach) as [Hs Hq].
    split; [|exact Hq]. intros k m Hm. pose proof (Hs _ _ Hm) as Hinv.
    split; [exact Hinv|]. intros Hlen. unfold hitsMatch in Hinv.
    rewrite Hinv. apply wrap_length_id, Hlen.
  - intros k mt val. apply setMetric_hitsMatch. discriminate.
  - intros s k mt val. apply Set_storeInv.
  - intros now order s. apply queue_storeInv.
Qed.

Lemma hitCount_invariant_witness :
  totalHits (mkMetric "x" "counter" 1 (f32 3) [f32 3] 0 0)
  = Z.of_nat (length [f32 3]).
Proof.
  destruct hitCount_invariant as [Hreach _].
  assert (Hr : reachable insertionSort 90 10000000000 oneSetSystem).
  { eapply reachable_step; [apply reachable_init|].
    apply (step_Set _ _ _ initialSystem "x" "counter" (f32 3)). }
  destruct (Hreach _ _ _ _ Hr) as [Hstore _].
  destruct (Hstore "x" (mkMetric "x" "counter" 1 (f32 3) [f32 3] 0 0) eq_refl)
    as [_ Heq].
  apply Heq. vm_compute. discriminate.
Defined.

(** ** The statistics engine *)

Lemma emit_bind_ret {A B} (a : A) (k : A -> Emit B) :
  emit_bind (emit_ret a) k = k a.
Proof. unfold emit_bind, emit_ret. destruct (k a). reflexivity. Qed.

Lemma emit_bind_send {B} key v t (k : unit -> Emit B) out r :
  k tt = (out, r) ->
  emit_bind (sendSingleMetricToGraphite key v t) k
  = (mkPoint key v t :: out, r).
Proof.
  intros Hk. unfold emit_bind, sendSingleMetricToGraphite. rewrite Hk.
  reflexivity.
Qed.

Lemma at32_lookup l (i : nat) x :
  l !! i = Some x -> at32 l (Z.of_nat i) = Some x.
Proof.
  intros Hx. unfold at32. pose proof (lookup_lt_Some _ _ _ Hx) as Hlt.
  rewrite Nat2Z.id, Hx.
  destruct (Z.leb_spec 0 (Z.of_nat i)); [|lia].
  destruct (Z.ltb_spec (Z.of_nat i) (Z.of_nat (length l))); [|lia].
  reflexivity.
Qed.

Lemma at32_Some l i x :
  at32 l i = Some x -> 0 <= i /\ l !! Z.to_nat i = Some x.
Proof.
  unfold at32. destruct (Z.leb_spec 0 i); [|discriminate].
  destruct (Z.ltb_spec i (Z.of_nat (length l))); [|discriminate].
  intros Hx. split; assumption.
Qed.

Lemma index_lookup l (i : nat) x :
  l !! i = Some x -> index l (Z.of_nat i) = emit_ret x.
Proof.
  intros Hx. unfold index. rewrite (at32_lookup _ _ _ Hx). reflexivity.
Qed.

Lemma index_head x l : index (x :: l) 0 = emit_ret x.
Proof. exact (index_lookup (x :: l) 0%nat x eq_refl). Qed.

Lemma index_negative l i : i < 0 -> index l i = panic.
Proof.
  intros Hi. unfold index, at32. destruct (Z.leb_spec 0 i); [lia|].
  reflexivity.
Qed.

Lemma length_cumFrom acc l : length (cumFrom acc l) = length l.
Proof.
  revert acc. induction l as [|x l IH]; intros acc; cbn; [|rewrite IH];
    reflexivity.
Qed.

Lemma length_cumSums l : length (cumSums l) = length l.
Proof. destruct l; cbn; [|rewrite length_cumFrom]; reflexivity. Qed.

(** The loop of [sendToGraphite] computes the sum and the cumulative sums
    of the specification, and never indexes out of range. *)
Lemma cumulate_succ rest : forall i sum cum c,
  length cum = S i -> cum !! i = Some c ->
  cumulate (S i) rest sum cum
  = emit_ret (fold_left F32.add rest sum, cum ++ cumFrom c rest).
Proof.
  induction rest as [|v rest IH]; intros i sum cum c Hlen Hlast.
  - cbn. rewrite app_nil_r. reflexivity.
  - cbn [cumulate].
    replace (Z.of_nat (S i) - 1) with (Z.of_nat i) by lia.
    rewrite (index_lookup _ _ _ Hlast), emit_bind_ret.
    rewrite (IH (S i) _ _ (F32.add c v)).
    + cbn [fold_left cumFrom]. rewrite <- app_assoc. reflexivity.
    + rewrite length_app, Hlen. cbn. lia.
    + rewrite lookup_app_r by lia. rewrite Hlen, Nat.sub_diag. reflexivity.
Qed.

Lemma cumulate_spec x l :
  cumulate 0 (x :: l) F32.zero [x]
  = emit_ret (sumOf (x :: l), cumSums (x :: l)).
Proof.
  cbn [cumulate]. rewrite (cumulate_succ l 0 _ [x] x); reflexivity.
Qed.

(** Sorted slices without NaN. *)
Lemma Sorted_notAbove_strongly l :
  Forall notNaN l -> Sorted notAbove l -> StronglySorted notAbove l.
Proof.
  intros Hnan Hsorted. induction Hsorted as [|a l Hl IH Hhd]; [constructor|].
  inversion Hnan as [|? ? Na Nl]; subst.
  pose proof (IH Nl) as Hstrong. constructor; [exact Hstrong|].
  destruct Hhd as [|b l Hab]; [constructor|].
  inversion Hstrong as [|? ? _ Hall]; subst.
  inversion Nl as [|? ? Nb _]; subst.
  constructor; [exact Hab|].
  eapply Forall_impl; [exact Hall|]. intros c Hbc.
  exact (notAbove_trans a b c Nb Hab Hbc).
Qed.

Lemma StronglySorted_head_least a l x :
  StronglySorted notAbove (a :: l) -> x ∈ a :: l -> notAbove a x.
Proof.
  intros Hs Hx. inversion Hs as [|? ? _ Hall]; subst.
  apply elem_of_cons in Hx as [->|Hx]; [apply notAbove_refl|].
  rewrite Forall_forall in Hall. apply Hall, Hx.
Qed.

Lemma StronglySorted_last_greatest l z x :
  StronglySorted notAbove l -> last l = Some z -> x ∈ l -> notAbove x z.
Proof.
  induction 1 as [|a l Hl IH Hall]; intros Hlast Hx; [discriminate|].
  destruct l as [|b l].
  - cbn in Hlast. injection Hlast as <-.
    apply list_elem_of_singleton in Hx as ->. apply notAbove_refl.
  - change (last (a :: b :: l)) with (last (b :: l)) in Hlast.
    apply elem_of_cons in Hx as [->|Hx]; [|apply IH; assumption].
    rewrite Forall_forall in Hall. apply Hall.
    apply last_Some_elem_of, Hlast.
Qed.

(** A strongly sorted slice is the only sorted arrangement of its elements
    when no two of them are equal for [<] without being the same float. *)
Lemma sorted_perm_unique l1 : forall l2,
  (forall a b, a ∈ l1 -> b ∈ l1 -> notAbove a b -> notAbove b a -> a = b) ->
  StronglySorted notAbove l1 -> StronglySorted notAbove l2 ->
  l1 ≡ₚ l2 -> l1 = l2.
Proof.
  induction l1 as [|a t1 IH]; intros l2 Hanti Hs1 Hs2 Hperm.
  - apply Permutation_nil_l, Hperm.
  - destruct l2 as [|b t2].
    { symmetry in Hperm. apply Permutation_nil_cons in Hperm as []. }
    assert (Ha2 : a ∈ b :: t2) by (rewrite <- Hperm; left).
    assert (Hb1 : b ∈ a :: t1) by (rewrite Hperm; left).
    assert (Hab : a = b).
    { apply Hanti; [left|exact Hb1| |].
      - eapply StronglySorted_head_least; [exact Hs1|exact Hb1].
      - eapply StronglySorted_head_least; [exact Hs2|exact Ha2]. }
    subst b. f_equal. apply IH.
    + intros x y Hx Hy. apply Hanti; right; assumption.
    + inversion Hs1; assumption.
    + inversion Hs2; assumption.
    + eapply Permutation_cons_inv, Hperm.
Qed.

Lemma distinguishes_spec l :
  distinguishes l = true ->
  forall a b, a ∈ l -> b ∈ l -> notAbove a b -> notAbove b a -> a = b.
Proof.
  unfold distinguishes, notAbove. intros Hd a b Ha Hb Hab Hba.
  rewrite forallb_forall in Hd. apply list_elem_of_In in Ha, Hb.
  specialize (Hd a Ha). rewrite forallb_forall in Hd. specialize (Hd b Hb).
  rewrite Hab, Hba in Hd. cbn in Hd.
  destruct a as [sa|sa| |sa ma ea], b as [sb|sb| |sb mb eb];
    cbn in Hd; try discriminate; try reflexivity.
  - apply Bool.eqb_prop in Hd. congruence.
  - apply Bool.eqb_prop in Hd. congruence.
  - apply andb_true_iff in Hd as [Hd He].
    apply andb_true_iff in Hd as [Hs Hm].
    apply Bool.eqb_prop in Hs. apply Pos.eqb_eq in Hm. apply Z.eqb_eq in He.
    congruence.
Qed.

(** [sort.IsSorted] on a [ByFloat32] says that no element is less than
    the one before it. *)
Lemma isSortedFrom_adjacent (l : list float32) (i : nat) :
  isSortedFrom (T := ByFloat32) l i = true ->
  forall j x y, (j < i)%nat ->
    l !! j = Some x -> l !! S j = Some y -> notAbove x y.
Proof.
  induction i as [|i IH]; intros Hs j x y Hj Hx Hy; [lia|].
  cbn [isSortedFrom] in Hs. cbn [Less ByFloat32_Interface] in Hs.
  replace (Z.of_nat (S i) - 1) with (Z.of_nat i) in Hs by lia.
  destruct (at32 l (Z.of_nat (S i))) as [b|] eqn:Eb; [|discriminate].
  destruct (at32 l (Z.of_nat i)) as [a|] eqn:Ea; [|discriminate].
  destruct (F32.ltb b a) eqn:Hba; [discriminate|].
  destruct (decide (j = i)) as [->|Hne].
  - apply at32_Some in Ea as [_ Ea]. apply at32_Some in Eb as [_ Eb].
    rewrite Nat2Z.id in Ea, Eb. unfold notAbove. congruence.
  - apply (IH Hs j); [lia|assumption..].
Qed.

Lemma adjacent_Sorted (l : list float32) :
  (forall j x y, l !! j = Some x -> l !! S j = Some y -> notAbove x y) ->
  Sorted notAbove l.
Proof.
  induction l as [|a l IH]; intros Hadj; [constructor|].
  constructor.
  - apply IH. intros j x y Hx Hy. exact (Hadj (S j) x y Hx Hy).
  - destruct l as [|b l]; constructor. exact (Hadj 0%nat a b eq_refl eq_refl).
Qed.

Lemma IsSorted_Sorted (l : list float32) :
  IsSorted (T := ByFloat32) l = true -> Sorted notAbove l.
Proof.
  unfold IsSorted. cbn [Len ByFloat32_Interface]. intros Hs.
  apply adjacent_Sorted. intros j x y Hx Hy.
  apply (isSortedFrom_adjacent l _ Hs j x y); [|assumption..].
  pose proof (lookup_lt_Some _ _ _ Hy). lia.
Qed.

Lemma Sorted_isSortedFrom (l : list float32) (i : nat) :
  Sorted notAbove l -> (i < length l)%nat ->
  isSortedFrom (T := ByFloat32) l i = true.
Proof.
  intros Hs. induction i as [|i IH]; intros Hi; [reflexivity|].
  cbn [isSortedFrom]. cbn [Less ByFloat32_Interface].
  replace (Z.of_nat (S i) - 1) with (Z.of_nat i) by lia.
  destruct (lookup_lt_is_Some_2 l (S i) Hi) as [b Hb].
  destruct (lookup_lt_is_Some_2 l i ltac:(lia)) as [a Ha].
  rewrite (at32_lookup _ _ _ Hb), (at32_lookup _ _ _ Ha).
  assert (Hab : notAbove a b).
  { clear IH. revert i a b Hi Ha Hb.
    induction Hs as [|c l Hl IHl Hhd]; intros i a b Hi Ha Hb;
      [discriminate|].
    destruct i as [|i].
    - cbn in Ha, Hb. injection Ha as ->.
      destruct Hhd as [|d l Hcd]; [discriminate|].
      cbn in Hb. injection Hb as ->. exact Hcd.
    - apply (IHl i a b); [cbn in Hi; lia|assumption..]. }
  unfold notAbove in Hab. rewrite Hab. apply IH. lia.
Qed.

Lemma Sorted_IsSorted (l : list float32) :
  Sorted notAbove l -> IsSorted (T := ByFloat32) l = true.
Proof.
  intros Hs. unfold IsSorted. cbn [Len ByFloat32_Interface].
  destruct l as [|a l]; [reflexivity|].
  apply Sorted_isSortedFrom; [exact Hs|]. cbn [length]. lia.
Qed.

Lemma insert_head_perm (a : list float32) j x y :
  a !! j = Some y -> y :: <[j := x]> a ≡ₚ x :: a.
Proof.
  revert j. induction a as [|c a IH]; intros j Hy; [discriminate|].
  destruct j as [|j]; cbn in *.
  - injection Hy as ->. apply Permutation_swap.
  - rewrite Permutation_swap, (IH j Hy). apply Permutation_swap.
Qed.

(** [Swap] only rearranges the slice. *)
Lemma Swap_perm (a a' : list float32) i j :
  Swap (T := ByFloat32) a i j = Some a' -> a' ≡ₚ a.
Proof.
  cbn [Swap ByFloat32_Interface].
  destruct (at32 a i) as [x|] eqn:Ex; [|discriminate].
  destruct (at32 a j) as [y|] eqn:Ey; [|discriminate].
  intros [= <-].
  apply at32_Some in Ex as [_ Ex]. apply at32_Some in Ey as [_ Ey].
  revert Ex Ey. generalize (Z.to_nat i), (Z.to_nat j). clear i j.
  intros i j Hx Hy.
  destruct (decide (i = j)) as [->|Hne].
  - assert (x = y) by congruence. subst y.
    rewrite (list_insert_id a j x Hx), (list_insert_id a j x Hx).
    reflexivity.
  - revert i j x y Hne Hx Hy.
    induction a as [|c a IH]; intros i j x y Hne Hx Hy; [discriminate|].
    destruct i as [|i], j as [|j]; try congruence; cbn in *.
    + injection Hx as ->. apply insert_head_perm, Hy.
    + injection Hy as ->. apply insert_head_perm, Hx.
    + rewrite (IH i j x y); [reflexivity|congruence|assumption..].
Qed.

Lemma insertFloat32_perm x l : insertFloat32 x l ≡ₚ x :: l.
Proof.
  induction l as [|y l IH]; cbn; [reflexivity|].
  destruct (F32.ltb y x); [|reflexivity].
  rewrite IH. apply Permutation_swap.
Qed.

Lemma insertionSort_perm l : insertionSort l ≡ₚ l.
Proof.
  induction l as [|x l IH]; cbn; [reflexivity|].
  change (foldr insertFloat32 [] l) with (insertionSort l).
  rewrite insertFloat32_perm, IH. reflexivity.
Qed.

Lemma insertFloat32_sorted x l :
  Sorted notAbove l -> Sorted notAbove (insertFloat32 x l).
Proof.
  induction 1 as [|y l Hl IH Hhd]; cbn; [repeat constructor|].
  destruct (F32.ltb y x) eqn:Hyx.
  - constructor; [exact IH|].
    destruct Hhd as [|z l Hyz]; cbn.
    + constructor. apply ltb_asym, Hyx.
    + destruct (F32.ltb z x); constructor;
        [exact Hyz|apply ltb_asym, Hyx].
  - constructor; [constructor; assumption|]. constructor. exact Hyx.
Qed.

Lemma insertionSort_sorted l : Sorted notAbove (insertionSort l).
Proof.
  induction l as [|x l IH]; cbn; [constructor|].
  apply insertFloat32_sorted, IH.
Qed.

Lemma insertionSort_IsSorted l :
  IsSorted (T := ByFloat32) (insertionSort l) = true.
Proof. apply Sorted_IsSorted, insertionSort_sorted. Qed.

Lemma sendToGraphite_sort_ext sort1 sort2 P ft m :
  sort1 (allValues m) = sort2 (allValues m) ->
  sendToGraphite sort1 P ft m = sendToGraphite sort2 P ft m.
Proof.
  intros Heq. unfold sendToGraphite, sendTimer. rewrite Heq. reflexivity.
Qed.

Section TimerStatistics.

Variable sortFloat32s : list float32 -> list float32.
Variables percentile flushTimeFlag : Z.

(** The contract of [sort.Sort]: the slice is rearranged, and no element
    is less than the one before it when [Less] is an order on the slice,
    that is when the slice holds no NaN. *)
Hypothesis sort_perm : forall l, sortFloat32s l ≡ₚ l.
Hypothesis sort_sorted :
  forall l, Forall notNaN l -> IsSorted (T := ByFloat32) (sortFloat32s l) = true.

Lemma sendTimer_run m t x l n upper cumAt :
  sortFloat32s (allValues m) = x :: l ->
  Z.of_nat (length (x :: l)) <= GoInt.MaxInt ->
  GoInt.sub (totalHits m) (thresholdIndex percentile (totalHits m))
  = Z.of_nat (S n) ->
  (x :: l) !! n = Some upper ->
  cumSums (x :: l) !! n = Some cumAt ->
  sendTimer sortFloat32s percentile m t
  = ([ mkPoint ("stats.timers." +:+ key m +:+ ".avg_value")
               (F32.div (sumOf (x :: l)) (F32.of_int (totalHits m))) t;
       mkPoint ("stats.timers." +:+ key m +:+ ".max_value")
               (default x (last (x :: l))) t;
       mkPoint ("stats.timers." +:+ key m +:+ ".min_value") x t;
       mkPoint ("stats.timers." +:+ key m +:+ ".mean_"
                +:+ GoInt.Itoa percentile)
               (F32.div cumAt (F32.of_int (Z.of_nat (S n)))) t;
       mkPoint ("stats.timers." +:+ key m +:+ ".upper_"
                +:+ GoInt.Itoa percentile) upper t;
       mkPoint ("stats.timers." +:+ key m +:+ ".sum_"
                +:+ GoInt.Itoa percentile) cumAt t ],
      Some tt).
Proof.
  intros Hsort Hlen Hn Hupper Hcum. unfold sendTimer.
  rewrite Hsort, Hn.
  rewrite index_head, emit_bind_ret.
  assert (Hlast : (x :: l) !! length l = Some (default x (last (x :: l)))).
  { rewrite last_lookup. cbn [length pred].
    destruct ((x :: l) !! length l) eqn:E; [reflexivity|].
    apply lookup_ge_None in E. cbn in E. lia. }
  replace (GoInt.sub (Z.of_nat (length (x :: l))) 1)
    with (Z.of_nat (length l)).
  2:{ unfold GoInt.sub. rewrite wrap_id.
      - cbn [length]. lia.
      - unfold GoInt.in_range, GoInt.MinInt. cbn [length] in *. lia. }
  rewrite (index_lookup _ _ _ Hlast), emit_bind_ret.
  rewrite cumulate_spec, emit_bind_ret. cbn [fst snd].
  replace (GoInt.sub (Z.of_nat (S n)) 1) with (Z.of_nat n).
  2:{ unfold GoInt.sub. rewrite wrap_id; [lia|].
      pose proof (lookup_lt_Some _ _ _ Hupper) as Hlt.
      unfold GoInt.in_range, GoInt.MinInt. cbn [length] in *. lia. }
  do 3 (apply emit_bind_send; cbn beta).
  rewrite (index_lookup _ _ _ Hupper), emit_bind_ret.
  rewrite (index_lookup _ _ _ Hcum), emit_bind_ret.
  do 2 (apply emit_bind_send; cbn beta).
  rewrite emit_bind_ret. reflexivity.
Qed.

(** The points of a timer whose percentile window is not empty. *)
Lemma timer_points m :
  metricType m = "timer" ->
  totalHits m = Z.of_nat (length (allValues m)) ->
  Z.of_nat (length (allValues m)) <= GoInt.MaxInt ->
  let samples := sortFloat32s (allValues m) in
  let t := GoInt.Itoa (flushTime m) in
  let numInThreshold :=
    GoInt.sub (totalHits m) (thresholdIndex percentile (totalHits m)) in
  1 <= numInThreshold <= totalHits m ->
  exists minV maxV upper cumAt,
    head samples = Some minV /\ last samples = Some maxV /\
    samples !! Z.to_nat (numInThreshold - 1) = Some upper /\
    cumSums samples !! Z.to_nat (numInThreshold - 1) = Some cumAt /\
    sendToGraphite sortFloat32s percentile flushTimeFlag m
    = ([ mkPoint (key m) (lastValue m) t;
         mkPoint ("stats.timers." +:+ key m +:+ ".avg_value")
                 (F32.div (sumOf samples) (F32.of_int (totalHits m))) t;
         mkPoint ("stats.timers." +:+ key m +:+ ".max_value") maxV t;
         mkPoint ("stats.timers." +:+ key m +:+ ".min_value") minV t;
         mkPoint ("stats.timers." +:+ key m +:+ ".mean_"
                  +:+ GoInt.Itoa percentile)
                 (F32.div cumAt (F32.of_int numInThreshold)) t;
         mkPoint ("stats.timers." +:+ key m +:+ ".upper_"
                  +:+ GoInt.Itoa percentile) upper t;
         mkPoint ("stats.timers." +:+ key m +:+ ".sum_"
                  +:+ GoInt.Itoa percentile) cumAt t ],
        Some tt).
Proof.
  intros Hty Hhits Hlen samples t numInThreshold Hwin.
  assert (Hslen : length samples = length (allValues m))
    by (unfold samples; rewrite sort_perm; reflexivity).
  destruct samples as [|x l] eqn:Hsamples.
  { cbn in Hslen. rewrite <- Hslen in Hhits. cbn in Hhits. lia. }
  set (n := Z.to_nat (numInThreshold - 1)).
  assert (Hn : numInThreshold = Z.of_nat (S n)) by (unfold n; lia).
  assert (Hnlt : (n < length (x :: l))%nat) by lia.
  destruct (lookup_lt_is_Some_2 (x :: l) n Hnlt) as [upper Hupper].
  assert (Hnlt' : (n < length (cumSums (x :: l)))%nat)
    by (rewrite length_cumSums; exact Hnlt).
  destruct (lookup_lt_is_Some_2 _ n Hnlt') as [cumAt Hcum].
  exists x, (default x (last (x :: l))), upper, cumAt.
  split; [reflexivity|]. split.
  { destruct (last (x :: l)) eqn:E; [reflexivity|].
    apply last_None in E. discriminate E. }
  split; [exact Hupper|]. split; [exact Hcum|].
  unfold sendToGraphite. rewrite Hty.
  change (String.eqb "timer" "gauge") with false.
  change (String.eqb "timer" "counter") with false.
  change (String.eqb "timer" "timer") with true.
  cbn [negb]. rewrite emit_bind_ret. apply emit_bind_send. cbn beta.
  rewrite (sendTimer_run m (GoInt.Itoa (flushTime m)) x l n upper cumAt);
    [| exact Hsamples | rewrite Hslen; exact Hlen | exact Hn
     | exact Hupper | exact Hcum ].
  rewrite <- Hn. reflexivity.
Qed.

(** The smallest and the largest sample. *)
Lemma timer_min_max m minV maxV :
  Forall notNaN (allValues m) ->
  head (sortFloat32s (allValues m)) = Some minV ->
  last (sortFloat32s (allValues m)) = Some maxV ->
  StronglySorted notAbove (sortFloat32s (allValues m)) /\
  minV ∈ allValues m /\ maxV ∈ allValues m /\
  forall x, x ∈ allValues m -> notAbove minV x /\ notAbove x maxV.
Proof.
  intros Hnan Hhead Hlast.
  assert (Hnan' : Forall notNaN (sortFloat32s (allValues m)))
    by (rewrite sort_perm; exact Hnan).
  assert (Hstrong :
    StronglySorted notAbove (sortFloat32s (allValues m))).
  { apply Sorted_notAbove_strongly; [exact Hnan'|].
    apply IsSorted_Sorted, sort_sorted, Hnan. }
  split; [exact Hstrong|].
  split; [rewrite <- sort_perm; apply head_Some_elem_of, Hhead|].
  split; [rewrite <- sort_perm; apply last_Some_elem_of, Hlast|].
  intros x Hx. rewrite <- sort_perm in Hx. split.
  - destruct (sortFloat32s (allValues m)) as [|a l]; [discriminate|].
    cbn in Hhead. injection Hhead as ->.
    eapply StronglySorted_head_least; eassumption.
  - eapply StronglySorted_last_greatest; eassumption.
Qed.

(** Sorting the samples 1, 2, 3, 4, 5 leaves them as they are. *)
Lemma sort_example :
  sortFloat32s (allValues exampleTimer) = allValues exampleTimer.
Proof.
  symmetry. apply sorted_perm_unique.
  - apply distinguishes_spec. reflexivity.
  - repeat constructor.
  - apply Sorted_notAbove_strongly.
    + rewrite sort_perm. repeat constructor; discriminate.
    + apply IsSorted_Sorted, sort_sorted. repeat constructor; discriminate.
  - symmetry. apply sort_perm.
Qed.

End TimerStatistics.

(** C2 (amended). For a timer whose hits are the number of its samples
    and whose window [numInThreshold = hits - thresholdIndex] holds at
    least one sample, the engine sorts the samples and sends, after the
    generic point, [avg_value] (the sum of the samples over the hits),
    [max_value] and [min_value] (the last and the first sorted sample,
    which are the largest and the smallest sample when no sample is NaN),
    then [mean_P], [upper_P] and [sum_P] read at index [numInThreshold - 1]
    of the sorted samples and of their cumulative sums.  For the samples
    1, 2, 3, 4, 5 and percentile 90 the threshold index is 1, the window
    holds 4 samples, and the points are avg 3, max 5, min 1, mean 2.5,
    upper 4 and sum 10. *)
Theorem timer_statistics (sortFloat32s : list float32 -> list float32)
    (percentile flushTimeFlag : Z) (m : Metric) :
  (forall l, sortFloat32s l ≡ₚ l) ->
  (forall l, Forall notNaN l -> IsSorted (T := ByFloat32) (sortFloat32s l) = true) ->
  metricType m = "timer" ->
  totalHits m = Z.of_nat (length (allValues m)) ->
  Z.of_nat (length (allValues m)) <= GoInt.MaxInt ->
  let samples := sortFloat32s (allValues m) in
  let t := GoInt.Itoa (flushTime m) in
  let numInThreshold :=
    GoInt.sub (totalHits m) (thresholdIndex percentile (totalHits m)) in
  1 <= numInThreshold <= totalHits m ->
  (exists minV maxV upper cumAt,
     head samples = Some minV /\ last samples = Some maxV /\
     samples !! Z.to_nat (numInThreshold - 1) = Some upper /\
     cumSums samples !! Z.to_nat (numInThreshold - 1) = Some cumAt /\
     sendToGraphite sortFloat32s percentile flushTimeFlag m
     = ([ mkPoint (key m) (lastValue m) t;
          mkPoint ("stats.timers." +:+ key m +:+ ".avg_value")
                  (F32.div (sumOf samples) (F32.of_int (totalHits m))) t;
          mkPoint ("stats.timers." +:+ key m +:+ ".max_value") maxV t;
          mkPoint ("stats.timers." +:+ key m +:+ ".min_value") minV t;
          mkPoint ("stats.timers." +:+ key m +:+ ".mean_"
                   +:+ GoInt.Itoa percentile)
                  (F32.div cumAt (F32.of_int numInThreshold)) t;
          mkPoint ("stats.timers." +:+ key m +:+ ".upper_"
                   +:+ GoInt.Itoa percentile) upper t;
          mkPoint ("stats.timers." +:+ key m +:+ ".sum_"
                   +:+ GoInt.Itoa percentile) cumAt t ],
         Some tt) /\
     samples ≡ₚ allValues m /\
     (Forall notNaN (allValues m) ->
      StronglySorted notAbove samples /\
      minV ∈ allValues m /\ maxV ∈ allValues m /\
      forall x, x ∈ allValues m -> notAbove minV x /\ notAbove x maxV)) /\
  (thresholdIndex 90 5 = 1 /\ GoInt.sub 5 (thresholdIndex 90 5) = 4 /\
   sendToGraphite sortFloat32s 90 flushTimeFlag exampleTimer
   = ([ mkPoint "t" (f32 5) "1700000000";
        mkPoint "stats.timers.t.avg_value" (f32 3) "1700000000";
        mkPoint "stats.timers.t.max_value" (f32 5) "1700000000";
        mkPoint "stats.timers.t.min_value" (f32 1) "1700000000";
        mkPoint "stats.timers.t.mean_90" (F32.div (f32 5) (f32 2))
                "1700000000";
        mkPoint "stats.timers.t.upper_90" (f32 4) "1700000000";
        mkPoint "stats.timers.t.sum_90" (f32 10) "1700000000" ],
       Some tt)).
Proof.
  intros Hperm Hsorted Hty Hhits Hlen samples t numInThreshold Hwin. split.
  - destruct (timer_points sortFloat32s percentile flushTimeFlag Hperm m
                Hty Hhits Hlen Hwin)
      as (minV & maxV & upper & cumAt & Hmin & Hmax & Hup & Hcum & Hsend).
    exists minV, maxV, upper, cumAt.
    repeat (split; [assumption|]). split; [apply Hperm|].
    intros Hnan. apply timer_min_max; assumption.
  - split; [reflexivity|]. split; [reflexivity|].
    rewrite (sendToGraphite_sort_ext sortFloat32s (fun l => l)).
    + vm_compute. reflexivity.
    + apply sort_example; assumption.
Qed.

Lemma timer_statistics_witness :
  sendToGraphite insertionSort 90 10000000000 shuffledTimer
  = ([ mkPoint "t" (f32 2) "1700000000";
       mkPoint "stats.timers.t.avg_value" (f32 2) "1700000000";
       mkPoint "stats.timers.t.max_value" (f32 3) "1700000000";
       mkPoint "stats.timers.t.min_value" (f32 1) "1700000000";
       mkPoint "stats.timers.t.mean_90" (f32 2) "1700000000";
       mkPoint "stats.timers.t.upper_90" (f32 3) "1700000000";
       mkPoint "stats.timers.t.sum_90" (f32 6) "1700000000" ],
      Some tt).
Proof.
  assert (Hwin : 1 <= GoInt.sub (totalHits shuffledTimer)
                        (thresholdIndex 90 (totalHits shuffledTimer))
                 <= totalHits shuffledTimer)
    by (vm_compute; split; discriminate).
  assert (Hlen : Z.of_nat (length (allValues shuffledTimer)) <= GoInt.MaxInt)
    by (vm_compute; discriminate).
  destruct (timer_statistics insertionSort 90 10000000000 shuffledTimer
              insertionSort_perm (fun l _ => insertionSort_IsSorted l)
              eq_refl eq_refl Hlen Hwin)
    as [(minV & maxV & upper & cumAt & Hmin & Hmax & Hup & Hcum & Hsend & _) _].
  vm_compute in Hmin, Hmax, Hup, Hcum.
  injection Hmin as <-. injection Hmax as <-.
  injection Hup as <-. injection Hcum as <-.
  rewrite Hsend. vm_compute. reflexivity.
Defined.

(** C2 as stated fails: with percentile 50 a timer with one sample gets
    threshold index 1 and an empty window; reading index -1 stops the
    engine before any percentile point, so no [upper_50] is sent. *)
Lemma timer_empty_window_no_upper :
  ~ (exists v,
       In (mkPoint "stats.timers.t.upper_50" v "1700000000")
          (fst (sendToGraphite insertionSort 50 10000000000 singleTimer))).
Proof.
  intros (v & Hin). vm_compute in Hin.
  repeat (destruct Hin as [Hin|Hin]; [discriminate Hin|]). exact Hin.
Qed.

(** C6. The engine does not clamp the window.  With percentile 0 (and also
    with percentile 50) a timer with one sample gets threshold index 1 and
    [numInThreshold = 0]; the index [numInThreshold - 1] is -1, reading the
    sorted samples there panics, and the engine stops after [min_value]. *)
Theorem percentile_window_not_clamped :
  thresholdIndex 0 (totalHits singleTimer) = 1 /\
  GoInt.sub (totalHits singleTimer) (thresholdIndex 0 (totalHits singleTimer))
  = 0 /\
  GoInt.sub 0 1 = -1 /\
  index (insertionSort (allValues singleTimer)) (-1) = panic /\
  index (cumSums (insertionSort (allValues singleTimer))) (-1) = panic /\
  sendToGraphite insertionSort 0 10000000000 singleTimer
  = ([ mkPoint "t" (f32 5) "1700000000";
       mkPoint "stats.timers.t.avg_value" (f32 5) "1700000000";
       mkPoint "stats.timers.t.max_value" (f32 5) "1700000000";
       mkPoint "stats.timers.t.min_value" (f32 5) "1700000000" ],
      None) /\
  thresholdIndex 50 (totalHits singleTimer) = 1 /\
  snd (sendToGraphite insertionSort 50 10000000000 singleTimer) = None.
Proof. repeat split; vm_compute; reflexivity. Qed.

(** With the default percentile 90 the float64 expression of the code
    gives the exact threshold index for up to a thousand hits, and the
    window then holds between one sample and all of them. *)
Lemma thresholdIndex_default :
  forallb (fun n =>
     (thresholdIndex 90 n =? exactThreshold 90 n)
     && (1 <=? GoInt.sub n (thresholdIndex 90 n))
     && (GoInt.sub n (thresholdIndex 90 n) <=? n))
    (upFrom 1 1000) = true.
Proof. vm_compute. reflexivity. Qed.

(** The float64 expression is not the exact one everywhere: for
    percentile 30 and 45 hits, 0.7 * 45 rounds below 31.5 and the code
    gets 31 where the exact value is 32. *)
Lemma thresholdIndex_rounding :
  thresholdIndex 30 45 = 31 /\ exactThreshold 30 45 = 32.
Proof. split; vm_compute; reflexivity. Qed.

(** C8 (amended). For a gauge the engine sends exactly two points: the
    point [stats.gauges.<name>.avg_value] and the generic point [<name>],
    both with [lastValue]. *)
Theorem gauge_export (sortFloat32s : list float32 -> list float32)
    (percentile flushTimeFlag : Z) (m : Metric) :
  metricType m = "gauge" ->
  sendToGraphite sortFloat32s percentile flushTimeFlag m
  = ([ mkPoint ("stats.gauges." +:+ key m +:+ ".avg_value") (lastValue m)
               (GoInt.Itoa (flushTime m));
       mkPoint (key m) (lastValue m) (GoInt.Itoa (flushTime m)) ],
     Some tt).
Proof.
  intros Hty. unfold sendToGraphite. rewrite Hty.
  change (String.eqb "gauge" "gauge") with true.
  change (String.eqb "gauge" "timer") with false.
  cbn [negb]. do 2 (apply emit_bind_send; cbn beta). reflexivity.
Qed.

Lemma gauge_export_witness :
  sendToGraphite insertionSort 90 10000000000 exampleGauge
  = ([ mkPoint "stats.gauges.g.avg_value" (f32 10) "1700000000";
       mkPoint "g" (f32 10) "1700000000" ],
     Some tt).
Proof.
  exact (gauge_export insertionSort 90 10000000000 exampleGauge eq_refl).
Defined.

(** C8 as stated fails: the gauge's points are not the single
    [avg_value] point; the generic point follows it. *)
Lemma gauge_export_second_point :
  ~ (fst (sendToGraphite insertionSort 90 10000000000 exampleGauge)
     = [ mkPoint "stats.gauges.g.avg_value" (f32 10) "1700000000" ]).
Proof. vm_compute. discriminate. Qed.

(** ** Ingestion *)

Lemma handleRequest_no_match PF data rest s log :
  lineFields data = None ->
  handleRequest PF (ReadData data :: rest) s log
  = mkSession s
      ((log ++ [TraceGot (Trim (bufferOf data) "010"%char)])
       ++ [WarningClientMessage (bufferOf data)])
      ReturnedNoMatch.
Proof.
  unfold lineFields. intros Hnone. cbn [handleRequest].
  destruct (FindSubmatch (bufferOf data)) as [[[metric val] tok]|];
    [discriminate Hnone|reflexivity].
Qed.

Lemma handleRequest_unknown_type PF data rest s log metric val tmp mt e :
  lineFields data = Some (metric, val, tmp) ->
  shortTypeToLong tmp = (mt, Some e) ->
  handleRequest PF (ReadData data :: rest) s log
  = handleRequest PF rest s
      (((log ++ [TraceGot (Trim (bufferOf data) "010"%char)])
        ++ [TraceMetricType mt tmp])
       ++ [WarningMetricType tmp]).
Proof.
  unfold lineFields. intros Hmatch Hty. cbn [handleRequest].
  destruct (FindSubmatch (bufferOf data)) as [[[metric' val'] tok]|];
    [|discriminate Hmatch].
  injection Hmatch as -> -> Htmp. rewrite Htmp, Hty. reflexivity.
Qed.

(** A line of the right shape with a known type reaches [Set] with whatever
    value [ParseFloat] returned, whether or not it also returned an error. *)
Lemma handleRequest_set PF data rest s log metric val tmp mt :
  lineFields data = Some (metric, val, tmp) ->
  shortTypeToLong tmp = (mt, None) ->
  handleRequest PF (ReadData data :: rest) s log
  = handleRequest PF rest
      (fst (MetricStore_Set s metric mt (F32.of_float64 (fst (PF val)))))
      (((log ++ [TraceGot (Trim (bufferOf data) "010"%char)])
        ++ [TraceMetricType mt tmp])
       ++ [TraceValue mt metric (fst (PF val))]).
Proof.
  unfold lineFields. intros Hmatch Hty. cbn [handleRequest].
  destruct (FindSubmatch (bufferOf data)) as [[[metric' val'] tok]|];
    [|discriminate Hmatch].
  injection Hmatch as -> -> Htmp. rewrite Htmp, Hty.
  destruct (PF val) as [value err]. reflexivity.
Qed.

Lemma fields_malformed : lineFields "foo5|c" = None.
Proof. vm_compute. reflexivity. Qed.

Lemma fields_bar : lineFields "bar:1|c" = Some ("bar", "1", "c").
Proof. vm_compute. reflexivity. Qed.

Lemma fields_unknown : lineFields "foo:5|x" = Some ("foo", "5", "x").
Proof. vm_compute. reflexivity. Qed.

Lemma fields_invalid : lineFields "foo:abc|c" = Some ("foo", "abc", "c").
Proof. vm_compute. reflexivity. Qed.

(** C4. The code ends the session on a buffer without the pattern: after
    the line [foo5|c] the function has returned, the store is untouched and
    the next line [bar:1|c] is never read; the same next line alone is
    stored, and a line with an unknown type is skipped with the session
    going on. *)
Theorem malformed_line_returns (PF : string -> float64 * bool) :
  let r := handleRequest PF [ReadData "foo5|c"; ReadData "bar:1|c"]
                         NewMetricStore [] in
  sessionEnd r = ReturnedNoMatch /\
  sessionStore r = NewMetricStore /\
  sessionStore r !! "bar" = None /\
  (exists m,
     sessionStore (handleRequest PF [ReadData "bar:1|c"] NewMetricStore [])
       !! "bar" = Some m) /\
  (exists m,
     sessionStore
       (handleRequest PF [ReadData "foo:5|x"; ReadData "bar:1|c"]
                      NewMetricStore []) !! "bar" = Some m).
Proof.
  intros r. subst r.
  rewrite (handleRequest_no_match PF "foo5|c" [ReadData "bar:1|c"]
             NewMetricStore [] fields_malformed).
  cbn [sessionEnd sessionStore]. repeat split.
  - rewrite (handleRequest_set PF "bar:1|c" [] NewMetricStore []
               "bar" "1" "c" "counter" fields_bar eq_refl).
    cbn [handleRequest sessionStore]. rewrite Set_lookup. eexists. reflexivity.
  - rewrite (handleRequest_unknown_type PF "foo:5|x" [ReadData "bar:1|c"]
               NewMetricStore [] "foo" "5" "x" "unknown"
               "unknown metric type" fields_unknown eq_refl).
    match goal with
    | |- context [handleRequest PF _ _ ?l] => generalize l; intros log
    end.
    rewrite (handleRequest_set PF "bar:1|c" [] NewMetricStore log
               "bar" "1" "c" "counter" fields_bar eq_refl).
    cbn [handleRequest sessionStore]. rewrite Set_lookup. eexists. reflexivity.
Qed.

(** C5. The code does not skip a line whose value does not parse: for the
    line [foo:abc|c], whatever [ParseFloat] returns for [abc] (for Go's,
    zero and a syntax error), [Set] is called with that value and the
    store holds [foo] with one hit; nothing is logged as a warning and the
    session goes on. *)
Theorem invalid_value_still_set (PF : string -> float64 * bool) :
  let r := handleRequest PF [ReadData "foo:abc|c"] NewMetricStore [] in
  let v := F32.of_float64 (fst (PF "abc")) in
  sessionStore r !! "foo" = Some (mkMetric "foo" "counter" 1 v [v] 0 0) /\
  sessionEnd r = AwaitingRead /\
  sessionLog r
  = [ TraceGot (Trim (bufferOf "foo:abc|c") "010"%char);
      TraceMetricType "counter" "c";
      TraceValue "counter" "foo" (fst (PF "abc")) ].
Proof.
  intros r v. subst r v.
  rewrite (handleRequest_set PF "foo:abc|c" [] NewMetricStore []
             "foo" "abc" "c" "counter" fields_invalid eq_refl).
  cbn [handleRequest sessionStore sessionEnd sessionLog].
  split; [|split]; [|reflexivity..].
  rewrite Set_lookup. reflexivity.
Qed.

(** ** The goroutines interleaved *)

(** C9. The flush path takes no lock, and a [Set] can run between the
    moment [flushMetrics] copies a metric and the moment
    [handleGraphiteQueue] deletes its key: after [Set] of 3, the copy, a
    [Set] of 4 and the delete, the store has lost the key, the only metric
    exported is the copy with [lastValue] 3 and one hit, and the update of
    4 is in neither. *)
Theorem flush_not_atomic (sortFloat32s : list float32 -> list float32)
    (percentile flushTimeFlag now : Z) :
  exists s1 s2 s3 s4,
    step sortFloat32s percentile flushTimeFlag initialSystem s1 /\
    step sortFloat32s percentile flushTimeFlag s1 s2 /\
    step sortFloat32s percentile flushTimeFlag s2 s3 /\
    step sortFloat32s percentile flushTimeFlag s3 s4 /\
    reachable sortFloat32s percentile flushTimeFlag s4 /\
    sysStore s1 !! "x" = Some counter3 /\
    graphitePipeline s2 = [flushCopy now counter3] /\
    sysStore s3 !! "x" = Some counter7 /\
    graphitePipeline s3 = [flushCopy now counter3] /\
    sysStore s4 !! "x" = None /\
    graphitePipeline s4 = [] /\
    sysSent s4
    = [sendToGraphite sortFloat32s percentile flushTimeFlag
                      (flushCopy now counter3)].
Proof.
  set (s1 := mkSystem
               (fst (MetricStore_Set NewMetricStore "x" "counter" (f32 3)))
               [] []).
  set (s2 := mkSystem (sysStore s1) [flushCopy now counter3] []).
  set (s3 := mkSystem
               (fst (MetricStore_Set (sysStore s2) "x" "counter" (f32 4)))
               [flushCopy now counter3] []).
  set (s4 := mkSystem
               (handleGraphiteQueue_store (sysStore s3)
                                          (flushCopy now counter3))
               []
               [sendToGraphite sortFloat32s percentile flushTimeFlag
                               (flushCopy now counter3)]).
  assert (H1 : step sortFloat32s percentile flushTimeFlag initialSystem s1)
    by apply (step_Set _ _ _ initialSystem "x" "counter" (f32 3)).
  assert (H2 : step sortFloat32s percentile flushTimeFlag s1 s2).
  { apply (step_flush _ _ _ s1 "x" counter3 now); [reflexivity|].
    vm_compute. reflexivity. }
  assert (H3 : step sortFloat32s percentile flushTimeFlag s2 s3)
    by apply (step_Set _ _ _ s2 "x" "counter" (f32 4)).
  assert (H4 : step sortFloat32s percentile flushTimeFlag s3 s4)
    by apply (step_queue _ _ _ s3 (flushCopy now counter3) [] eq_refl).
  exists s1, s2, s3, s4. repeat (split; [assumption|]).
  split.
  { do 4 (eapply reachable_step; [|eassumption]). apply reachable_init. }
  repeat split; reflexivity.
Qed.

(** * Further properties of the code *)

(** ** The store *)

Lemma last_cons_default {A} (x d : A) l : List.last (x :: l) d = List.last l x.
Proof.
  revert x d. induction l as [|y l IH]; intros x d; [reflexivity|].
  change (List.last (x :: y :: l) d) with (List.last (y :: l) d).
  rewrite (IH y d), (IH y x). reflexivity.
Qed.

Lemma updateLastValue_fold kind rest : forall v,
  fold_left (updateLastValue (kindName kind)) rest v
  = match kind with
    | Counter => fold_left F32.add rest v
    | Gauge | Timer => List.last rest v
    end.
Proof.
  induction rest as [|w rest IH]; intros v; [destruct kind; reflexivity|].
  cbn [fold_left]. rewrite IH, updateLastValue_kind.
  destruct kind; try reflexivity; symmetry; apply last_cons_default.
Qed.

Lemma SetMany_existing k mt vals : forall s m h,
  s !! k = Some m -> totalHits m = GoInt.wrap h ->
  SetMany s k mt vals !! k
  = Some (mkMetric (key m) (metricType m)
            (GoInt.wrap (h + Z.of_nat (length vals)))
            (fold_left (updateLastValue mt) vals (lastValue m))
            (allValues m ++ vals) (flushTime m) (lastFlushed m)).
Proof.
  induction vals as [|v vals IH]; intros s m h Hm Hh.
  - cbn. rewrite Z.add_0_r, <- Hh, app_nil_r, Hm. destruct m; reflexivity.
  - cbn [SetMany foldl]. fold (SetMany (fst (MetricStore_Set s k mt v)) k mt vals).
    rewrite (IH _ (setMetric (Some m) k mt v) (h + 1)).
    + cbn [setMetric key metricType totalHits lastValue allValues flushTime
             lastFlushed fold_left length].
      rewrite <- app_assoc. do 2 f_equal. f_equal. lia.
    + rewrite Set_lookup, Hm. reflexivity.
    + cbn. unfold GoInt.add. rewrite Hh. apply wrap_add_wrap.
Qed.

Lemma SetMany_other k mt vals k' : forall s,
  k' <> k -> SetMany s k mt vals !! k' = s !! k'.
Proof.
  induction vals as [|v vals IH]; intros s Hne; [reflexivity|].
  cbn [SetMany foldl]. fold (SetMany (fst (MetricStore_Set s k mt v)) k mt vals).
  rewrite IH by assumption. apply Set_lookup_other, Hne.
Qed.

(** X1. A run of [Set] calls on a key the store did not hold leaves, under
    that key, the values in the order written as samples, their number as
    hits, and as [lastValue] the last value for a gauge or a timer and the
    float32 sum taken from the left for a counter; no other key changes. *)
Theorem Set_sequence (s : MetricStore) (k : string) (kind : MetricKind)
    (v : float32) (rest : list float32) :
  s !! k = None ->
  SetMany s k (kindName kind) (v :: rest) !! k
  = Some (mkMetric k (kindName kind)
            (GoInt.wrap (Z.of_nat (length (v :: rest))))
            (match kind with
             | Counter => fold_left F32.add rest v
             | Gauge | Timer => List.last rest v
             end)
            (v :: rest) 0 0) /\
  (forall k', k' <> k ->
     SetMany s k (kindName kind) (v :: rest) !! k' = s !! k').
Proof.
  intros Hnone. split; [|intros k' Hne; apply SetMany_other, Hne].
  cbn [SetMany foldl].
  fold (SetMany (fst (MetricStore_Set s k (kindName kind) v)) k
                (kindName kind) rest).
  rewrite (SetMany_existing k (kindName kind) rest _
             (mkMetric k (kindName kind) 1 v [v] 0 0) 1).
  - cbn [key metricType totalHits lastValue allValues flushTime lastFlushed].
    rewrite updateLastValue_fold. cbn [length app].
    do 2 f_equal. f_equal. lia.
  - rewrite Set_lookup, Hnone. reflexivity.
  - reflexivity.
Qed.

Lemma Set_sequence_witness :
  SetMany NewMetricStore "x" "counter" [f32 3; f32 4; f32 5] !! "x"
  = Some (mkMetric "x" "counter" 3 (f32 12) [f32 3; f32 4; f32 5] 0 0).
Proof.
  destruct (Set_sequence NewMetricStore "x" Counter (f32 3) [f32 4; f32 5]
              eq_refl) as [Hk _].
  exact Hk.
Defined.

(** X2. Two [Set] calls on different keys commute: the store they leave
    does not depend on which of the two ran first. *)
Theorem Set_commute (s : MetricStore) (k1 k2 mt1 mt2 : string)
    (v1 v2 : float32) :
  k1 <> k2 ->
  fst (MetricStore_Set (fst (MetricStore_Set s k1 mt1 v1)) k2 mt2 v2)
  = fst (MetricStore_Set (fst (MetricStore_Set s k2 mt2 v2)) k1 mt1 v1).
Proof.
  intros Hne. cbn [MetricStore_Set fst].
  rewrite !lookup_insert_ne by congruence.
  apply insert_insert_ne. congruence.
Qed.

Lemma Set_commute_witness :
  fst (MetricStore_Set (fst (MetricStore_Set NewMetricStore "a" "counter"
                                             (f32 1))) "b" "gauge" (f32 2))
  = fst (MetricStore_Set (fst (MetricStore_Set NewMetricStore "b" "gauge"
                                               (f32 2))) "a" "counter" (f32 1)).
Proof. apply Set_commute. discriminate. Defined.

(** X3. [Get] returns the zero [Metric] (no hits, no samples, empty type)
    for a key the store does not hold, and right after a [Set] on a key it
    returns a metric whose last sample is the value written; [Get] on the
    other keys is as before that [Set]. *)
Theorem Get_after_Set (s : MetricStore) (k mt : string) (val : float32) :
  (s !! k = None -> MetricStore_Get s k = zeroMetric) /\
  (exists m, MetricStore_Get (fst (MetricStore_Set s k mt val)) k = m /\
     last (allValues m) = Some val /\
     (s !! k = None -> m = mkMetric k mt 1 val [val] 0 0) /\
     (forall old, s !! k = Some old ->
        allValues m = allValues old ++ [val] /\ key m = key old)) /\
  (forall k', k' <> k ->
     MetricStore_Get (fst (MetricStore_Set s k mt val)) k'
     = MetricStore_Get s k').
Proof.
  unfold MetricStore_Get. split; [|split].
  - intros ->. reflexivity.
  - rewrite Set_lookup. eexists. split; [reflexivity|]. cbn [default].
    split; [|split].
    + destruct (s !! k) as [old|]; cbn; [apply last_snoc|reflexivity].
    + intros ->. reflexivity.
    + intros old ->. split; reflexivity.
  - intros k' Hne. rewrite Set_lookup_other by assumption. reflexivity.
Qed.

Lemma Get_after_Set_witness :
  MetricStore_Get NewMetricStore "x" = zeroMetric /\
  MetricStore_Get counterTwice "y" = MetricStore_Get counterOnce "y".
Proof.
  destruct (Get_after_Set NewMetricStore "x" "counter" (f32 3)) as [H0 _].
  destruct (Get_after_Set counterOnce "x" "counter" (f32 4)) as (_ & _ & Hk).
  split; [apply H0; reflexivity|]. apply Hk. discriminate.
Defined.

(** ** The statistics engine *)

Lemma Forall_emit_bind {A B} (P : Point -> Prop) (c : Emit A)
    (k : A -> Emit B) :
  Forall P (fst c) -> (forall a, Forall P (fst (k a))) ->
  Forall P (fst (emit_bind c k)).
Proof.
  intros Hc Hk. destruct c as [out [a|]]; cbn in *; [|exact Hc].
  specialize (Hk a). destruct (k a) as [out' r]. cbn in *.
  apply Forall_app. split; assumption.
Qed.

Lemma index_emits_nothing l i : fst (index l i) = [].
Proof. unfold index. destruct (at32 l i); reflexivity. Qed.

Lemma cumulate_emits_nothing vals : forall idx sum cum,
  fst (cumulate idx vals sum cum) = [].
Proof.
  induction vals as [|v vals IH]; intros idx sum cum; [reflexivity|].
  cbn [cumulate]. destruct idx as [|idx]; [apply IH|].
  unfold index. destruct (at32 cum (Z.of_nat (S idx) - 1)) as [c|];
    [|reflexivity].
  rewrite emit_bind_ret. apply IH.
Qed.

Lemma sendTimer_stamped sort P m t :
  Forall (stamped t) (fst (sendTimer sort P m t)).
Proof.
  unfold sendTimer.
  repeat first
    [ apply Forall_emit_bind; [|intros ?]
    | rewrite index_emits_nothing; constructor
    | rewrite cumulate_emits_nothing; constructor
    | (constructor; [reflexivity|constructor]) ].
Qed.

Lemma sendToGraphite_timer sort P ft m :
  metricType m = "timer" ->
  sendToGraphite sort P ft m
  = (mkPoint (key m) (lastValue m) (GoInt.Itoa (flushTime m))
     :: fst (sendTimer sort P m (GoInt.Itoa (flushTime m))),
     snd (sendTimer sort P m (GoInt.Itoa (flushTime m)))).
Proof.
  intros Hty. unfold sendToGraphite. rewrite Hty.
  change (String.eqb "timer" "gauge") with false.
  change (String.eqb "timer" "counter") with false.
  change (String.eqb "timer" "timer") with true.
  cbn [negb]. rewrite emit_bind_ret. apply emit_bind_send. cbn beta.
  destruct (sendTimer sort P m (GoInt.Itoa (flushTime m))). reflexivity.
Qed.

Lemma sendToGraphite_not_timer sort P ft m :
  metricType m <> "timer" ->
  sendToGraphite sort P ft m
  = ((if String.eqb (metricType m) "gauge" then
        [ mkPoint ("stats.gauges." +:+ key m +:+ ".avg_value") (lastValue m)
                  (GoInt.Itoa (flushTime m)) ]
      else if String.eqb (metricType m) "counter" then
        [ mkPoint ("stats." +:+ key m)
                  (F32.div (lastValue m) (F32.of_float64 (Seconds ft)))
                  (GoInt.Itoa (flushTime m));
          mkPoint ("stats_counts." +:+ key m) (lastValue m)
                  (GoInt.Itoa (flushTime m)) ]
      else [])
     ++ [ mkPoint (key m) (lastValue m) (GoInt.Itoa (flushTime m)) ],
     Some tt).
Proof.
  intros Hty. unfold sendToGraphite.
  destruct (String.eqb_spec (metricType m) "timer") as [|_]; [contradiction|].
  cbn [negb].
  destruct (String.eqb (metricType m) "gauge");
    [|destruct (String.eqb (metricType m) "counter")].
  - do 2 (apply emit_bind_send; cbn beta). reflexivity.
  - unfold emit_bind at 1. cbn beta.
    rewrite (emit_bind_send _ _ _ _ [_] (Some tt) eq_refl).
    cbn [sendSingleMetricToGraphite app]. reflexivity.
  - rewrite emit_bind_ret. apply emit_bind_send. reflexivity.
Qed.

(** X4. For a counter the engine sends exactly three points and never
    panics: [stats.<name>] with [lastValue] divided by the flush interval
    in seconds, [stats_counts.<name>] with [lastValue], and the generic
    point [<name>] with [lastValue]. *)
Theorem counter_export (sortFloat32s : list float32 -> list float32)
    (percentile flushTimeFlag : Z) (m : Metric) :
  metricType m = "counter" ->
  sendToGraphite sortFloat32s percentile flushTimeFlag m
  = ([ mkPoint ("stats." +:+ key m)
               (F32.div (lastValue m)
                        (F32.of_float64 (Seconds flushTimeFlag)))
               (GoInt.Itoa (flushTime m));
       mkPoint ("stats_counts." +:+ key m) (lastValue m)
               (GoInt.Itoa (flushTime m));
       mkPoint (key m) (lastValue m) (GoInt.Itoa (flushTime m)) ],
     Some tt).
Proof.
  intros Hty. rewrite sendToGraphite_not_timer by (rewrite Hty; discriminate).
  rewrite Hty. reflexivity.
Qed.

Lemma counter_export_witness :
  sendToGraphite insertionSort 90 tenSeconds exampleCounter
  = ([ mkPoint "stats.hits" (F32.div (f32 7) (f32 10)) "1700000000";
       mkPoint "stats_counts.hits" (f32 7) "1700000000";
       mkPoint "hits" (f32 7) "1700000000" ],
     Some tt).
Proof.
  exact (counter_export insertionSort 90 tenSeconds exampleCounter eq_refl).
Defined.

(** X5. Whatever the metric and however the run ends, every point the
    engine sends carries the metric's [flushTime] as time stamp, and the
    generic point [<name>] with [lastValue] is always among them. *)
Theorem points_share_flush_time (sortFloat32s : list float32 -> list float32)
    (percentile flushTimeFlag : Z) (m : Metric) :
  Forall (stamped (GoInt.Itoa (flushTime m)))
         (fst (sendToGraphite sortFloat32s percentile flushTimeFlag m)) /\
  mkPoint (key m) (lastValue m) (GoInt.Itoa (flushTime m))
    ∈ fst (sendToGraphite sortFloat32s percentile flushTimeFlag m).
Proof.
  destruct (String.eqb_spec (metricType m) "timer") as [Hty|Hty].
  - rewrite (sendToGraphite_timer _ _ _ _ Hty). cbn [fst]. split.
    + constructor; [reflexivity|apply sendTimer_stamped].
    + left.
  - rewrite (sendToGraphite_not_timer _ _ _ _ Hty). cbn [fst]. split.
    + apply Forall_app. split; [|repeat constructor].
      destruct (String.eqb (metricType m) "gauge");
        [|destruct (String.eqb (metricType m) "counter")];
        repeat constructor.
    + apply elem_of_app. right. left.
Qed.

Lemma sendTimer_window_out sort P m t x l :
  sort (allValues m) = x :: l ->
  Z.of_nat (length (x :: l)) <= GoInt.MaxInt ->
  at32 (x :: l)
       (GoInt.sub (GoInt.sub (totalHits m) (thresholdIndex P (totalHits m))) 1)
  = None ->
  sendTimer sort P m t
  = ([ mkPoint ("stats.timers." +:+ key m +:+ ".avg_value")
               (F32.div (sumOf (x :: l)) (F32.of_int (totalHits m))) t;
       mkPoint ("stats.timers." +:+ key m +:+ ".max_value")
               (default x (last (x :: l))) t;
       mkPoint ("stats.timers." +:+ key m +:+ ".min_value") x t ],
      None).
Proof.
  intros Hsort Hlen Hout. unfold sendTimer. rewrite Hsort.
  rewrite index_head, emit_bind_ret.
  assert (Hlast : (x :: l) !! length l = Some (default x (last (x :: l)))).
  { rewrite last_lookup. cbn [length pred].
    destruct ((x :: l) !! length l) eqn:E; [reflexivity|].
    apply lookup_ge_None in E. cbn in E. lia. }
  replace (GoInt.sub (Z.of_nat (length (x :: l))) 1)
    with (Z.of_nat (length l)).
  2:{ unfold GoInt.sub. rewrite wrap_id.
      - cbn [length]. lia.
      - unfold GoInt.in_range, GoInt.MinInt. cbn [length] in *. lia. }
  rewrite (index_lookup _ _ _ Hlast), emit_bind_ret.
  rewrite cumulate_spec, emit_bind_ret. cbn [fst snd].
  do 3 (apply emit_bind_send; cbn beta).
  unfold index at 1. rewrite Hout. reflexivity.
Qed.

Lemma at32_nil i : at32 [] i = None.
Proof.
  unfold at32. destruct (Z.leb_spec 0 i); [|reflexivity].
  destruct (Z.ltb_spec i (Z.of_nat (@length float32 []))); [cbn in *; lia|].
  reflexivity.
Qed.

Lemma window_index_in_range (l : list float32) (n : Z) :
  GoInt.in_range n ->
  Z.of_nat (length l) <= GoInt.MaxInt ->
  (is_Some (at32 l (GoInt.sub n 1)) <-> 1 <= n <= Z.of_nat (length l)).
Proof.
  intros Hn Hlen. unfold GoInt.sub, at32.
  unfold GoInt.in_range, GoInt.MinInt, GoInt.MaxInt in *.
  destruct (decide (n = - 2 ^ 63)) as [->|Hne].
  - replace (GoInt.wrap (- 2 ^ 63 - 1)) with (2 ^ 63 - 1)
      by (vm_compute; reflexivity).
    destruct (Z.leb_spec 0 (2 ^ 63 - 1)); [|lia].
    destruct (Z.ltb_spec (2 ^ 63 - 1) (Z.of_nat (length l))); [lia|].
    cbn. split; [intros [? [=]]|lia].
  - rewrite wrap_id
      by (unfold GoInt.in_range, GoInt.MinInt, GoInt.MaxInt; lia).
    destruct (Z.leb_spec 0 (n - 1)), (Z.ltb_spec (n - 1) (Z.of_nat (length l)));
      cbn; try (split; [intros [? [=]]|lia]).
    split; [lia|]. intros _. apply lookup_lt_is_Some_2. lia.
Qed.

(** X6. The engine panics only on timers, and on a timer exactly when the
    window index is out of range: it runs to its end if and only if
    [1 <= numInThreshold <= number of samples]; a timer without samples
    panics right after the generic point. *)
Theorem engine_panics_exactly (sortFloat32s : list float32 -> list float32)
    (percentile flushTimeFlag : Z) (m : Metric) :
  (forall l, sortFloat32s l ≡ₚ l) ->
  Z.of_nat (length (allValues m)) <= GoInt.MaxInt ->
  let numInThreshold :=
    GoInt.sub (totalHits m) (thresholdIndex percentile (totalHits m)) in
  (metricType m <> "timer" ->
   snd (sendToGraphite sortFloat32s percentile flushTimeFlag m) = Some tt) /\
  (metricType m = "timer" ->
   (snd (sendToGraphite sortFloat32s percentile flushTimeFlag m) = Some tt
    <-> 1 <= numInThreshold <= Z.of_nat (length (allValues m)))) /\
  (metricType m = "timer" -> allValues m = [] ->
   sendToGraphite sortFloat32s percentile flushTimeFlag m
   = ([ mkPoint (key m) (lastValue m) (GoInt.Itoa (flushTime m)) ], None)).
Proof.
  intros Hperm Hlen numInThreshold.
  assert (Hslen : length (sortFloat32s (allValues m)) = length (allValues m))
    by (rewrite Hperm; reflexivity).
  split; [|split].
  - intros Hty. rewrite sendToGraphite_not_timer by assumption. reflexivity.
  - intros Hty. rewrite (sendToGraphite_timer _ _ _ _ Hty). cbn [snd].
    rewrite <- Hslen in *.
    rewrite <- (window_index_in_range _ numInThreshold)
      by (assumption || apply wrap_in_range).
    destruct (sortFloat32s (allValues m)) as [|x l] eqn:Hsort.
    { unfold sendTimer. rewrite Hsort, at32_nil. cbn.
      split; [discriminate|intros [? [=]]]. }
    destruct (at32 (x :: l) (GoInt.sub numInThreshold 1)) as [upper|] eqn:Hat.
    + split; [intros _; eexists; reflexivity|intros _].
      pose proof (proj1 (window_index_in_range (x :: l) numInThreshold
                           (wrap_in_range _) Hlen)
                        ltac:(rewrite Hat; eexists; reflexivity)) as Hwin.
      apply at32_Some in Hat as [Hge Hup].
      assert (Hi : GoInt.sub numInThreshold 1 = numInThreshold - 1).
      { unfold GoInt.sub. apply wrap_id.
        unfold GoInt.in_range, GoInt.MinInt in *. lia. }
      rewrite Hi in Hup.
      assert (Hlt : (Z.to_nat (numInThreshold - 1)
                     < length (cumSums (x :: l)))%nat)
        by (rewrite length_cumSums; lia).
      destruct (lookup_lt_is_Some_2 _ _ Hlt) as [cumAt Hcum].
      rewrite (sendTimer_run sortFloat32s percentile m _ x l
                 (Z.to_nat (numInThreshold - 1)) upper cumAt Hsort Hlen);
        [reflexivity| |assumption..].
      fold numInThreshold. lia.
    + rewrite (sendTimer_window_out _ _ _ _ x l Hsort Hlen Hat). cbn.
      split; [discriminate|intros [? [=]]].
  - intros Hty Hnil. rewrite (sendToGraphite_timer _ _ _ _ Hty).
    assert (Hs : sortFloat32s (allValues m) = []).
    { revert Hslen. rewrite Hnil.
      destruct (sortFloat32s []); [reflexivity|discriminate]. }
    unfold sendTimer. rewrite Hs. reflexivity.
Qed.

Lemma engine_panics_exactly_witness :
  snd (sendToGraphite insertionSort 90 tenSeconds exampleTimer) = Some tt /\
  sendToGraphite insertionSort 90 tenSeconds emptyTimer
  = ([ mkPoint "t" F32.zero "1700000000" ], None).
Proof.
  assert (H5 : Z.of_nat (length (allValues exampleTimer)) <= GoInt.MaxInt)
    by (vm_compute; discriminate).
  assert (H0 : Z.of_nat (length (allValues emptyTimer)) <= GoInt.MaxInt)
    by (vm_compute; discriminate).
  destruct (engine_panics_exactly insertionSort 90 tenSeconds exampleTimer
              insertionSort_perm H5) as (_ & Hrun & _).
  destruct (engine_panics_exactly insertionSort 90 tenSeconds emptyTimer
              insertionSort_perm H0) as (_ & _ & Hempty).
  split.
  - apply (Hrun eq_refl). vm_compute. split; discriminate.
  - exact (Hempty eq_refl eq_refl).
Defined.

(** X7. For a timer without NaN among its samples, with as many hits as
    samples and a window that is not empty, the value sent as [upper_P] is
    one of the samples and lies between the values sent as [min_value] and
    as [max_value]. *)
Theorem upper_between_min_and_max
    (sortFloat32s : list float32 -> list float32)
    (percentile flushTimeFlag : Z) (m : Metric) :
  (forall l, sortFloat32s l ≡ₚ l) ->
  (forall l, Forall notNaN l ->
             IsSorted (T := ByFloat32) (sortFloat32s l) = true) ->
  metricType m = "timer" ->
  totalHits m = Z.of_nat (length (allValues m)) ->
  Z.of_nat (length (allValues m)) <= GoInt.MaxInt ->
  Forall notNaN (allValues m) ->
  1 <= GoInt.sub (totalHits m) (thresholdIndex percentile (totalHits m))
    <= totalHits m ->
  exists minV maxV upper,
    let pts := fst (sendToGraphite sortFloat32s percentile flushTimeFlag m) in
    let t := GoInt.Itoa (flushTime m) in
    mkPoint ("stats.timers." +:+ key m +:+ ".min_value") minV t ∈ pts /\
    mkPoint ("stats.timers." +:+ key m +:+ ".max_value") maxV t ∈ pts /\
    mkPoint ("stats.timers." +:+ key m +:+ ".upper_"
             +:+ GoInt.Itoa percentile) upper t ∈ pts /\
    upper ∈ allValues m /\ notAbove minV upper /\ notAbove upper maxV.
Proof.
  intros Hperm Hsorted Hty Hhits Hlen Hnan Hwin.
  destruct (timer_points sortFloat32s percentile flushTimeFlag Hperm m
              Hty Hhits Hlen Hwin)
    as (minV & maxV & upper & cumAt & Hmin & Hmax & Hup & _ & Hsend).
  destruct (timer_min_max sortFloat32s Hperm Hsorted m minV maxV
              Hnan Hmin Hmax) as (_ & _ & _ & Hbounds).
  assert (Hin : upper ∈ allValues m).
  { rewrite <- Hperm. eapply list_elem_of_lookup_2, Hup. }
  exists minV, maxV, upper. cbn zeta. rewrite Hsend. cbn [fst].
  split; [do 3 right; left|]. split; [do 2 right; left|].
  split; [do 5 right; left|]. split; [exact Hin|]. apply Hbounds, Hin.
Qed.

Lemma upper_between_min_and_max_witness :
  exists minV maxV upper,
    mkPoint "stats.timers.t.upper_90" upper "1700000000"
      ∈ fst (sendToGraphite insertionSort 90 tenSeconds shuffledTimer) /\
    notAbove minV upper /\ notAbove upper maxV.
Proof.
  assert (Hwin : 1 <= GoInt.sub (totalHits shuffledTimer)
                        (thresholdIndex 90 (totalHits shuffledTimer))
                 <= totalHits shuffledTimer)
    by (vm_compute; split; discriminate).
  assert (Hlen : Z.of_nat (length (allValues shuffledTimer)) <= GoInt.MaxInt)
    by (vm_compute; discriminate).
  assert (Hnan : Forall notNaN (allValues shuffledTimer))
    by (repeat constructor; discriminate).
  destruct (upper_between_min_and_max insertionSort 90 tenSeconds
              shuffledTimer insertionSort_perm
              (fun l _ => insertionSort_IsSorted l)
              eq_refl eq_refl Hlen Hnan Hwin)
    as (minV & maxV & upper & _ & _ & Hup & _ & Hlo & Hhi).
  exists minV, maxV, upper. split; [exact Hup|]. split; assumption.
Defined.

Lemma last_cumFrom l : forall x,
  last (x :: cumFrom x l) = Some (fold_left F32.add l x).
Proof.
  induction l as [|y l IH]; intros x; [reflexivity|].
  cbn [cumFrom fold_left].
  change (last (x :: F32.add x y :: cumFrom (F32.add x y) l))
    with (last (F32.add x y :: cumFrom (F32.add x y) l)).
  apply IH.
Qed.

Lemma add_zero_l x : x <> negZero -> F32.add F32.zero x = x.
Proof.
  unfold negZero. destruct x as [[|]| | |]; intros Hx;
    try reflexivity. contradiction Hx. reflexivity.
Qed.

(** X8. The loop of [sendToGraphite] over the sorted samples never indexes
    [cumulativeValues] out of range; it leaves one cumulative sum per
    sample, each the previous one plus the sample, and the running sum.
    The last cumulative sum is the sum of the samples added from the
    left, and equals the running [sum] unless the first sample is [-0],
    where [sum] is [+0] and the cumulative sum [-0]. *)
Theorem cumulate_refines (x : float32) (l : list float32) :
  cumulate 0 (x :: l) F32.zero [x]
  = emit_ret (sumOf (x :: l), cumSums (x :: l)) /\
  length (cumSums (x :: l)) = length (x :: l) /\
  last (cumSums (x :: l)) = Some (fold_left F32.add l x) /\
  (x <> negZero -> sumOf (x :: l) = fold_left F32.add l x) /\
  (sumOf [negZero] = F32.zero /\ cumSums [negZero] = [negZero]).
Proof.
  split; [|split; [|split; [|split]]].
  - cbn [cumulate]. rewrite (cumulate_succ l 0 _ [x] x); reflexivity.
  - apply length_cumSums.
  - apply last_cumFrom.
  - intros Hx. unfold sumOf. cbn [fold_left]. rewrite add_zero_l by assumption.
    reflexivity.
  - split; reflexivity.
Qed.

Lemma cumulate_refines_witness :
  sumOf (map f32 [1; 2; 3]) = f32 6 /\
  last (cumSums (map f32 [1; 2; 3])) = Some (f32 6).
Proof.
  destruct (cumulate_refines (f32 1) (map f32 [2; 3]))
    as (_ & _ & Hlast & Hsum & _).
  split.
  - change (map f32 [1; 2; 3]) with (f32 1 :: map f32 [2; 3]).
    rewrite Hsum by discriminate. reflexivity.
  - exact Hlast.
Defined.

(** ** The line pattern *)

Lemma append_assoc (a b c : string) : (a +:+ b) +:+ c = a +:+ b +:+ c.
Proof.
  induction a as [|x a IH]; [reflexivity|].
  change (String x ((a +:+ b) +:+ c) = String x (a +:+ b +:+ c)).
  f_equal. exact IH.
Qed.

Lemma append_nil_r (a : string) : a +:+ EmptyString = a.
Proof.
  induction a as [|x a IH]; [reflexivity|].
  change (String x (a +:+ EmptyString) = String x a). f_equal. exact IH.
Qed.

Lemma append_cons_assoc (a : string) c (b p : string) :
  (a +:+ String c b) +:+ p = a +:+ String c (b +:+ p).
Proof. rewrite append_assoc. reflexivity. Qed.

Lemma hasChar_append c a b :
  hasChar c (a +:+ b) = hasChar c a || hasChar c b.
Proof.
  induction a as [|x a IH]; simpl; [reflexivity|].
  rewrite IH. apply orb_assoc.
Qed.

Lemma isNewline_hasChar d s :
  hasChar newline (String d s) = false ->
  isNewline d = false /\ hasChar newline s = false.
Proof. simpl. intros H. apply orb_false_elim in H. exact H. Qed.

Lemma dotStar_split s : exists post, s = dotStar s +:+ post /\ lineEnd post.
Proof.
  induction s as [|c s (post & Hs & Hpost)].
  - exists EmptyString. split; [reflexivity|left; reflexivity].
  - cbn [dotStar]. destruct (isNewline c) eqn:Hc.
    + exists (String c s). split; [reflexivity|]. right. exists s.
      apply Ascii.eqb_eq in Hc. rewrite Hc. reflexivity.
    + exists post. split; [|exact Hpost].
      change (String c s = String c (dotStar s +:+ post)). f_equal. exact Hs.
Qed.

Lemma dotStar_no_newline s : hasChar newline (dotStar s) = false.
Proof.
  induction s as [|c s IH]; [reflexivity|]. cbn [dotStar].
  destruct (isNewline c) eqn:Hc; [reflexivity|]. simpl.
  unfold isNewline in Hc. fold newline in Hc. rewrite Hc. exact IH.
Qed.

Lemma dotStar_line t post :
  hasChar newline t = false -> lineEnd post -> dotStar (t +:+ post) = t.
Proof.
  intros Ht Hpost. induction t as [|c t IH].
  - destruct Hpost as [->|[r ->]]; reflexivity.
  - apply isNewline_hasChar in Ht as [Hc Ht]. simpl. rewrite Hc, IH by exact Ht.
    reflexivity.
Qed.

Lemma matchPipe_None_no_pipe s :
  matchPipe s = None -> hasChar pipe (dotStar s) = false.
Proof.
  induction s as [|c s IH]; [reflexivity|]. cbn [matchPipe dotStar].
  destruct (isNewline c); [reflexivity|].
  destruct (matchPipe s) as [[g2 g3]|]; [discriminate|].
  unfold pipe. simpl. destruct (Ascii.eqb c "|"); [discriminate|].
  intros _. apply IH. reflexivity.
Qed.

Lemma matchPipe_sound s : forall g2 g3,
  matchPipe s = Some (g2, g3) ->
  exists post,
    s = g2 +:+ String pipe (g3 +:+ post) /\ lineEnd post /\
    hasChar newline g2 = false /\ hasChar newline g3 = false /\
    hasChar pipe g3 = false.
Proof.
  induction s as [|c s IH]; intros g2 g3; [discriminate|].
  cbn [matchPipe]. destruct (isNewline c) eqn:Hc; [discriminate|].
  destruct (matchPipe s) as [[g2' g3']|] eqn:Hs.
  - intros [= <- <-].
    destruct (IH g2' g3' eq_refl) as (post & -> & Hpost & H2 & H3 & Hp).
    exists post. simpl. unfold isNewline in Hc. fold newline in Hc.
    rewrite Hc. repeat split; assumption.
  - destruct (Ascii.eqb_spec c "|") as [->|_]; [|discriminate].
    intros [= <- <-]. destruct (dotStar_split s) as (post & Hsplit & Hpost).
    exists post. simpl. rewrite <- Hsplit. repeat split;
      [assumption|apply dotStar_no_newline|apply matchPipe_None_no_pipe, Hs].
Qed.

Lemma matchPipe_no_pipe t post :
  hasChar newline t = false -> hasChar pipe t = false -> lineEnd post ->
  matchPipe (t +:+ post) = None.
Proof.
  intros Hn Hp Hpost. induction t as [|c t IH].
  - destruct Hpost as [->|[r ->]]; reflexivity.
  - apply isNewline_hasChar in Hn as [Hc Hn].
    simpl in Hp. apply orb_false_elim in Hp as [Hcp Hp].
    simpl. rewrite Hc, IH by assumption. unfold pipe in Hcp. rewrite Hcp.
    reflexivity.
Qed.

Lemma matchPipe_complete v t post :
  hasChar newline v = false -> hasChar newline t = false ->
  hasChar pipe t = false -> lineEnd post ->
  matchPipe (v +:+ String pipe (t +:+ post)) = Some (v, t).
Proof.
  intros Hv Ht Hp Hpost. induction v as [|c v IH].
  - simpl. rewrite matchPipe_no_pipe, dotStar_line by assumption. reflexivity.
  - apply isNewline_hasChar in Hv as [Hc Hv].
    simpl. rewrite Hc, IH by assumption. reflexivity.
Qed.

Lemma matchPipe_None_matchColon s : matchPipe s = None -> matchColon s = None.
Proof.
  induction s as [|c s IH]; [reflexivity|]. cbn [matchPipe matchColon].
  destruct (isNewline c); [reflexivity|].
  destruct (matchPipe s) as [[g2 g3]|]; [discriminate|].
  rewrite IH by reflexivity. destruct (Ascii.eqb c ":"); reflexivity.
Qed.

(** The second group holds no colon: the first group took the last colon
    that a pipe still follows. *)
Lemma matchColon_None_colon_free s : forall g2 g3,
  matchColon s = None -> matchPipe s = Some (g2, g3) ->
  hasChar colon g2 = false.
Proof.
  induction s as [|c s IH]; intros g2 g3; [discriminate|].
  cbn [matchColon matchPipe]. destruct (isNewline c); [discriminate|].
  destruct (matchColon s) as [[[h1 h2] h3]|] eqn:Hcol; [discriminate|].
  destruct (matchPipe s) as [[g2' g3']|] eqn:Hs.
  - destruct (Ascii.eqb c ":") eqn:Hc; [discriminate|].
    intros _ [= <- <-]. simpl. unfold colon. rewrite Hc.
    apply (IH g2' g3'); reflexivity.
  - intros _. destruct (Ascii.eqb c "|"); [|discriminate].
    intros [= <- <-]. reflexivity.
Qed.

Lemma matchColon_sound s : forall g1 g2 g3,
  matchColon s = Some (g1, g2, g3) ->
  exists post,
    s = g1 +:+ String colon (g2 +:+ String pipe (g3 +:+ post)) /\
    lineEnd post /\
    hasChar newline g1 = false /\ hasChar newline g2 = false /\
    hasChar newline g3 = false /\
    hasChar colon g2 = false /\ hasChar pipe g3 = false.
Proof.
  induction s as [|c s IH]; intros g1 g2 g3; [discriminate|].
  cbn [matchColon]. destruct (isNewline c) eqn:Hc; [discriminate|].
  destruct (matchColon s) as [[[h1 h2] h3]|] eqn:Hcol.
  - intros [= <- <- <-].
    destruct (IH h1 h2 h3 eq_refl) as (post & -> & Hpost & H1 & H2 & H3 & Hx).
    exists post. simpl. unfold isNewline in Hc. fold newline in Hc. rewrite Hc.
    repeat split; solve [assumption | apply Hx].
  - destruct (Ascii.eqb_spec c ":") as [->|_]; [|discriminate].
    destruct (matchPipe s) as [[h2 h3]|] eqn:Hs; [|discriminate].
    intros [= <- <- <-].
    destruct (matchPipe_sound s h2 h3 Hs) as (post & -> & Hpost & H2 & H3 & Hp).
    exists post. simpl. repeat split; try assumption.
    eapply matchColon_None_colon_free; eassumption.
Qed.

Lemma matchColon_value_None v t post :
  hasChar newline v = false -> hasChar colon v = false ->
  hasChar newline t = false -> hasChar pipe t = false -> lineEnd post ->
  matchColon (v +:+ String pipe (t +:+ post)) = None.
Proof.
  intros Hv Hvc Ht Hp Hpost. induction v as [|c v IH].
  - simpl. rewrite (matchPipe_None_matchColon (t +:+ post))
      by (apply matchPipe_no_pipe; assumption).
    reflexivity.
  - apply isNewline_hasChar in Hv as [Hc Hv].
    simpl in Hvc. apply orb_false_elim in Hvc as [Hcc Hvc].
    simpl. rewrite Hc, IH by assumption. unfold colon in Hcc. rewrite Hcc.
    reflexivity.
Qed.

Lemma matchColon_complete name v t post :
  hasChar newline name = false ->
  hasChar newline v = false -> hasChar colon v = false ->
  hasChar newline t = false -> hasChar pipe t = false -> lineEnd post ->
  matchColon (name +:+ String colon (v +:+ String pipe (t +:+ post)))
  = Some (name, v, t).
Proof.
  intros Hname Hv Hvc Ht Hp Hpost. induction name as [|c name IH].
  - simpl. rewrite matchColon_value_None, matchPipe_complete by assumption.
    reflexivity.
  - apply isNewline_hasChar in Hname as [Hc Hname].
    simpl. rewrite Hc, IH by assumption. reflexivity.
Qed.

Lemma matchColon_FindSubmatch s r :
  matchColon s = Some r -> FindSubmatch s = Some r.
Proof. intros H. destruct s; cbn [FindSubmatch]; rewrite H; reflexivity. Qed.

Lemma FindSubmatch_leftmost s : forall r,
  FindSubmatch s = Some r ->
  exists pre tail,
    s = pre +:+ tail /\ matchColon tail = Some r /\ lineStart pre.
Proof.
  induction s as [|c s IH]; intros r; [discriminate|].
  cbn [FindSubmatch]. destruct (matchColon (String c s)) as [r'|] eqn:Hc.
  - intros [= <-]. exists EmptyString, (String c s).
    split; [reflexivity|]. split; [exact Hc|left; reflexivity].
  - intros Hs. destruct (IH r Hs) as (pre & tail & -> & Htail & Hpre).
    exists (String c pre), tail. split; [reflexivity|]. split; [exact Htail|].
    right. destruct Hpre as [->|[p ->]].
    + exists EmptyString. change (EmptyString +:+ tail) with tail in Hc.
      cbn [matchColon] in Hc. rewrite Htail in Hc.
      destruct (isNewline c) eqn:Hnl; [|destruct r as [[? ?] ?]; discriminate].
      apply Ascii.eqb_eq in Hnl. rewrite Hnl. reflexivity.
    + exists (String c p). reflexivity.
Qed.

Lemma FindSubmatch_sound (s g1 g2 g3 : string) :
  FindSubmatch s = Some (g1, g2, g3) ->
  exists pre post,
    s = pre +:+ g1 +:+ String colon (g2 +:+ String pipe (g3 +:+ post)) /\
    lineStart pre /\ lineEnd post /\
    hasChar newline g1 = false /\ hasChar newline g2 = false /\
    hasChar newline g3 = false /\
    hasChar colon g2 = false /\ hasChar pipe g3 = false.
Proof.
  intros Hs.
  destruct (FindSubmatch_leftmost s _ Hs) as (pre & tail & -> & Htail & Hpre).
  destruct (matchColon_sound tail g1 g2 g3 Htail) as (post & -> & Hrest).
  exists pre, post. split; [reflexivity|]. split; [exact Hpre|exact Hrest].
Qed.

(** X9. When the pattern matches, the buffer reads: text that is empty or
    ends in a newline, the first group, a colon, the second group, a pipe,
    the third group, and then the end of the buffer or a newline.  No
    group holds a newline, the second group holds no colon and the third
    no pipe: the metric name runs up to the last colon that a pipe still
    follows on that line, and the type token follows the last pipe. *)
Theorem pattern_match_sound (s g1 g2 g3 : string) :
  FindSubmatch s = Some (g1, g2, g3) ->
  exists pre post,
    s = pre +:+ g1 +:+ String colon (g2 +:+ String pipe (g3 +:+ post)) /\
    lineStart pre /\ lineEnd post /\
    hasChar newline g1 = false /\ hasChar newline g2 = false /\
    hasChar newline g3 = false /\
    hasChar colon g2 = false /\ hasChar pipe g3 = false.
Proof. apply FindSubmatch_sound. Qed.

Lemma pattern_match_sound_witness :
  exists pre post,
    "x:1|c" = pre +:+ "x" +:+ String colon ("1" +:+ String pipe ("c" +:+ post)).
Proof.
  destruct (pattern_match_sound "x:1|c" "x" "1" "c" eq_refl)
    as (pre & post & Heq & _).
  exists pre, post. exact Heq.
Defined.

Lemma FindSubmatch_complete_at_start (name v t post : string) :
  hasChar newline name = false ->
  hasChar newline v = false -> hasChar colon v = false ->
  hasChar newline t = false -> hasChar pipe t = false -> lineEnd post ->
  FindSubmatch (name +:+ String colon (v +:+ String pipe (t +:+ post)))
  = Some (name, v, t).
Proof.
  intros. apply matchColon_FindSubmatch, matchColon_complete; assumption.
Qed.

(** X10. A line [name:value|token] at the start of the buffer, followed by
    its end or by a newline, is split back into its three parts whenever
    the name holds no newline, the value no newline and no colon, and the
    token no newline and no pipe; what follows the newline is ignored. *)
Theorem pattern_match_complete (name v t post : string) :
  hasChar newline name = false ->
  hasChar newline v = false -> hasChar colon v = false ->
  hasChar newline t = false -> hasChar pipe t = false -> lineEnd post ->
  FindSubmatch (name +:+ String colon (v +:+ String pipe (t +:+ post)))
  = Some (name, v, t).
Proof.
  intros. apply matchColon_FindSubmatch, matchColon_complete; assumption.
Qed.

Lemma pattern_match_complete_witness :
  FindSubmatch ("page.views" +:+ String colon
                  ("12" +:+ String pipe
                     ("ms" +:+ String newline "other:1|c")))
  = Some ("page.views", "12", "ms").
Proof.
  apply pattern_match_complete; try reflexivity. right. eexists. reflexivity.
Defined.

Lemma matchPipe_some b c :
  hasChar newline b = false -> matchPipe (b +:+ String pipe c) <> None.
Proof.
  intros Hb. induction b as [|x b IH].
  - simpl. destruct (matchPipe c) as [[? ?]|]; discriminate.
  - apply isNewline_hasChar in Hb as [Hx Hb]. simpl. rewrite Hx.
    destruct (matchPipe (b +:+ String pipe c)) as [[? ?]|];
      [discriminate|]. contradiction (IH Hb). reflexivity.
Qed.

Lemma FindSubmatch_append a s :
  FindSubmatch s <> None -> FindSubmatch (a +:+ s) <> None.
Proof.
  intros Hs. induction a as [|x a IH]; [exact Hs|].
  change (String x a +:+ s) with (String x (a +:+ s)). cbn [FindSubmatch].
  destruct (matchColon (String x (a +:+ s))); [discriminate|exact IH].
Qed.

(** X11. The pattern fails on a buffer exactly when no line of it holds a
    colon with a pipe somewhere after it on the same line. *)
Theorem pattern_no_match_iff (s : string) :
  FindSubmatch s = None <->
  ~ (exists a b c,
       s = a +:+ String colon (b +:+ String pipe c) /\
       hasChar newline b = false).
Proof.
  split.
  - intros Hnone (a & b & c & -> & Hb). revert Hnone.
    apply FindSubmatch_append.
    assert (Hc : matchColon (String colon (b +:+ String pipe c)) <> None).
    { simpl. destruct (matchColon (b +:+ String pipe c)) as [[[? ?] ?]|];
        [discriminate|].
      pose proof (matchPipe_some b c Hb) as Hp.
      destruct (matchPipe (b +:+ String pipe c)) as [[? ?]|];
        [discriminate|contradiction]. }
    destruct (matchColon (String colon (b +:+ String pipe c))) as [r|] eqn:E;
      [|contradiction].
    rewrite (matchColon_FindSubmatch _ r E). discriminate.
  - intros Hno. destruct (FindSubmatch s) as [[[g1 g2] g3]|] eqn:Hs;
      [|reflexivity].
    exfalso. apply Hno.
    destruct (FindSubmatch_sound s g1 g2 g3 Hs)
      as (pre & post & -> & _ & _ & _ & H2 & _).
    exists (pre +:+ g1), g2, (g3 +:+ post).
    split; [symmetry; apply append_assoc|exact H2].
Qed.

(** ** Sessions *)

Lemma shortTypeToLong_known t mt :
  shortTypeToLong t = (mt, None) -> knownType mt.
Proof.
  unfold shortTypeToLong, knownType.
  destruct (String.eqb "c" t); [intros [= <-]; auto|].
  destruct (String.eqb "g" t); [intros [= <-]; auto|].
  destruct (String.eqb "ms" t); [intros [= <-]; auto|discriminate].
Qed.

Lemma Set_storeTyped s k mt val :
  knownType mt -> storeTyped s -> storeTyped (fst (MetricStore_Set s k mt val)).
Proof.
  intros Hmt Hs k' m'. destruct (decide (k' = k)) as [->|Hne].
  - rewrite Set_lookup. intros [= <-].
    destruct (s !! k) as [m|] eqn:Hm; cbn; [exact (Hs _ _ Hm)|exact Hmt].
  - rewrite Set_lookup_other by assumption. apply Hs.
Qed.

Lemma Set_dom s k mt val : dom s ⊆ dom (fst (MetricStore_Set s k mt val)).
Proof. cbn. apply dom_insert_subseteq. Qed.

(** X12. Whatever is read, [handleRequest] keeps a store sound: metrics
    stay filed under their own key with as many hits as samples, every
    metric type in the store stays one of counter, gauge and timer, no key
    is ever removed, and the log only grows. *)
Theorem handleRequest_preserves (PF : string -> float64 * bool)
    (reads : list ReadResult) (s : MetricStore) (log : list LogEvent) :
  let r := handleRequest PF reads s log in
  (storeInv s -> storeInv (sessionStore r)) /\
  (storeKeyed s -> storeKeyed (sessionStore r)) /\
  (storeTyped s -> storeTyped (sessionStore r)) /\
  dom s ⊆ dom (sessionStore r) /\
  log `prefix_of` sessionLog r.
Proof.
  revert s log. induction reads as [|rd reads IH]; intros s log.
  { cbn. repeat split; try (intros H; exact H); reflexivity. }
  destruct rd as [data|];
    [|cbn; repeat split; try (intros H; exact H); reflexivity].
  cbn [handleRequest].
  destruct (FindSubmatch (bufferOf data)) as [[[metric val] tok]|].
  2:{ cbn. repeat split; try (intros H; exact H); try reflexivity.
      rewrite <- app_assoc. apply prefix_app_r. reflexivity. }
  destruct (shortTypeToLong (Trim (TrimSpace tok) NUL)) as [mt [e|]] eqn:Hty.
  - match goal with
    | |- context [handleRequest PF reads s ?l] =>
        destruct (IH s l) as (H1 & H2 & H3 & H4 & H5)
    end.
    cbn zeta. repeat split; try assumption.
    etransitivity; [|exact H5].
    rewrite <- !app_assoc. apply prefix_app_r. reflexivity.
  - destruct (PF val) as [value err].
    match goal with
    | |- context [handleRequest PF reads ?s' ?l] =>
        destruct (IH s' l) as (H1 & H2 & H3 & H4 & H5)
    end.
    cbn zeta. split; [|split; [|split; [|split]]].
    + intros Hs. apply H1, Set_storeInv, Hs.
    + intros Hs. apply H2, Set_storeKeyed, Hs.
    + intros Hs. apply H3, Set_storeTyped; [|exact Hs].
      eapply shortTypeToLong_known, Hty.
    + etransitivity; [apply Set_dom|exact H4].
    + etransitivity; [|exact H5].
      rewrite <- !app_assoc. apply prefix_app_r. reflexivity.
Qed.

Lemma handleRequest_preserves_witness :
  storeTyped (sessionStore
    (handleRequest parseFive [ReadData "foo:5|c"; ReadData "foo:5|x"]
                   NewMetricStore [])).
Proof.
  destruct (handleRequest_preserves parseFive
              [ReadData "foo:5|c"; ReadData "foo:5|x"] NewMetricStore [])
    as (_ & _ & Hty & _).
  apply Hty. intros k m. unfold NewMetricStore. rewrite lookup_empty.
  discriminate.
Defined.

(** X13. Reads compose: running [handleRequest] on [reads1 ++ reads2] is
    running it on [reads1] and, if it is then still waiting for input,
    going on with [reads2] from the store and the log reached; once it has
    returned, later reads change nothing. *)
Theorem handleRequest_app (PF : string -> float64 * bool)
    (reads1 reads2 : list ReadResult) (s : MetricStore)
    (log : list LogEvent) :
  handleRequest PF (reads1 ++ reads2) s log
  = let r := handleRequest PF reads1 s log in
    match sessionEnd r with
    | AwaitingRead =>
        handleRequest PF reads2 (sessionStore r) (sessionLog r)
    | _ => r
    end.
Proof.
  revert s log. induction reads1 as [|rd reads1 IH]; intros s log.
  { reflexivity. }
  destruct rd as [data|]; [|reflexivity].
  cbn [app handleRequest].
  destruct (FindSubmatch (bufferOf data)) as [[[metric val] tok]|];
    [|reflexivity].
  destruct (shortTypeToLong (Trim (TrimSpace tok) NUL)) as [mt [e|]].
  - apply IH.
  - destruct (PF val) as [value err]. apply IH.
Qed.

(** *** A well-formed line *)

Lemma substring_all (d : string) : forall m,
  (String.length d <= m)%nat -> String.substring 0 m d = d.
Proof.
  induction d as [|c d IH]; intros m Hm; [destruct m; reflexivity|].
  destruct m as [|m]; [cbn in Hm; lia|].
  cbn [String.substring]. f_equal. apply IH. cbn in Hm. lia.
Qed.

Lemma bufferOf_padded data :
  (String.length data <= 512)%nat ->
  bufferOf data = data +:+ nuls (512 - String.length data).
Proof. intros H. unfold bufferOf. rewrite substring_all by exact H. reflexivity. Qed.

Lemma hasChar_nuls c n : c <> NUL -> hasChar c (nuls n) = false.
Proof.
  intros Hc. unfold nuls. induction n as [|n IH]; [reflexivity|].
  cbn [repeat string_of_list_ascii hasChar]. rewrite IH, orb_false_r.
  apply Ascii.eqb_neq. congruence.
Qed.

Lemma string_of_list_ascii_app l1 l2 :
  string_of_list_ascii (l1 ++ l2)
  = string_of_list_ascii l1 +:+ string_of_list_ascii l2.
Proof.
  induction l1 as [|c l1 IH]; [reflexivity|].
  change (String c (string_of_list_ascii (l1 ++ l2))
          = String c (string_of_list_ascii l1 +:+ string_of_list_ascii l2)).
  f_equal. exact IH.
Qed.

Lemma list_ascii_of_string_app a b :
  list_ascii_of_string (a +:+ b)
  = list_ascii_of_string a ++ list_ascii_of_string b.
Proof.
  induction a as [|c a IH]; [reflexivity|].
  change (c :: list_ascii_of_string (a +:+ b)
          = c :: (list_ascii_of_string a ++ list_ascii_of_string b)).
  f_equal. exact IH.
Qed.

Lemma revString_app a b : revString (a +:+ b) = revString b +:+ revString a.
Proof.
  unfold revString.
  rewrite list_ascii_of_string_app, rev_app_distr.
  apply string_of_list_ascii_app.
Qed.

Lemma revString_involutive s : revString (revString s) = s.
Proof.
  unfold revString.
  rewrite list_ascii_of_string_of_list_ascii, rev_involutive.
  apply string_of_list_ascii_of_string.
Qed.

Lemma revString_nuls n : revString (nuls n) = nuls n.
Proof.
  unfold revString, nuls. rewrite list_ascii_of_string_of_list_ascii.
  f_equal. induction n as [|n IH]; [reflexivity|].
  cbn [repeat rev]. rewrite IH. clear IH.
  induction n as [|n IH]; [reflexivity|]. cbn. f_equal. exact IH.
Qed.

Lemma trimLeftBy_stop p1 p2 p3 c s :
  p1 c = false -> (forall d, p2 c d = false) ->
  (forall d e, p3 c d e = false) ->
  trimLeftBy p1 p2 p3 (String c s) = String c s.
Proof.
  intros H1 H2 H3. cbn [trimLeftBy]. rewrite H1.
  destruct s as [|d s]; [reflexivity|]. rewrite H2.
  destruct s as [|e s]; [reflexivity|]. rewrite H3. reflexivity.
Qed.

Lemma trimLeftBy_nuls n u :
  trimLeftBy (Ascii.eqb NUL) (fun _ _ => false) (fun _ _ _ => false)
             (nuls n +:+ u)
  = trimLeftBy (Ascii.eqb NUL) (fun _ _ => false) (fun _ _ _ => false) u.
Proof.
  induction n as [|n IH]; [reflexivity|].
  change (nuls (S n) +:+ u) with (String NUL (nuls n +:+ u)).
  cbn [trimLeftBy]. rewrite Ascii.eqb_refl. exact IH.
Qed.

Lemma space2_nul b : space2 b NUL = false.
Proof. unfold space2. cbn. apply andb_false_r. Qed.

Lemma space3_nul a b : space3 a b NUL = false.
Proof. unfold space3. cbn. rewrite !andb_false_r. reflexivity. Qed.

(** The trimming of a type token followed by the zero bytes of the
    buffer. *)
Lemma trim_token kind n :
  Trim (TrimSpace (shortName kind +:+ nuls n)) NUL = shortName kind.
Proof.
  assert (Hspace : TrimSpace (shortName kind +:+ nuls n)
                   = shortName kind +:+ nuls n).
  { destruct n as [|n]; [destruct kind; reflexivity|].
    unfold TrimSpace.
    replace (trimLeftBy space1 space2 space3 (shortName kind +:+ nuls (S n)))
      with (shortName kind +:+ nuls (S n))
      by (destruct kind; symmetry; apply trimLeftBy_stop;
          intros; reflexivity).
    rewrite revString_app, revString_nuls.
    change (nuls (S n) +:+ revString (shortName kind))
      with (String NUL (nuls n +:+ revString (shortName kind))).
    rewrite trimLeftBy_stop;
      [|reflexivity|intros; apply space2_nul|intros; apply space3_nul].
    change (String NUL (nuls n +:+ revString (shortName kind)))
      with (nuls (S n) +:+ revString (shortName kind)).
    rewrite revString_app, revString_involutive, revString_nuls.
    reflexivity. }
  rewrite Hspace. unfold Trim.
  replace (trimLeftBy (Ascii.eqb NUL) (fun _ _ => false) (fun _ _ _ => false)
             (shortName kind +:+ nuls n))
    with (shortName kind +:+ nuls n)
    by (destruct kind; symmetry; apply trimLeftBy_stop; intros; reflexivity).
  rewrite revString_app, revString_nuls, trimLeftBy_nuls.
  destruct kind; reflexivity.
Qed.

Lemma shortTypeToLong_kind kind :
  shortTypeToLong (shortName kind) = (kindName kind, None).
Proof. destruct kind; reflexivity. Qed.

Lemma lineFields_wellformed name v kind tail :
  hasChar newline name = false ->
  hasChar newline v = false -> hasChar colon v = false ->
  lineEnd tail ->
  let data :=
    name +:+ String colon (v +:+ String pipe (shortName kind +:+ tail)) in
  (String.length data <= 512)%nat ->
  lineFields data = Some (name, v, shortName kind).
Proof.
  intros Hname Hv Hvc Htail data Hlen. unfold lineFields.
  rewrite (bufferOf_padded data Hlen).
  generalize (512 - String.length data)%nat. intros n.
  set (pad := nuls n). unfold data. clear Hlen data.
  assert (Hk : hasChar newline (shortName kind) = false
               /\ hasChar pipe (shortName kind) = false)
    by (destruct kind; split; reflexivity).
  destruct Hk as [Hkn Hkp].
  destruct Htail as [->|[r ->]].
  - rewrite append_nil_r, !append_cons_assoc.
    pose proof (FindSubmatch_complete_at_start name v
                  (shortName kind +:+ pad) EmptyString) as Hfind.
    rewrite append_nil_r in Hfind. rewrite Hfind;
      [ | assumption..
        | rewrite hasChar_append, Hkn; apply hasChar_nuls; discriminate
        | rewrite hasChar_append, Hkp; apply hasChar_nuls; discriminate
        | left; reflexivity ].
    unfold pad. rewrite trim_token. reflexivity.
  - rewrite !append_cons_assoc.
    rewrite FindSubmatch_complete_at_start;
      [ | assumption.. | right; eexists; reflexivity ].
    destruct kind; reflexivity.
Qed.

(** X14. A read of at most 512 bytes that starts with a line
    [name:value|c] (or [g], or [ms]), with nothing after it or a newline
    and then anything, makes [handleRequest] call [Set] with the name, the
    kind of the token and the float32 of what [ParseFloat] returns for the
    value, log no warning, and go on with the next read.  The name may
    hold anything but a newline, the value anything but a newline and a
    colon. *)
Theorem wellformed_line_is_stored (PF : string -> float64 * bool)
    (name v : string) (kind : MetricKind) (tail : string)
    (reads : list ReadResult) (s : MetricStore) (log : list LogEvent) :
  hasChar newline name = false ->
  hasChar newline v = false -> hasChar colon v = false ->
  lineEnd tail ->
  let data :=
    name +:+ String colon (v +:+ String pipe (shortName kind +:+ tail)) in
  (String.length data <= 512)%nat ->
  handleRequest PF (ReadData data :: reads) s log
  = handleRequest PF reads
      (fst (MetricStore_Set s name (kindName kind)
                            (F32.of_float64 (fst (PF v)))))
      (((log ++ [TraceGot (Trim (bufferOf data) "010"%char)])
        ++ [TraceMetricType (kindName kind) (shortName kind)])
       ++ [TraceValue (kindName kind) name (fst (PF v))]).
Proof.
  intros Hname Hv Hvc Htail data Hlen.
  apply handleRequest_set; [|apply shortTypeToLong_kind].
  apply lineFields_wellformed; assumption.
Qed.

Lemma wellformed_line_is_stored_witness :
  sessionStore
    (handleRequest parseFive
       [ReadData ("foo" +:+ String colon
                    ("5" +:+ String pipe
                       (shortName Counter +:+ String newline "bar:5|g")))]
       NewMetricStore []) !! "foo"
  = Some (mkMetric "foo" "counter" 1 (f32 5) [f32 5] 0 0).
Proof.
  rewrite (wellformed_line_is_stored parseFive "foo" "5" Counter
             (String newline "bar:5|g") [] NewMetricStore []
             eq_refl eq_refl eq_refl
             (or_intror (ex_intro _ "bar:5|g" eq_refl))).
  - cbn [handleRequest sessionStore]. rewrite Set_lookup. reflexivity.
  - apply Nat.leb_le. vm_compute. reflexivity.
Defined.

(** ** The flush cycle, further *)

Lemma deletes_keyed now order s k :
  storeKeyed s -> iterationOrder s order ->
  deletes (flushQueue now order) k
  = match s !! k with
    | Some m => negb (String.eqb (metricType m) "gauge")
    | None => false
    end.
Proof.
  intros Hkeyed Horder.
  destruct (deletes (flushQueue now order) k) eqn:E.
  - apply deletes_flushQueue in E as (k' & m & Hin & Hty & Hkey).
    apply (iterationOrder_elem s) in Hin; [|exact Horder].
    pose proof (Hkeyed _ _ Hin) as Hk. rewrite Hkey in Hk. subst k'.
    rewrite Hin. destruct (String.eqb_spec (metricType m) "gauge");
      [contradiction|reflexivity].
  - destruct (s !! k) as [m|] eqn:Hm; [|reflexivity].
    destruct (String.eqb_spec (metricType m) "gauge") as [|Hty];
      [reflexivity|].
    assert (Hd : deletes (flushQueue now order) k = true).
    { apply deletes_flushQueue. exists k, m.
      split; [apply (iterationOrder_elem s), Hm; exact Horder|].
      split; [exact Hty|apply (Hkeyed _ _ Hm)]. }
    congruence.
Qed.

Lemma flushCycle_is_filter now order s :
  storeKeyed s -> iterationOrder s order ->
  flushCycle now order s = filter isGauge s.
Proof.
  intros Hkeyed Horder. apply map_eq. intros k.
  unfold flushCycle. rewrite queue_store_lookup, map_lookup_filter.
  rewrite (deletes_keyed now order s k Hkeyed Horder).
  destruct (s !! k) as [m|]; [|reflexivity]. cbn.
  destruct (String.eqb_spec (metricType m) "gauge") as [Hty|Hty]; cbn.
  - rewrite option_guard_True by exact Hty. reflexivity.
  - rewrite option_guard_False by exact Hty. reflexivity.
Qed.

(** X15. A flush cycle on a store whose metrics are filed under their own
    key leaves exactly the gauges of the store, each as it was; it sends
    one copy per metric of the store, whatever the order of the map
    iteration; and a second cycle right after it changes nothing. *)
Theorem flushCycle_keeps_gauges (now now' : nat -> Z)
    (order order' : list (string * Metric)) (s : MetricStore) :
  storeKeyed s ->
  iterationOrder s order ->
  iterationOrder (flushCycle now order s) order' ->
  flushCycle now order s = filter isGauge s /\
  length (flushQueue now order) = size s /\
  flushCycle now' order' (flushCycle now order s) = flushCycle now order s.
Proof.
  intros Hkeyed Horder Horder'. split; [|split].
  - apply flushCycle_is_filter; assumption.
  - unfold flushQueue, iterationOrder in *.
    rewrite length_imap, Horder. apply length_map_to_list.
  - assert (Hkeyed' : storeKeyed (flushCycle now order s))
      by (apply queue_storeKeyed, Hkeyed).
    rewrite (flushCycle_is_filter now' order' (flushCycle now order s)
               Hkeyed' Horder').
    rewrite (flushCycle_is_filter now order s Hkeyed Horder).
    apply map_eq. intros k. rewrite !map_lookup_filter.
    destruct (s !! k) as [m|]; [|reflexivity]. cbn.
    destruct (decide (isGauge (k, m))) as [Hg|Hg].
    + rewrite option_guard_True by exact Hg. cbn.
      rewrite option_guard_True by exact Hg. reflexivity.
    + rewrite option_guard_False by exact Hg. reflexivity.
Qed.

Lemma flushCycle_keeps_gauges_witness :
  flushCycle (fun _ => 0) (map_to_list mixedStore) mixedStore
  = filter isGauge mixedStore /\
  length (flushQueue (fun _ => 0) (map_to_list mixedStore)) = size mixedStore.
Proof.
  assert (Hkeyed : storeKeyed mixedStore)
    by (repeat apply Set_storeKeyed; apply storeKeyed_empty).
  destruct (flushCycle_keeps_gauges (fun _ => 0) (fun _ => 0)
              (map_to_list mixedStore)
              (map_to_list (flushCycle (fun _ => 0) (map_to_list mixedStore)
                                       mixedStore))
              mixedStore Hkeyed
              ltac:(unfold iterationOrder; reflexivity)
              ltac:(unfold iterationOrder; reflexivity))
    as (Hf & Hl & _).
  split; assumption.
Defined.

Lemma reachable_samples sort P ft sys :
  reachable sort P ft sys ->
  (forall k m, sysStore sys !! k = Some m -> allValues m <> []) /\
  Forall (fun m => allValues m <> []) (graphitePipeline sys).
Proof.
  induction 1 as [|sys sys' Hreach [IHs IHq] Hstep].
  - split; [|constructor]. intros k m. cbn. unfold NewMetricStore.
    rewrite lookup_empty. discriminate.
  - destruct Hstep as [sys k mt val|sys k metric now Hk Hcap|sys metric rest Hq];
      cbn [sysStore graphitePipeline].
    + split; [|exact IHq]. intros k' m'.
      destruct (decide (k' = k)) as [->|Hne].
      * rewrite Set_lookup. intros [= <-].
        destruct (sysStore sys !! k); cbn; [|discriminate].
        intros Happ. apply app_eq_nil in Happ as [_ Happ]. discriminate Happ.
      * rewrite Set_lookup_other by assumption. apply IHs.
    + split; [exact IHs|]. apply Forall_app. split; [exact IHq|].
      constructor; [|constructor]. cbn. apply (IHs _ _ Hk).
    + rewrite Hq in IHq. inversion IHq; subst. split; [|assumption].
      intros k m. unfold handleGraphiteQueue_store.
      destruct (negb (String.eqb (metricType metric) "gauge")); [|apply IHs].
      intros Hm. apply lookup_delete_Some in Hm as [_ Hm]. exact (IHs _ _ Hm).
Qed.

(** X16. However the goroutines interleave, every metric in the store and
    every copy waiting in the channel has at least one sample and is filed
    under its own key in the store: the engine is never handed a timer
    without samples. *)
Theorem reachable_metrics_have_samples
    (sortFloat32s : list float32 -> list float32)
    (percentile flushTimeFlag : Z) (sys : System) :
  reachable sortFloat32s percentile flushTimeFlag sys ->
  (forall k m, sysStore sys !! k = Some m ->
     allValues m <> [] /\ key m = k) /\
  Forall (fun m => allValues m <> []) (graphitePipeline sys).
Proof.
  intros Hreach.
  destruct (reachable_samples _ _ _ _ Hreach) as [Hs Hq].
  split; [|exact Hq]. intros k m Hm. split; [exact (Hs _ _ Hm)|].
  exact (reachable_storeKeyed _ _ _ _ Hreach _ _ Hm).
Qed.

Lemma reachable_metrics_have_samples_witness :
  allValues counter3 <> [].
Proof.
  assert (Hr : reachable insertionSort 90 tenSeconds oneSetSystem).
  { eapply reachable_step; [apply reachable_init|].
    apply (step_Set _ _ _ initialSystem "x" "counter" (f32 3)). }
  destruct (reachable_metrics_have_samples insertionSort 90 tenSeconds
              oneSetSystem Hr) as [Hs _].
  exact (proj1 (Hs "x" counter3 eq_refl)).
Defined.

(** ** [ByFloat32] *)

Lemma at32_in_range (a : list float32) i :
  0 <= i < Z.of_nat (length a) -> exists x, at32 a i = Some x.
Proof.
  intros Hi. unfold at32.
  destruct (Z.leb_spec 0 i); [|lia].
  destruct (Z.ltb_spec i (Z.of_nat (length a))); [|lia]. cbn.
  apply lookup_lt_is_Some_2. lia.
Qed.

Lemma at32_out_of_range (a : list float32) i :
  ~ (0 <= i < Z.of_nat (length a)) -> at32 a i = None.
Proof.
  intros Hi. unfold at32.
  destruct (Z.leb_spec 0 i); [|reflexivity].
  destruct (Z.ltb_spec i (Z.of_nat (length a))); [lia|reflexivity].
Qed.

Lemma at32_insert_eq (a : list float32) i x :
  0 <= i < Z.of_nat (length a) -> at32 (<[Z.to_nat i := x]> a) i = Some x.
Proof.
  intros Hi. unfold at32. rewrite length_insert.
  destruct (Z.leb_spec 0 i); [|lia].
  destruct (Z.ltb_spec i (Z.of_nat (length a))); [|lia]. cbn.
  apply list_lookup_insert_eq. lia.
Qed.

Lemma at32_insert_ne (a : list float32) i k x :
  0 <= i -> k <> i -> at32 (<[Z.to_nat i := x]> a) k = at32 a k.
Proof.
  intros Hi Hne. unfold at32. rewrite length_insert.
  destruct (Z.leb_spec 0 k); [|reflexivity].
  destruct (Z.ltb_spec k (Z.of_nat (length a))); [|reflexivity]. cbn.
  apply list_lookup_insert_ne. lia.
Qed.

(** X17. [Swap] on a [ByFloat32] panics exactly when one of the two
    indices is out of range.  Otherwise it exchanges the two elements and
    touches no other, keeps the length, only rearranges the slice, and a
    second [Swap] of the same indices restores the slice. *)
Theorem Swap_exchanges (a : list float32) (i j : Z) :
  (0 <= i < Len (T := ByFloat32) a -> 0 <= j < Len (T := ByFloat32) a ->
   exists a',
     Swap (T := ByFloat32) a i j = Some a' /\
     Len (T := ByFloat32) a' = Len (T := ByFloat32) a /\
     at32 a' i = at32 a j /\ at32 a' j = at32 a i /\
     (forall k, k <> i -> k <> j -> at32 a' k = at32 a k) /\
     a' ≡ₚ a /\
     Swap (T := ByFloat32) a' i j = Some a) /\
  (~ (0 <= i < Len (T := ByFloat32) a /\ 0 <= j < Len (T := ByFloat32) a) ->
   Swap (T := ByFloat32) a i j = None).
Proof.
  cbn [Len Swap ByFloat32_Interface]. split.
  - intros Hi Hj.
    destruct (at32_in_range a i Hi) as [x Hx].
    destruct (at32_in_range a j Hj) as [y Hy].
    rewrite Hx, Hy. eexists. split; [reflexivity|].
    assert (Hlen : length (<[Z.to_nat j := x]> (<[Z.to_nat i := y]> a))
                   = length a) by (rewrite !length_insert; reflexivity).
    assert (Hi' : at32 (<[Z.to_nat j := x]> (<[Z.to_nat i := y]> a)) i
                  = Some y).
    { destruct (decide (i = j)) as [->|Hne].
      - assert (x = y) by congruence. subst y.
        apply at32_insert_eq. rewrite length_insert. exact Hj.
      - rewrite at32_insert_ne by lia. apply at32_insert_eq, Hi. }
    assert (Hj' : at32 (<[Z.to_nat j := x]> (<[Z.to_nat i := y]> a)) j
                  = Some x)
      by (apply at32_insert_eq; rewrite length_insert; exact Hj).
    split; [rewrite Hlen; reflexivity|].
    split; [congruence|]. split; [congruence|].
    split; [intros k Hki Hkj; rewrite !at32_insert_ne by lia; reflexivity|].
    split.
    + apply (Swap_perm a _ i j). cbn [Swap ByFloat32_Interface].
      rewrite Hx, Hy. reflexivity.
    + rewrite Hi', Hj'. f_equal. apply list_eq. intros n.
      apply at32_Some in Hx as [_ Hx]. apply at32_Some in Hy as [_ Hy].
      destruct (decide (n = Z.to_nat j)) as [->|Hnj].
      * rewrite list_lookup_insert_eq by (rewrite !length_insert; lia).
        symmetry. exact Hy.
      * rewrite list_lookup_insert_ne by congruence.
        destruct (decide (n = Z.to_nat i)) as [->|Hni].
        -- rewrite list_lookup_insert_eq by (rewrite !length_insert; lia).
           symmetry. exact Hx.
        -- rewrite !list_lookup_insert_ne by congruence. reflexivity.
  - intros Hout.
    destruct (at32 a i) as [x|] eqn:Hx; [|reflexivity].
    destruct (at32 a j) as [y|] eqn:Hy; [|reflexivity].
    exfalso. apply Hout.
    apply at32_Some in Hx as [Hi Hx]. apply at32_Some in Hy as [Hj Hy].
    apply lookup_lt_Some in Hx, Hy. lia.
Qed.

Lemma Swap_exchanges_witness :
  Swap (T := ByFloat32) [f32 3; f32 1; f32 2] 0 2
  = Some [f32 2; f32 1; f32 3].
Proof.
  destruct (Swap_exchanges [f32 3; f32 1; f32 2] 0 2) as [Hin _].
  destruct Hin as (a' & Hswap & _ & _ & _ & _ & _ & _);
    [cbn; lia..|].
  rewrite Hswap. f_equal.
  cbn in Hswap. injection Hswap as <-. reflexivity.
Defined.

Lemma ltb_trans a b c :
  F32.ltb a b = true -> F32.ltb b c = true -> F32.ltb a c = true.
Proof.
  intros Hab Hbc.
  destruct (ltb_true_notNaN _ _ Hab) as [Na Nb].
  destruct (ltb_true_notNaN _ _ Hbc) as [_ Nc].
  apply ltb_rank; [assumption..|].
  apply ltb_rank in Hab; [|assumption..].
  apply ltb_rank in Hbc; [|assumption..].
  destruct (rank a) as [[ca ea] ma], (rank b) as [[cb eb] mb],
    (rank c) as [[cc ec] mc].
  cbn in *. lia.
Qed.

Lemma incomparable_trans a b c :
  notNaN a -> notNaN b -> notNaN c ->
  F32.ltb a b = false -> F32.ltb b a = false ->
  F32.ltb b c = false -> F32.ltb c b = false ->
  F32.ltb a c = false /\ F32.ltb c a = false.
Proof.
  intros Na Nb Nc Hab Hba Hbc Hcb.
  assert (H1 : ~ lexLt (rank a) (rank b))
    by (intros H; apply ltb_rank in H; [congruence|assumption..]).
  assert (H2 : ~ lexLt (rank b) (rank a))
    by (intros H; apply ltb_rank in H; [congruence|assumption..]).
  assert (H3 : ~ lexLt (rank b) (rank c))
    by (intros H; apply ltb_rank in H; [congruence|assumption..]).
  assert (H4 : ~ lexLt (rank c) (rank b))
    by (intros H; apply ltb_rank in H; [congruence|assumption..]).
  split.
  - destruct (F32.ltb a c) eqn:E; [|reflexivity].
    apply ltb_rank in E; [|assumption..].
    destruct (rank a) as [[ca ea] ma], (rank b) as [[cb eb] mb],
      (rank c) as [[cc ec] mc].
    cbn in *. lia.
  - destruct (F32.ltb c a) eqn:E; [|reflexivity].
    apply ltb_rank in E; [|assumption..].
    destruct (rank a) as [[ca ea] ma], (rank b) as [[cb eb] mb],
      (rank c) as [[cc ec] mc].
    cbn in *. lia.
Qed.

(** X18. On a slice without NaN, [Less] is the strict weak order that
    [sort.Sort] asks for: no element is less than itself, [Less] is
    asymmetric and transitive, and being neither less nor greater is
    transitive too.  With a NaN in the slice this last property fails: in
    1, NaN, 2 the NaN is neither less nor greater than its neighbours,
    yet 1 is less than 2. *)
Theorem Less_strict_weak_order (a : list float32) (i j k : Z)
    (x y z : float32) :
  Forall notNaN a ->
  at32 a i = Some x -> at32 a j = Some y -> at32 a k = Some z ->
  Less (T := ByFloat32) a i i = Some false /\
  (Less (T := ByFloat32) a i j = Some true ->
   Less (T := ByFloat32) a j i = Some false) /\
  (Less (T := ByFloat32) a i j = Some true ->
   Less (T := ByFloat32) a j k = Some true ->
   Less (T := ByFloat32) a i k = Some true) /\
  (Less (T := ByFloat32) a i j = Some false ->
   Less (T := ByFloat32) a j i = Some false ->
   Less (T := ByFloat32) a j k = Some false ->
   Less (T := ByFloat32) a k j = Some false ->
   Less (T := ByFloat32) a i k = Some false /\
   Less (T := ByFloat32) a k i = Some false) /\
  (Less (T := ByFloat32) withNaN 0 1 = Some false /\
   Less (T := ByFloat32) withNaN 1 0 = Some false /\
   Less (T := ByFloat32) withNaN 1 2 = Some false /\
   Less (T := ByFloat32) withNaN 2 1 = Some false /\
   Less (T := ByFloat32) withNaN 0 2 = Some true).
Proof.
  intros Hnan Hx Hy Hz. cbn [Less ByFloat32_Interface].
  rewrite Hx, Hy, Hz.
  assert (Hmem : forall n v, at32 a n = Some v -> notNaN v).
  { intros n v Hv. apply at32_Some in Hv as [_ Hv].
    rewrite Forall_forall in Hnan. apply Hnan.
    eapply list_elem_of_lookup_2, Hv. }
  pose proof (Hmem _ _ Hx) as Nx. pose proof (Hmem _ _ Hy) as Ny.
  pose proof (Hmem _ _ Hz) as Nz.
  split; [rewrite ltb_irrefl; reflexivity|].
  split; [intros [= H]; rewrite (ltb_asym _ _ H); reflexivity|].
  split; [intros [= H1] [= H2]; rewrite (ltb_trans _ _ _ H1 H2); reflexivity|].
  split; [|repeat split; reflexivity].
  intros [= H1] [= H2] [= H3] [= H4].
  destruct (incomparable_trans x y z Nx Ny Nz H1 H2 H3 H4) as [-> ->].
  split; reflexivity.
Qed.

Lemma Less_strict_weak_order_witness :
  Less (T := ByFloat32) [f32 1; f32 2; f32 3] 0 2 = Some true.
Proof.
  destruct (Less_strict_weak_order [f32 1; f32 2; f32 3] 0 1 2
              (f32 1) (f32 2) (f32 3)
              ltac:(repeat constructor; discriminate)
              eq_refl eq_refl eq_refl) as (_ & _ & Htrans & _).
  apply Htrans; reflexivity.
Defined.

(** ** Configuration *)

Lemma run_bind_inr {A B} (c : Run A) (k : A -> Run B) r :
  run_bind c k = inr r -> exists a, c = inr a /\ k a = inr r.
Proof. destruct c as [p|a]; [discriminate|]. intros H. exists a. split; [reflexivity|exact H]. Qed.

Lemma untouched_decide touched k :
  untouched touched k = if decide (k ∈ touched) then false else true.
Proof. unfold untouched. destruct (decide (k ∈ touched)) as [H|H].
  - rewrite bool_decide_eq_true_2 by exact H. reflexivity.
  - rewrite bool_decide_eq_false_2 by exact H. reflexivity.
Qed.

Section ConfigFacts.

Variable ParseDuration : string -> Z * option string.
Variables (touched : gset string) (m : gmap string Dyn).

Lemma applyString_value {get : Flags -> string} k set f f' :
  applyString k set touched m f = inr f' ->
  (forall f v, get (set f v) = v) ->
  stringSetting touched m k (get f) (get f').
Proof.
  intros H Hget; revert H. unfold applyString, stringSetting.
  rewrite untouched_decide. destruct (decide (k ∈ touched)).
  - rewrite andb_false_r. intros [= <-]. reflexivity.
  - rewrite andb_true_r. destruct (lookupKey m k); cbn;
      try discriminate; intros [= <-]; [reflexivity|].
    rewrite Hget. reflexivity.
Qed.

Lemma applyString_frame {T} (get : Flags -> T) k set f f' :
  applyString k set touched m f = inr f' ->
  (forall f v, get (set f v) = get f) -> get f' = get f.
Proof.
  intros H Hget; revert H. unfold applyString.
  destruct (notNil (lookupKey m k) && untouched touched k);
    [|intros [= <-]; reflexivity].
  destruct (lookupKey m k); cbn; try discriminate. intros [= <-]. apply Hget.
Qed.

Lemma applyString_ok k set f :
  (exists f', applyString k set touched m f = inr f') <-> okString touched m k.
Proof.
  unfold applyString, okString. rewrite untouched_decide.
  destruct (decide (k ∈ touched)) as [Hin|Hin].
  - rewrite andb_false_r. split; [intros _; left; exact Hin|].
    intros _. eexists. reflexivity.
  - rewrite andb_true_r. destruct (lookupKey m k); cbn;
      (split; [intros [f' H]; try discriminate H; right; exact I
              |intros [H|H]; try contradiction; eexists; reflexivity]).
Qed.

Lemma applyInt_value {get : Flags -> Z} k set f f' :
  applyInt k set touched m f = inr f' ->
  (forall f v, get (set f v) = v) ->
  intSetting touched m k (get f) (get f').
Proof.
  intros H Hget; revert H. unfold applyInt, intSetting.
  rewrite untouched_decide. destruct (decide (k ∈ touched)).
  - rewrite andb_false_r. intros [= <-]. reflexivity.
  - rewrite andb_true_r. destruct (lookupKey m k); cbn;
      try discriminate; intros [= <-]; [reflexivity|].
    rewrite Hget. reflexivity.
Qed.

Lemma applyInt_frame {T} (get : Flags -> T) k set f f' :
  applyInt k set touched m f = inr f' ->
  (forall f v, get (set f v) = get f) -> get f' = get f.
Proof.
  intros H Hget; revert H. unfold applyInt.
  destruct (notNil (lookupKey m k) && untouched touched k);
    [|intros [= <-]; reflexivity].
  destruct (lookupKey m k); cbn; try discriminate. intros [= <-]. apply Hget.
Qed.

Lemma applyInt_ok k set f :
  (exists f', applyInt k set touched m f = inr f') <-> okInt touched m k.
Proof.
  unfold applyInt, okInt. rewrite untouched_decide.
  destruct (decide (k ∈ touched)) as [Hin|Hin].
  - rewrite andb_false_r. split; [intros _; left; exact Hin|].
    intros _. eexists. reflexivity.
  - rewrite andb_true_r. destruct (lookupKey m k); cbn;
      (split; [intros [f' H]; try discriminate H; right; exact I
              |intros [H|H]; try contradiction; eexists; reflexivity]).
Qed.

Lemma applyFlushTime_value f f' :
  applyFlushTime ParseDuration touched m f = inr f' ->
  durationSetting ParseDuration touched m (flagFlushTime f) (flagFlushTime f').
Proof.
  unfold applyFlushTime, durationSetting.
  rewrite untouched_decide. destruct (decide ("flushTime" ∈ touched)).
  - rewrite andb_false_r. intros [= <-]. reflexivity.
  - rewrite andb_true_r. destruct (lookupKey m "flushTime") as [| |s| |]; cbn;
      try discriminate; [intros [= <-]; reflexivity|].
    destruct (ParseDuration s) as [ft [e|]] eqn:Hp; cbn; [discriminate|].
    intros [= <-]. exists s. split; [reflexivity|exact Hp].
Qed.

Lemma applyFlushTime_frame {T} (get : Flags -> T) f f' :
  applyFlushTime ParseDuration touched m f = inr f' ->
  (forall f v, get (setFlushTime f v) = get f) -> get f' = get f.
Proof.
  intros H Hget; revert H. unfold applyFlushTime.
  destruct (notNil (lookupKey m "flushTime") && untouched touched "flushTime");
    [|intros [= <-]; reflexivity].
  destruct (lookupKey m "flushTime") as [| |s| |]; cbn; try discriminate.
  destruct (ParseDuration s) as [ft [e|]]; cbn; [discriminate|].
  intros [= <-]. apply Hget.
Qed.

Lemma applyFlushTime_ok f :
  (exists f', applyFlushTime ParseDuration touched m f = inr f')
  <-> okDuration ParseDuration touched m.
Proof.
  unfold applyFlushTime, okDuration. rewrite untouched_decide.
  destruct (decide ("flushTime" ∈ touched)) as [Hin|Hin].
  - rewrite andb_false_r. split; [intros _; left; exact Hin|].
    intros _. eexists. reflexivity.
  - rewrite andb_true_r.
    destruct (lookupKey m "flushTime") as [| |s| |]; cbn;
      try (split; [intros [f' H]; try discriminate H; right; exact I
                  |intros [H|H]; try contradiction; eexists; reflexivity]).
    destruct (ParseDuration s) as [ft [e|]]; cbn.
    + split; [intros [f' H]; discriminate H|].
      intros [H|H]; [contradiction|discriminate H].
    + split; [intros _; right; reflexivity|]. intros _. eexists. reflexivity.
Qed.

Lemma applyDebug_value f f' :
  applyDebug m f = inr f' -> debugSetting m (flagDebug f) (flagDebug f').
Proof.
  unfold applyDebug, debugSetting.
  destruct (lookupKey m "debug"); cbn; try discriminate;
    intros [= <-]; reflexivity.
Qed.

Lemma applyDebug_frame {T} (get : Flags -> T) f f' :
  applyDebug m f = inr f' ->
  (forall f v, get (setDebug f v) = get f) -> get f' = get f.
Proof.
  intros H Hget; revert H. unfold applyDebug.
  destruct (lookupKey m "debug"); cbn; try discriminate;
    intros [= <-]; [reflexivity|apply Hget].
Qed.

Lemma applyDebug_ok f :
  (exists f', applyDebug m f = inr f') <-> okDebug m.
Proof.
  unfold applyDebug, okDebug.
  destruct (lookupKey m "debug"); cbn;
    (split; [intros [f' H]; try discriminate H; exact I
            |intros H; try contradiction; eexists; reflexivity]).
Qed.

End ConfigFacts.

(** The steps of a run of [loadConfig] that did not panic. *)
Lemma loadConfig_steps ReadFile Unmarshal ParseDuration f touched c f' m :
  loadConfig ReadFile Unmarshal ParseDuration f touched c = inr (f', m) ->
  snd (ReadFile c) = None /\
  Unmarshal (fst (ReadFile c)) = (m, None) /\
  exists f1 f2 f3 f4 f5 f6,
    applyDebug m f = inr f1 /\
    applyFlushTime ParseDuration touched m f1 = inr f2 /\
    applyString "host" setHost touched m f2 = inr f3 /\
    applyInt "port" setPort touched m f3 = inr f4 /\
    applyString "graphiteHost" setGraphiteHost touched m f4 = inr f5 /\
    applyInt "graphitePort" setGraphitePort touched m f5 = inr f6 /\
    applyInt "percentile" setPercentile touched m f6 = inr f'.
Proof.
  unfold loadConfig. destruct (ReadFile c) as [contents [e|]]; [discriminate|].
  cbn [checkError run_bind fst snd].
  destruct (Unmarshal contents) as [m' [e|]]; [discriminate|].
  cbn [checkError run_bind].
  intros H.
  apply run_bind_inr in H as (f1 & H1 & H).
  apply run_bind_inr in H as (f2 & H2 & H).
  apply run_bind_inr in H as (f3 & H3 & H).
  apply run_bind_inr in H as (f4 & H4 & H).
  apply run_bind_inr in H as (f5 & H5 & H).
  apply run_bind_inr in H as (f6 & H6 & H).
  apply run_bind_inr in H as (f7 & H7 & H).
  injection H as -> ->.
  split; [reflexivity|]. split; [reflexivity|].
  exists f1, f2, f3, f4, f5, f6. repeat split; assumption.
Qed.

Local Ltac frame_of get H :=
  first
    [ pose proof (applyDebug_frame _ get _ _ H (fun _ _ => eq_refl))
    | pose proof (applyFlushTime_frame _ _ _ get _ _ H (fun _ _ => eq_refl))
    | pose proof (applyString_frame _ _ get _ _ _ _ H (fun _ _ => eq_refl))
    | pose proof (applyInt_frame _ _ get _ _ _ _ H (fun _ _ => eq_refl))
    | idtac ].

Local Ltac frames_of H :=
  frame_of flagConfig H; frame_of flagDebug H; frame_of flagHost H;
  frame_of flagPort H; frame_of flagGraphiteHost H;
  frame_of flagGraphitePort H; frame_of flagFlushTime H;
  frame_of flagPercentile H.

(** X19. When [loadConfig] returns, every setting but [debug] follows one
    rule: a flag given on the command line keeps its value whatever the
    file says, a flag not given takes the value the file has for its key,
    and keeps its value when the file has none; the flush time of the file
    is what [time.ParseDuration] makes of its text.  The path of the
    configuration file itself is not changed. *)
Theorem loadConfig_precedence
    (ReadFile : string -> string * option string)
    (Unmarshal : string -> gmap string Dyn * option string)
    (ParseDuration : string -> Z * option string)
    (f : Flags) (touched : gset string) (c : string)
    (f' : Flags) (m : gmap string Dyn) :
  loadConfig ReadFile Unmarshal ParseDuration f touched c = inr (f', m) ->
  m = fst (Unmarshal (fst (ReadFile c))) /\
  flagConfig f' = flagConfig f /\
  stringSetting touched m "host" (flagHost f) (flagHost f') /\
  intSetting touched m "port" (flagPort f) (flagPort f') /\
  stringSetting touched m "graphiteHost"
                (flagGraphiteHost f) (flagGraphiteHost f') /\
  intSetting touched m "graphitePort"
             (flagGraphitePort f) (flagGraphitePort f') /\
  intSetting touched m "percentile" (flagPercentile f) (flagPercentile f') /\
  durationSetting ParseDuration touched m (flagFlushTime f) (flagFlushTime f').
Proof.
  intros Hload.
  destruct (loadConfig_steps _ _ _ _ _ _ _ _ Hload)
    as (_ & Hm & f1 & f2 & f3 & f4 & f5 & f6
        & H1 & H2 & H3 & H4 & H5 & H6 & H7).
  pose proof (applyFlushTime_value _ _ _ _ _ H2) as V2.
  pose proof (applyString_value (get := flagHost) _ _ _ _ _ _
                H3 (fun _ _ => eq_refl)) as V3.
  pose proof (applyInt_value (get := flagPort) _ _ _ _ _ _
                H4 (fun _ _ => eq_refl)) as V4.
  pose proof (applyString_value (get := flagGraphiteHost) _ _ _ _ _ _
                H5 (fun _ _ => eq_refl)) as V5.
  pose proof (applyInt_value (get := flagGraphitePort) _ _ _ _ _ _
                H6 (fun _ _ => eq_refl)) as V6.
  pose proof (applyInt_value (get := flagPercentile) _ _ _ _ _ _
                H7 (fun _ _ => eq_refl)) as V7.
  frames_of H1; frames_of H2; frames_of H3; frames_of H4; frames_of H5;
    frames_of H6; frames_of H7.
  split; [rewrite Hm; reflexivity|].
  split; [congruence|].
  replace (flagHost f) with (flagHost f2) by congruence.
  replace (flagHost f') with (flagHost f3) by congruence.
  replace (flagPort f) with (flagPort f3) by congruence.
  replace (flagPort f') with (flagPort f4) by congruence.
  replace (flagGraphiteHost f) with (flagGraphiteHost f4) by congruence.
  replace (flagGraphiteHost f') with (flagGraphiteHost f5) by congruence.
  replace (flagGraphitePort f) with (flagGraphitePort f5) by congruence.
  replace (flagGraphitePort f') with (flagGraphitePort f6) by congruence.
  replace (flagPercentile f) with (flagPercentile f6) by congruence.
  replace (flagFlushTime f) with (flagFlushTime f1) by congruence.
  replace (flagFlushTime f') with (flagFlushTime f2) by congruence.
  repeat split; assumption.
Qed.

Lemma loadConfig_precedence_witness :
  exists f' m,
    loadConfig exampleReadFile exampleUnmarshal exampleParseDuration
               exampleFlags exampleTouched "config.yml" = inr (f', m) /\
    stringSetting exampleTouched m "host" (flagHost exampleFlags) (flagHost f')
    /\ intSetting exampleTouched m "port" (flagPort exampleFlags) (flagPort f')
    /\ flagHost f' = "stats.example" /\ flagPort f' = 7000.
Proof.
  eexists. eexists.
  assert (Hrun : loadConfig exampleReadFile exampleUnmarshal
                   exampleParseDuration exampleFlags exampleTouched
                   "config.yml"
                 = inr (mkFlags "config.yml" false "stats.example" 7000
                                "localhost" 5001 5000000000 90,
                        fst (exampleUnmarshal "yaml")))
    by (vm_compute; reflexivity).
  split; [exact Hrun|].
  destruct (loadConfig_precedence _ _ _ _ _ _ _ _ Hrun)
    as (_ & _ & Hh & Hp & _).
  split; [exact Hh|]. split; [exact Hp|]. split; reflexivity.
Defined.

(** X20. The [debug] switch does not follow that rule: whenever the file
    has a value for [debug], [loadConfig] puts it into the flag, also when
    [-debug] was given on the command line; only a file without the key
    leaves the flag alone. *)
Theorem loadConfig_debug_from_file
    (ReadFile : string -> string * option string)
    (Unmarshal : string -> gmap string Dyn * option string)
    (ParseDuration : string -> Z * option string)
    (f : Flags) (touched : gset string) (c : string)
    (f' : Flags) (m : gmap string Dyn) :
  loadConfig ReadFile Unmarshal ParseDuration f touched c = inr (f', m) ->
  debugSetting m (flagDebug f) (flagDebug f').
Proof.
  intros Hload.
  destruct (loadConfig_steps _ _ _ _ _ _ _ _ Hload)
    as (_ & Hm & f1 & f2 & f3 & f4 & f5 & f6
        & H1 & H2 & H3 & H4 & H5 & H6 & H7).
  pose proof (applyDebug_value _ _ _ H1) as V1.
  frames_of H2; frames_of H3; frames_of H4; frames_of H5; frames_of H6;
    frames_of H7.
  replace (flagDebug f') with (flagDebug f1) by congruence. exact V1.
Qed.

Lemma loadConfig_debug_from_file_witness :
  "debug" ∈ exampleTouched /\ flagDebug exampleFlags = true /\
  exists f' m,
    loadConfig exampleReadFile exampleUnmarshal exampleParseDuration
               exampleFlags exampleTouched "config.yml" = inr (f', m) /\
    debugSetting m (flagDebug exampleFlags) (flagDebug f') /\
    flagDebug f' = false.
Proof.
  split; [vm_compute; reflexivity|]. split; [reflexivity|].
  eexists. eexists.
  assert (Hrun : loadConfig exampleReadFile exampleUnmarshal
                   exampleParseDuration exampleFlags exampleTouched
                   "config.yml"
                 = inr (mkFlags "config.yml" false "stats.example" 7000
                                "localhost" 5001 5000000000 90,
                        fst (exampleUnmarshal "yaml")))
    by (vm_compute; reflexivity).
  split; [exact Hrun|].
  split; [exact (loadConfig_debug_from_file _ _ _ _ _ _ _ _ Hrun)|].
  reflexivity.
Defined.

(** X21. [loadConfig] panics exactly when the file cannot be read, when it
    is not YAML, when [debug] holds something other than a boolean, when a
    flag not given on the command line meets a value of the wrong type
    (a string for the hosts and the flush time, an integer for the ports
    and the percentile), or when the flush time does not parse.  A value of
    the wrong type for a flag given on the command line is never looked
    at. *)
Theorem loadConfig_returns_iff
    (ReadFile : string -> string * option string)
    (Unmarshal : string -> gmap string Dyn * option string)
    (ParseDuration : string -> Z * option string)
    (f : Flags) (touched : gset string) (c : string) :
  (exists r,
     loadConfig ReadFile Unmarshal ParseDuration f touched c = inr r) <->
  snd (ReadFile c) = None /\
  snd (Unmarshal (fst (ReadFile c))) = None /\
  let m := fst (Unmarshal (fst (ReadFile c))) in
  okDebug m /\ okDuration ParseDuration touched m /\
  okString touched m "host" /\ okInt touched m "port" /\
  okString touched m "graphiteHost" /\ okInt touched m "graphitePort" /\
  okInt touched m "percentile".
Proof.
  split.
  - intros [[f' m] Hload].
    destruct (loadConfig_steps _ _ _ _ _ _ _ _ Hload)
      as (Hread & Hm & f1 & f2 & f3 & f4 & f5 & f6
          & H1 & H2 & H3 & H4 & H5 & H6 & H7).
    rewrite Hm. cbn [fst snd]. split; [exact Hread|]. split; [reflexivity|].
    split; [eapply applyDebug_ok; eexists; exact H1|].
    split; [eapply applyFlushTime_ok; eexists; exact H2|].
    split; [eapply applyString_ok; eexists; exact H3|].
    split; [eapply applyInt_ok; eexists; exact H4|].
    split; [eapply applyString_ok; eexists; exact H5|].
    split; [eapply applyInt_ok; eexists; exact H6|].
    eapply applyInt_ok; eexists; exact H7.
  - unfold loadConfig.
    destruct (ReadFile c) as [contents e1]. cbn [fst snd].
    destruct (Unmarshal contents) as [m e2]. cbn [fst snd].
    intros (-> & -> & Hd & Hf & Hh & Hp & Hgh & Hgp & Hpc).
    cbn [checkError run_bind].
    destruct (proj2 (applyDebug_ok m f) Hd) as [f1 ->]. cbn [run_bind].
    destruct (proj2 (applyFlushTime_ok ParseDuration touched m f1) Hf)
      as [f2 ->]. cbn [run_bind].
    destruct (proj2 (applyString_ok touched m "host" setHost f2) Hh)
      as [f3 ->]. cbn [run_bind].
    destruct (proj2 (applyInt_ok touched m "port" setPort f3) Hp)
      as [f4 ->]. cbn [run_bind].
    destruct (proj2 (applyString_ok touched m "graphiteHost"
                       setGraphiteHost f4) Hgh) as [f5 ->]. cbn [run_bind].
    destruct (proj2 (applyInt_ok touched m "graphitePort"
                       setGraphitePort f5) Hgp) as [f6 ->]. cbn [run_bind].
    destruct (proj2 (applyInt_ok touched m "percentile" setPercentile f6) Hpc)
      as [f7 ->]. cbn [run_bind].
    eexists. reflexivity.
Qed.

Lemma applyDebug_inl m f p :
  applyDebug m f = inl p -> p = PanicTypeAssertion "debug".
Proof.
  unfold applyDebug. destruct (lookupKey m "debug"); cbn;
    try discriminate; intros [= <-]; reflexivity.
Qed.

Lemma applyString_inl k set touched m f p :
  applyString k set touched m f = inl p -> p = PanicTypeAssertion k.
Proof.
  unfold applyString.
  destruct (notNil (lookupKey m k) && untouched touched k); [|discriminate].
  destruct (lookupKey m k); cbn; try discriminate; intros [= <-]; reflexivity.
Qed.

Lemma applyInt_inl k set touched m f p :
  applyInt k set touched m f = inl p -> p = PanicTypeAssertion k.
Proof.
  unfold applyInt.
  destruct (notNil (lookupKey m k) && untouched touched k); [|discriminate].
  destruct (lookupKey m k); cbn; try discriminate; intros [= <-]; reflexivity.
Qed.

Lemma applyFlushTime_message ParseDuration touched m f msg :
  applyFlushTime ParseDuration touched m f = inl (PanicMessage msg) <->
  ("flushTime" ∉ touched) /\
  exists s e, lookupKey m "flushTime" = DString s /\
              snd (ParseDuration s) = Some e /\
              msg = "ERROR: Could not parse flushTime " +:+ e.
Proof.
  unfold applyFlushTime. rewrite untouched_decide.
  destruct (decide ("flushTime" ∈ touched)) as [Hin|Hin].
  - rewrite andb_false_r. split; [discriminate|]. intros [H _]. contradiction.
  - rewrite andb_true_r.
    destruct (lookupKey m "flushTime") as [| |s| |]; cbn;
      try (split; [discriminate|]; intros (_ & s' & e & H & _); discriminate H).
    destruct (ParseDuration s) as [ft [e|]] eqn:Hp; cbn.
    + split.
      * intros [= <-]. split; [exact Hin|]. exists s, e.
        split; [reflexivity|]. rewrite Hp. split; reflexivity.
      * intros (_ & s' & e' & [= <-] & He & ->). rewrite Hp in He.
        injection He as <-. reflexivity.
    + split; [discriminate|].
      intros (_ & s' & e' & [= <-] & He & _). rewrite Hp in He.
      discriminate He.
Qed.

(** X22. A panic of [loadConfig] that carries a message comes from one of
    its three error checks and from nowhere else: the file could not be
    read, its content is not YAML, or the flush time of the file, a string
    for a flag not given on the command line, does not parse (this last
    after a [debug] value that is absent or a boolean).  The message is
    [ERROR: ], what was being done, a space and the text of the error. *)
Theorem loadConfig_panic_messages
    (ReadFile : string -> string * option string)
    (Unmarshal : string -> gmap string Dyn * option string)
    (ParseDuration : string -> Z * option string)
    (f : Flags) (touched : gset string) (c : string) (msg : string) :
  loadConfig ReadFile Unmarshal ParseDuration f touched c
    = inl (PanicMessage msg) <->
  (exists e, snd (ReadFile c) = Some e /\
             msg = "ERROR: Config file could not be read " +:+ e) \/
  (exists e, snd (ReadFile c) = None /\
             snd (Unmarshal (fst (ReadFile c))) = Some e /\
             msg = "ERROR: YAML error processing config file " +:+ e) \/
  (exists s e,
     snd (ReadFile c) = None /\
     snd (Unmarshal (fst (ReadFile c))) = None /\
     okDebug (fst (Unmarshal (fst (ReadFile c)))) /\
     ("flushTime" ∉ touched) /\
     lookupKey (fst (Unmarshal (fst (ReadFile c)))) "flushTime" = DString s /\
     snd (ParseDuration s) = Some e /\
     msg = "ERROR: Could not parse flushTime " +:+ e).
Proof.
  unfold loadConfig.
  destruct (ReadFile c) as [contents [e1|]]; cbn [fst snd checkError run_bind].
  { split.
    - intros [= <-]. left. exists e1. split; reflexivity.
    - intros [(e & [= <-] & ->)|[(e & H & _)|(s & e & H & _)]];
        [reflexivity|discriminate H|discriminate H]. }
  destruct (Unmarshal contents) as [m [e2|]];
    cbn [fst snd checkError run_bind].
  { split.
    - intros [= <-]. right. left. exists e2.
      split; [reflexivity|]. split; reflexivity.
    - intros [(e & H & _)|[(e & _ & [= <-] & ->)|(s & e & _ & H & _)]];
        [discriminate H|reflexivity|discriminate H]. }
  destruct (applyDebug m f) as [p|f1] eqn:H1; cbn [run_bind].
  { apply applyDebug_inl in H1 as H1'. subst p. split; [discriminate|].
    intros [(e & H & _)|[(e & _ & H & _)|(s & e & _ & _ & Hd & _)]];
      [discriminate H|discriminate H|].
    apply (applyDebug_ok m f) in Hd as [f1 Hd]. rewrite Hd in H1.
    discriminate H1. }
  assert (Hd : okDebug m) by (apply (applyDebug_ok m f); eexists; exact H1).
  destruct (applyFlushTime ParseDuration touched m f1) as [p|f2] eqn:H2;
    cbn [run_bind].
  { split.
    - intros [= ->]. apply applyFlushTime_message in H2 as (Hin & s & e & Hs & He & ->).
      right. right. exists s, e. repeat split; assumption || reflexivity.
    - intros [(e & H & _)|[(e & _ & H & _)|(s & e & _ & _ & _ & Hin & Hs & He & ->)]];
        [discriminate H|discriminate H|].
      assert (H2' : applyFlushTime ParseDuration touched m f1
                    = inl (PanicMessage
                             ("ERROR: Could not parse flushTime " +:+ e))).
      { apply applyFlushTime_message. split; [exact Hin|].
        exists s, e. repeat split; assumption. }
      rewrite H2' in H2. injection H2 as <-. reflexivity. }
  assert (Hno : forall s e,
             ~ (("flushTime" ∉ touched) /\
                lookupKey m "flushTime" = DString s /\
                snd (ParseDuration s) = Some e)).
  { intros s e (Hin & Hs & He).
    assert (H2' : applyFlushTime ParseDuration touched m f1
                  = inl (PanicMessage
                           ("ERROR: Could not parse flushTime " +:+ e))).
    { apply applyFlushTime_message. split; [exact Hin|].
      exists s, e. repeat split; assumption. }
    rewrite H2' in H2. discriminate H2. }
  split.
  - intros H.
    destruct (applyString "host" setHost touched m f2) as [p|f3] eqn:H3;
      cbn [run_bind] in H;
      [apply applyString_inl in H3; subst p; discriminate H|].
    destruct (applyInt "port" setPort touched m f3) as [p|f4] eqn:H4;
      cbn [run_bind] in H;
      [apply applyInt_inl in H4; subst p; discriminate H|].
    destruct (applyString "graphiteHost" setGraphiteHost touched m f4)
      as [p|f5] eqn:H5; cbn [run_bind] in H;
      [apply applyString_inl in H5; subst p; discriminate H|].
    destruct (applyInt "graphitePort" setGraphitePort touched m f5)
      as [p|f6] eqn:H6; cbn [run_bind] in H;
      [apply applyInt_inl in H6; subst p; discriminate H|].
    destruct (applyInt "percentile" setPercentile touched m f6)
      as [p|f7] eqn:H7; cbn [run_bind] in H;
      [apply applyInt_inl in H7; subst p; discriminate H|].
    discriminate H.
  - intros [(e & H & _)|[(e & _ & H & _)|(s & e & _ & _ & _ & Hin & Hs & He & _)]];
      [discriminate H|discriminate H|].
    exfalso. apply (Hno s e). repeat split; assumption.
Qed.

(** ** The start of [main] *)

Lemma mainStartup_steps ReadFile Unmarshal ParseDuration Listen f touched st :
  mainStartup ReadFile Unmarshal ParseDuration Listen f touched = inr st ->
  loadConfig ReadFile Unmarshal ParseDuration f touched (flagConfig f)
    = inr (settings st, configMap st) /\
  traceOn st = flagDebug f /\
  listenAddr st
    = flagHost (settings st) +:+ ":" +:+ GoInt.Itoa (flagPort (settings st)) /\
  Listen (listenAddr st) = None.
Proof.
  unfold mainStartup. intros H.
  apply run_bind_inr in H as ([f' m] & Hload & H).
  destruct (Listen (flagHost f' +:+ ":" +:+ GoInt.Itoa (flagPort f')))
    as [e|] eqn:HL; [discriminate H|].
  cbn [checkError run_bind] in H. injection H as <-.
  cbn [settings configMap traceOn listenAddr].
  split; [exact Hload|]. split; [reflexivity|]. split; [reflexivity|exact HL].
Qed.

(** X23. Whether [main] lets the trace log write to the standard output is
    decided by the [-debug] flag of the command line alone, since the logs
    are set up before the file is read: a [debug] value in the file changes
    the flag (to the file's value, see X20) but not the trace log. *)
Theorem mainStartup_trace
    (ReadFile : string -> string * option string)
    (Unmarshal : string -> gmap string Dyn * option string)
    (ParseDuration : string -> Z * option string)
    (Listen : string -> option string)
    (f : Flags) (touched : gset string) (st : Startup) :
  mainStartup ReadFile Unmarshal ParseDuration Listen f touched = inr st ->
  traceOn st = flagDebug f /\
  debugSetting (configMap st) (flagDebug f) (flagDebug (settings st)).
Proof.
  intros H. apply mainStartup_steps in H as (Hload & Ht & _ & _).
  split; [exact Ht|].
  destruct (loadConfig_steps _ _ _ _ _ _ _ _ Hload)
    as (_ & Hm & f1 & f2 & f3 & f4 & f5 & f6
        & H1 & H2 & H3 & H4 & H5 & H6 & H7).
  pose proof (applyDebug_value _ _ _ H1) as V1.
  frames_of H2; frames_of H3; frames_of H4; frames_of H5; frames_of H6;
    frames_of H7.
  replace (flagDebug (settings st)) with (flagDebug f1) by congruence.
  exact V1.
Qed.

Lemma mainStartup_trace_witness :
  exists st,
    mainStartup exampleReadFile exampleUnmarshal exampleParseDuration
                exampleListen exampleFlags exampleTouched = inr st /\
    traceOn st = true /\ flagDebug (settings st) = false /\
    debugSetting (configMap st) (flagDebug exampleFlags)
                 (flagDebug (settings st)).
Proof.
  eexists.
  assert (Hrun : mainStartup exampleReadFile exampleUnmarshal
                   exampleParseDuration exampleListen exampleFlags
                   exampleTouched
                 = inr (mkStartup true "stats.example:7000"
                          (mkFlags "config.yml" false "stats.example" 7000
                                   "localhost" 5001 5000000000 90)
                          (fst (exampleUnmarshal "yaml"))))
    by (vm_compute; reflexivity).
  split; [exact Hrun|].
  destruct (mainStartup_trace _ _ _ _ _ _ _ Hrun) as [Ht Hd].
  split; [exact Ht|]. split; [reflexivity|exact Hd].
Defined.

(** X24. The address [main] listens on is [host:port] with the port in
    decimal, where host and port are each the value of the command line
    when the flag was given there, else the value of the file when it has
    one, else the default; and [net.Listen] accepted that address. *)
Theorem mainStartup_listen_address
    (ReadFile : string -> string * option string)
    (Unmarshal : string -> gmap string Dyn * option string)
    (ParseDuration : string -> Z * option string)
    (Listen : string -> option string)
    (f : Flags) (touched : gset string) (st : Startup) :
  mainStartup ReadFile Unmarshal ParseDuration Listen f touched = inr st ->
  exists h p,
    listenAddr st = h +:+ ":" +:+ GoInt.Itoa p /\
    stringSetting touched (configMap st) "host" (flagHost f) h /\
    intSetting touched (configMap st) "port" (flagPort f) p /\
    Listen (listenAddr st) = None.
Proof.
  intros H. apply mainStartup_steps in H as (Hload & _ & Ha & HL).
  exists (flagHost (settings st)), (flagPort (settings st)).
  split; [exact Ha|].
  destruct (loadConfig_steps _ _ _ _ _ _ _ _ Hload)
    as (_ & Hm & f1 & f2 & f3 & f4 & f5 & f6
        & H1 & H2 & H3 & H4 & H5 & H6 & H7).
  pose proof (applyString_value (get := flagHost) _ _ _ _ _ _
                H3 (fun _ _ => eq_refl)) as V3.
  pose proof (applyInt_value (get := flagPort) _ _ _ _ _ _
                H4 (fun _ _ => eq_refl)) as V4.
  frames_of H1; frames_of H2; frames_of H3; frames_of H4; frames_of H5;
    frames_of H6; frames_of H7.
  replace (flagHost f) with (flagHost f2) by congruence.
  replace (flagHost (settings st)) with (flagHost f3) by congruence.
  replace (flagPort f) with (flagPort f3) by congruence.
  replace (flagPort (settings st)) with (flagPort f4) by congruence.
  split; [exact V3|]. split; [exact V4|exact HL].
Qed.

Lemma mainStartup_listen_address_witness :
  exists st,
    mainStartup exampleReadFile exampleUnmarshal exampleParseDuration
                exampleListen exampleFlags exampleTouched = inr st /\
    listenAddr st = "stats.example:7000" /\
    exists h p,
      listenAddr st = h +:+ ":" +:+ GoInt.Itoa p /\
      stringSetting exampleTouched (configMap st) "host"
                    (flagHost exampleFlags) h /\
      intSetting exampleTouched (configMap st) "port"
                 (flagPort exampleFlags) p /\
      exampleListen (listenAddr st) = None.
Proof.
  eexists.
  assert (Hrun : mainStartup exampleReadFile exampleUnmarshal
                   exampleParseDuration exampleListen exampleFlags
                   exampleTouched
                 = inr (mkStartup true "stats.example:7000"
                          (mkFlags "config.yml" false "stats.example" 7000
                                   "localhost" 5001 5000000000 90)
                          (fst (exampleUnmarshal "yaml"))))
    by (vm_compute; reflexivity).
  split; [exact Hrun|]. split; [reflexivity|].
  exact (mainStartup_listen_address _ _ _ _ _ _ _ Hrun).
Defined.

(** ** Splitting a string *)

Lemma length_append (a b : string) :
  String.length (a +:+ b) = (String.length a + String.length b)%nat.
Proof.
  induction a as [|x a IH]; [reflexivity|].
  change (S (String.length (a +:+ b))
          = S (String.length a + String.length b)).
  f_equal. exact IH.
Qed.

Lemma append_inv_length (a b a' b' : string) :
  a +:+ b = a' +:+ b' -> String.length a = String.length a' ->
  a = a' /\ b = b'.
Proof.
  revert a'. induction a as [|x a IH]; intros [|x' a'] H Hlen;
    try discriminate Hlen.
  - split; [reflexivity|exact H].
  - change (String x (a +:+ b) = String x' (a' +:+ b')) in H.
    injection H as -> H. injection Hlen as Hlen.
    destruct (IH a' H Hlen) as [-> ->]. split; reflexivity.
Qed.

Lemma stripPrefix_Some sep s t :
  stripPrefix sep s = Some t <-> s = sep +:+ t.
Proof.
  revert s. induction sep as [|a sep IH]; intros s.
  - change (Some s = Some t <-> s = t).
    split; [intros [= ->]; reflexivity|intros ->; reflexivity].
  - destruct s as [|b s].
    + split; discriminate.
    + change ((if Ascii.eqb a b then stripPrefix sep s else None) = Some t
              <-> String b s = String a (sep +:+ t)).
      destruct (Ascii.eqb a b) eqn:E.
      * apply Ascii.eqb_eq in E as ->. rewrite IH.
        split; [intros ->; reflexivity|intros [= ->]; reflexivity].
      * split; [discriminate|]. intros [= <- _].
        rewrite Ascii.eqb_refl in E. discriminate E.
Qed.

Lemma cutAt_eq sep s :
  cutAt sep s
  = match stripPrefix sep s with
    | Some t => Some (EmptyString, t)
    | None =>
        match s with
        | EmptyString => None
        | String c s' =>
            match cutAt sep s' with
            | Some (l, t) => Some (String c l, t)
            | None => None
            end
        end
    end.
Proof. destruct s; reflexivity. Qed.

Lemma firstCut_occursIn sep s l t : firstCut sep s l t -> occursIn sep s.
Proof. intros [H _]. exists l, t. exact H. Qed.

Lemma cutAt_firstCut sep s l t :
  cutAt sep s = Some (l, t) -> firstCut sep s l t.
Proof.
  revert l t. induction s as [|c s IH]; intros l t; rewrite cutAt_eq;
    destruct (stripPrefix sep _) as [t0|] eqn:E.
  - intros [= <- <-]. apply stripPrefix_Some in E.
    split; [exact E|]. intros a b _. apply Nat.le_0_l.
  - discriminate.
  - intros [= <- <-]. apply stripPrefix_Some in E.
    split; [exact E|]. intros a b _. apply Nat.le_0_l.
  - destruct (cutAt sep s) as [[l' t']|] eqn:E2; [|discriminate].
    intros [= <- <-]. destruct (IH l' t' eq_refl) as [Hs Hmin]. split.
    + change (String c s = String c (l' +:+ sep +:+ t')). f_equal. exact Hs.
    + intros [|x a] b Hab.
      * change (String c s = sep +:+ b) in Hab.
        apply stripPrefix_Some in Hab. rewrite Hab in E. discriminate E.
      * change (String c s = String x (a +:+ sep +:+ b)) in Hab.
        injection Hab as _ Hab. apply Hmin in Hab.
        change (S (String.length l') <= S (String.length a))%nat. lia.
Qed.

Lemma cutAt_None_no sep s : cutAt sep s = None -> ~ occursIn sep s.
Proof.
  induction s as [|c s IH]; rewrite cutAt_eq;
    destruct (stripPrefix sep _) as [t0|] eqn:E; try discriminate.
  - intros _ ([|x a] & b & H); [|discriminate H].
    change (EmptyString = sep +:+ b) in H.
    apply stripPrefix_Some in H. rewrite H in E. discriminate E.
  - destruct (cutAt sep s) as [[l' t']|] eqn:E2; [discriminate|].
    intros _ ([|x a] & b & H).
    + change (String c s = sep +:+ b) in H.
      apply stripPrefix_Some in H. rewrite H in E. discriminate E.
    + change (String c s = String x (a +:+ sep +:+ b)) in H.
      injection H as _ H. apply (IH eq_refl). exists a, b. exact H.
Qed.

Lemma firstCut_unique sep s l t l' t' :
  firstCut sep s l t -> firstCut sep s l' t' -> l = l' /\ t = t'.
Proof.
  intros [H1 M1] [H2 M2].
  pose proof (M1 _ _ H2) as L1. pose proof (M2 _ _ H1) as L2.
  assert (Hlen : String.length l = String.length l') by lia.
  rewrite H1 in H2.
  destruct (append_inv_length _ _ _ _ H2 Hlen) as [-> Hrest].
  destruct (append_inv_length _ _ _ _ Hrest eq_refl) as [_ ->].
  split; reflexivity.
Qed.

Lemma cutAt_iff sep s l t :
  cutAt sep s = Some (l, t) <-> firstCut sep s l t.
Proof.
  split; [apply cutAt_firstCut|]. intros H.
  destruct (cutAt sep s) as [[l0 t0]|] eqn:E.
  - apply cutAt_firstCut in E.
    destruct (firstCut_unique _ _ _ _ _ _ E H) as [-> ->]. reflexivity.
  - apply cutAt_None_no in E. exfalso. apply E.
    exact (firstCut_occursIn _ _ _ _ H).
Qed.

Lemma cutAt_None_iff sep s : cutAt sep s = None <-> ~ occursIn sep s.
Proof.
  split; [apply cutAt_None_no|]. intros H.
  destruct (cutAt sep s) as [[l0 t0]|] eqn:E; [|reflexivity].
  exfalso. apply H. apply cutAt_firstCut in E.
  exact (firstCut_occursIn _ _ _ _ E).
Qed.

Lemma length_nonempty (sep : string) :
  sep <> EmptyString -> (1 <= String.length sep)%nat.
Proof.
  destruct sep as [|a sep]; [intros H; contradiction|].
  intros _. change (1 <= S (String.length sep))%nat. lia.
Qed.

Lemma length_zero (s : string) : String.length s = 0%nat -> s = EmptyString.
Proof. destruct s; [reflexivity|discriminate]. Qed.

Lemma occursIn_length sep s :
  occursIn sep s -> (String.length sep <= String.length s)%nat.
Proof. intros (a & b & ->). rewrite !length_append. lia. Qed.

Lemma firstCut_length sep s l t :
  firstCut sep s l t ->
  String.length s
  = (String.length l + String.length sep + String.length t)%nat.
Proof. intros [-> _]. rewrite !length_append. lia. Qed.

(** The piece before the first separator holds no separator. *)
Lemma firstCut_piece sep s l t :
  sep <> EmptyString -> firstCut sep s l t -> ~ occursIn sep l.
Proof.
  intros Hsep [Hs Hmin] (a & b & Hl).
  assert (Hab : s = a +:+ sep +:+ (b +:+ sep +:+ t)).
  { rewrite Hs, Hl. rewrite !append_assoc. reflexivity. }
  apply Hmin in Hab. rewrite Hl in Hab. rewrite !length_append in Hab.
  apply length_nonempty in Hsep. lia.
Qed.

Lemma splitFrom_nonempty fuel sep s : splitFrom fuel sep s <> [].
Proof.
  destruct fuel as [|fuel]; [discriminate|].
  change (match cutAt sep s with
          | None => [s]
          | Some (l, t) => l :: splitFrom fuel sep t
          end <> []).
  destruct (cutAt sep s) as [[l t]|]; discriminate.
Qed.

(** Joining the pieces with the separator gives the string back. *)
Lemma splitFrom_Join fuel sep s : Join (splitFrom fuel sep s) sep = s.
Proof.
  revert s. induction fuel as [|fuel IH]; intros s; [reflexivity|].
  change (Join match cutAt sep s with
               | None => [s]
               | Some (l, t) => l :: splitFrom fuel sep t
               end sep = s).
  destruct (cutAt sep s) as [[l t]|] eqn:E; [|reflexivity].
  apply cutAt_firstCut in E as [Hs _].
  specialize (IH t). pose proof (splitFrom_nonempty fuel sep t) as Hne.
  destruct (splitFrom fuel sep t) as [|x xs]; [contradiction|].
  change (l +:+ sep +:+ Join (x :: xs) sep = s).
  rewrite IH. symmetry. exact Hs.
Qed.

(** With [String.length s] rounds no piece holds a separator: the loop has
    come to its end. *)
Lemma splitFrom_pieces fuel sep s :
  sep <> EmptyString -> (String.length s <= fuel)%nat ->
  Forall (fun p => ~ occursIn sep p) (splitFrom fuel sep s).
Proof.
  intros Hsep. revert s. induction fuel as [|fuel IH]; intros s Hlen.
  - constructor; [|constructor]. intros Hocc.
    apply occursIn_length in Hocc. apply length_nonempty in Hsep. lia.
  - change (Forall (fun p => ~ occursIn sep p)
              match cutAt sep s with
              | None => [s]
              | Some (l, t) => l :: splitFrom fuel sep t
              end).
    destruct (cutAt sep s) as [[l t]|] eqn:E.
    + apply cutAt_firstCut in E. constructor.
      * exact (firstCut_piece _ _ _ _ Hsep E).
      * apply IH. apply firstCut_length in E.
        apply length_nonempty in Hsep. lia.
    + constructor; [|constructor]. apply cutAt_None_no. exact E.
Qed.

Lemma cutAt_empty sep : sep <> EmptyString -> cutAt sep EmptyString = None.
Proof. destruct sep; [intros H; contradiction|reflexivity]. Qed.

Lemma splitFrom_first_two sep s :
  sep <> EmptyString ->
  splitFrom (String.length s) sep s
  = match cutAt sep s with
    | None => [s]
    | Some (l, t) =>
        match cutAt sep t with
        | None => [l; t]
        | Some (r, rest) =>
            l :: r :: splitFrom (String.length s - 2) sep rest
        end
    end.
Proof.
  intros Hsep. destruct (String.length s) as [|n] eqn:Hlen.
  - apply length_zero in Hlen. subst s.
    rewrite (cutAt_empty _ Hsep). reflexivity.
  - change (match cutAt sep s with
            | None => [s]
            | Some (l, t) => l :: splitFrom n sep t
            end
            = match cutAt sep s with
              | None => [s]
              | Some (l, t) =>
                  match cutAt sep t with
                  | None => [l; t]
                  | Some (r, rest) =>
                      l :: r :: splitFrom (S n - 2) sep rest
                  end
              end).
    destruct (cutAt sep s) as [[l t]|] eqn:E; [|reflexivity].
    apply cutAt_firstCut in E. apply firstCut_length in E.
    pose proof (length_nonempty _ Hsep) as Hs1.
    destruct n as [|n].
    + assert (Ht : String.length t = 0%nat) by lia.
      apply length_zero in Ht. subst t.
      rewrite (cutAt_empty _ Hsep). reflexivity.
    + change (l :: match cutAt sep t with
                   | None => [t]
                   | Some (r, rest) => r :: splitFrom n sep rest
                   end
              = match cutAt sep t with
                | None => [l; t]
                | Some (r, rest) =>
                    l :: r :: splitFrom (S (S n) - 2) sep rest
                end).
      replace (S (S n) - 2)%nat with n by lia.
      destruct (cutAt sep t) as [[r rest]|]; reflexivity.
Qed.

Lemma Split_nonempty_sep explode s sep :
  sep <> EmptyString ->
  Split explode s sep = splitFrom (String.length s) sep s.
Proof.
  intros Hsep. unfold Split.
  destruct (String.eqb sep EmptyString) eqn:E; [|reflexivity].
  apply String.eqb_eq in E. contradiction.
Qed.

Lemma splitString_eq explode raw sep :
  sep <> EmptyString ->
  splitString explode raw sep
  = match cutAt sep raw with
    | None => inl (PanicIndexOutOfRange 1)
    | Some (l, t) =>
        match cutAt sep t with
        | None => inr (l, t)
        | Some (r, _) => inr (l, r)
        end
    end.
Proof.
  intros Hsep. unfold splitString.
  rewrite (Split_nonempty_sep _ _ _ Hsep), (splitFrom_first_two _ _ Hsep).
  destruct (cutAt sep raw) as [[l t]|]; [|reflexivity].
  destruct (cutAt sep t) as [[r rest]|]; reflexivity.
Qed.

(** X25. For a separator that is not empty, [splitString] returns the text
    before the first separator and the text between the first and the
    second one, or everything behind the first when there is no second:
    whatever follows a second separator is dropped. *)
Theorem splitString_cuts (explode : string -> list string)
    (raw sep l r : string) :
  sep <> EmptyString ->
  splitString explode raw sep = inr (l, r) <->
  exists t, firstCut sep raw l t /\
            ((~ occursIn sep t /\ r = t) \/
             exists rest, firstCut sep t r rest).
Proof.
  intros Hsep. rewrite (splitString_eq _ _ _ Hsep).
  destruct (cutAt sep raw) as [[l0 t0]|] eqn:E1.
  - destruct (cutAt sep t0) as [[r0 rest0]|] eqn:E2.
    + split.
      * intros [= <- <-]. exists t0. split; [apply cutAt_iff; exact E1|].
        right. exists rest0. apply cutAt_iff. exact E2.
      * intros (t & Hfc & Hr). apply cutAt_iff in Hfc.
        rewrite E1 in Hfc. injection Hfc as <- <-.
        destruct Hr as [[Hno _]|[rest Hfc2]].
        -- apply cutAt_None_iff in Hno. rewrite E2 in Hno. discriminate Hno.
        -- apply cutAt_iff in Hfc2. rewrite E2 in Hfc2.
           injection Hfc2 as <- _. reflexivity.
    + split.
      * intros [= <- <-]. exists t0. split; [apply cutAt_iff; exact E1|].
        left. split; [apply cutAt_None_iff; exact E2|reflexivity].
      * intros (t & Hfc & Hr). apply cutAt_iff in Hfc.
        rewrite E1 in Hfc. injection Hfc as <- <-.
        destruct Hr as [[_ ->]|[rest Hfc2]]; [reflexivity|].
        apply cutAt_iff in Hfc2. rewrite E2 in Hfc2. discriminate Hfc2.
  - split; [discriminate|]. intros (t & Hfc & _).
    apply cutAt_iff in Hfc. rewrite E1 in Hfc. discriminate Hfc.
Qed.

Lemma splitString_cuts_witness :
  splitString explodeBytes "a:b:c" ":" = inr ("a", "b") /\
  exists t, firstCut ":" "a:b:c" "a" t /\
            ((~ occursIn ":" t /\ "b" = t) \/
             exists rest, firstCut ":" t "b" rest).
Proof.
  assert (Hsep : ":" <> EmptyString) by discriminate.
  assert (Hrun : splitString explodeBytes "a:b:c" ":" = inr ("a", "b"))
    by reflexivity.
  split; [exact Hrun|].
  exact (proj1 (splitString_cuts explodeBytes "a:b:c" ":" "a" "b" Hsep) Hrun).
Defined.

(** X26. For a separator that is not empty, [splitString] panics exactly
    when the separator does not occur in the string, and the panic is the
    index 1 past the end of the one-element result of [strings.Split]. *)
Theorem splitString_panics_iff (explode : string -> list string)
    (raw sep : string) (p : Panic) :
  sep <> EmptyString ->
  splitString explode raw sep = inl p <->
  p = PanicIndexOutOfRange 1 /\ ~ occursIn sep raw.
Proof.
  intros Hsep. rewrite (splitString_eq _ _ _ Hsep).
  destruct (cutAt sep raw) as [[l0 t0]|] eqn:E1.
  - split.
    + destruct (cutAt sep t0) as [[r0 rest0]|]; discriminate.
    + intros [_ Hno]. apply cutAt_None_iff in Hno.
      rewrite E1 in Hno. discriminate Hno.
  - split.
    + intros [= <-]. split; [reflexivity|]. apply cutAt_None_iff. exact E1.
    + intros [-> _]. reflexivity.
Qed.

Lemma splitString_panics_iff_witness :
  splitString explodeBytes "hits" ":" = inl (PanicIndexOutOfRange 1) /\
  ~ occursIn ":" "hits".
Proof.
  assert (Hsep : ":" <> EmptyString) by discriminate.
  assert (Hrun : splitString explodeBytes "hits" ":"
                 = inl (PanicIndexOutOfRange 1)) by reflexivity.
  split; [exact Hrun|].
  exact (proj2 (proj1 (splitString_panics_iff explodeBytes "hits" ":" _ Hsep)
                  Hrun)).
Defined.
